(** * jenkins-top-submitters: the pivot-table validator and the renderers

    A shallow embedding of [cmd/check.go] ([checkFile]) and of
    [cmd/utilities.go] ([writeCSVtoFile], [writeDataAsMarkdown],
    [get_columnsWidth]), together with the parts of the Go standard library
    they call: [strconv.Atoi], [encoding/csv], [fmt.Sprintf] with the verb
    [%*s], [strings.Repeat], [unicode/utf8] and the two regular expressions.

    Conventions.
    - A Go [string] is a sequence of bytes: [list ascii].
    - A Go [int] is 64 bits wide ([strconv.IntSize = 64]); it is a [Z], and
      the places where the library relies on wrap-around write it out.
    - A function that can panic or end the process returns an [Outcome].
    - The file system is a finite map from file names to contents. *)

From Stdlib Require Import ZArith Ascii String Lia.
From stdpp Require Import base list strings gmap.

Set Default Proof Using "Type".

(** ** Bytes and strings *)

Definition str (s : string) : list ascii := list_ascii_of_string s.

(** [len(s)]: the number of bytes. *)
Definition len {A} (s : list A) : Z := Z.of_nat (length s).

Definition byte (c : ascii) : Z := Z.of_N (N_of_ascii c).

Definition LF : ascii := "010"%char.
Definition CR : ascii := "013"%char.
Definition DQUOTE : ascii := "034"%char.
Definition COMMA : ascii := ","%char.
Definition SPACE : ascii := " "%char.

Definition is_digit (c : ascii) : bool :=
  (48 <=? byte c)%Z && (byte c <=? 57)%Z.

Definition is_letter (c : ascii) : bool :=
  ((97 <=? byte c)%Z && (byte c <=? 122)%Z) ||
  ((65 <=? byte c)%Z && (byte c <=? 90)%Z).

(** ** Outcomes of a call *)

Inductive Outcome (A : Type) : Type :=
| Returns (a : A)
| Panics
| Fatal.
Arguments Returns {A} a.
Arguments Panics {A}.
Arguments Fatal {A}.

#[global] Instance Outcome_bind : MBind Outcome := λ A B k m,
  match m with
  | Returns a => k a
  | Panics => Panics
  | Fatal => Fatal
  end.

(** ** strconv *)

Module strconv.

Inductive NumError := ErrSyntax | ErrRange.

Definition intSize : Z := 64.
Definition maxUint64 : Z := 2 ^ 64 - 1.

(** Two's complement wrap-around of a 64-bit [int]. *)
Definition wrap_int (x : Z) : Z := (x + 2 ^ 63) mod 2 ^ 64 - 2 ^ 63.
Definition wrap_uint64 (x : Z) : Z := x mod 2 ^ 64.
(** Arithmetic on a [byte]. *)
Definition wrap_byte (x : Z) : Z := x mod 256.

(** The loop of the fast path of [Atoi]:
    [for _, ch := range []byte(s) { ch -= '0'; if ch > 9 { return 0, syntaxError };
     n = n*10 + int(ch) }]. *)
Fixpoint atoi_digits (s : list ascii) (n : Z) : option Z :=
  match s with
  | [] => Some n
  | ch :: s' =>
    let ch' := wrap_byte (byte ch - 48) in
    if (9 <? ch')%Z then None
    else atoi_digits s' (wrap_int (n * 10 + ch'))
  end.

(** [lower(c) = c | ('x' - 'X')]. *)
Definition lower (c : Z) : Z := Z.lor c 32.

(** The loop of [ParseUint(s, 10, 64)]; [cutoff = maxUint64/10 + 1]. *)
Definition cutoff10 : Z := maxUint64 / 10 + 1.

Fixpoint parseUint_loop (s : list ascii) (n : Z) : Z * option NumError :=
  match s with
  | [] => (n, None)
  | c :: s' =>
    let c := byte c in
    let d := if (48 <=? c)%Z && (c <=? 57)%Z then Some (c - 48)%Z
             else if (97 <=? lower c)%Z && (lower c <=? 122)%Z
                  then Some (lower c - 97 + 10)%Z
                  else None in
    match d with
    | None => (0%Z, Some ErrSyntax)
    | Some d =>
      if (10 <=? d)%Z then (0%Z, Some ErrSyntax)
      else if (cutoff10 <=? n)%Z then (maxUint64, Some ErrRange)
      else
        let n := wrap_uint64 (n * 10) in
        let n1 := wrap_uint64 (n + d) in
        if (n1 <? n)%Z || (maxUint64 <? n1)%Z then (maxUint64, Some ErrRange)
        else parseUint_loop s' n1
    end
  end.

Definition ParseUint (s : list ascii) : Z * option NumError :=
  match s with
  | [] => (0%Z, Some ErrSyntax)
  | _ => parseUint_loop s 0
  end.

(** [ParseInt(s, 10, 0)]. *)
Definition ParseInt (s : list ascii) : Z * option NumError :=
  match s with
  | [] => (0%Z, Some ErrSyntax)
  | c0 :: s1 =>
    let '(neg, s') :=
      if Ascii.eqb c0 "+" then (false, s1)
      else if Ascii.eqb c0 "-" then (true, s1)
      else (false, s) in
    match ParseUint s' with
    | (_, Some ErrSyntax) => (0%Z, Some ErrSyntax)
    | (un, _) =>
      let cutoff := (2 ^ (intSize - 1))%Z in
      if negb neg && (cutoff <=? un)%Z then ((cutoff - 1)%Z, Some ErrRange)
      else if neg && (cutoff <? un)%Z then ((- cutoff)%Z, Some ErrRange)
      else (wrap_int (if neg then - un else un), None)
    end
  end.

(** [Atoi(s)]: the fast path for strings of 1 to 18 bytes, [ParseInt]
    otherwise. *)
Definition Atoi (s : list ascii) : Z * option NumError :=
  let sLen := len s in
  if (0 <? sLen)%Z && (sLen <? 19)%Z then
    match s with
    | [] => (0%Z, Some ErrSyntax)
    | c0 :: s1 =>
      let signed := Ascii.eqb c0 "-" || Ascii.eqb c0 "+" in
      let s' := if signed then s1 else s in
      if signed && (len s' <? 1)%Z then (0%Z, Some ErrSyntax)
      else
        match atoi_digits s' 0 with
        | None => (0%Z, Some ErrSyntax)
        | Some n => ((if Ascii.eqb c0 "-" then wrap_int (- n) else n), None)
        end
    end
  else ParseInt s.

Definition is_ok (r : Z * option NumError) : bool :=
  match r.2 with None => true | Some _ => false end.

End strconv.

(** ** unicode/utf8 *)

Module utf8.

Definition RuneError : Z := 65533.

(** The entry of the table [first] for a leading byte: ASCII, invalid, or
    the size of the sequence with the range accepted for the second byte. *)
Inductive FirstInfo :=
| as_ascii
| xx
| lead (size : nat) (lo hi : Z).

Definition first (b : Z) : FirstInfo :=
  if (b <? 128)%Z then as_ascii
  else if (b <? 194)%Z then xx
  else if (b <? 224)%Z then lead 2 128 191
  else if (b =? 224)%Z then lead 3 160 191
  else if (b <? 237)%Z then lead 3 128 191
  else if (b =? 237)%Z then lead 3 128 159
  else if (b <? 240)%Z then lead 3 128 191
  else if (b =? 240)%Z then lead 4 144 191
  else if (b <? 244)%Z then lead 4 128 191
  else if (b =? 244)%Z then lead 4 128 143
  else xx.

Definition continuation (b : Z) : bool := (128 <=? b)%Z && (b <=? 191)%Z.

(** [DecodeRuneInString(s)]: the first rune of [s] and its width in bytes. *)
Definition DecodeRuneInString (s : list ascii) : Z * nat :=
  match s with
  | [] => (RuneError, 0)
  | c0 :: s1 =>
    let b0 := byte c0 in
    match first b0 with
    | as_ascii => (b0, 1)
    | xx => (RuneError, 1)
    | lead sz lo hi =>
      if length s <? sz then (RuneError, 1)
      else
        match s1 with
        | c1 :: s2 =>
          let b1 := byte c1 in
          if (b1 <? lo)%Z || (hi <? b1)%Z then (RuneError, 1)
          else if sz <=? 2 then
            (Z.lor (Z.shiftl (Z.land b0 31) 6) (Z.land b1 63), 2)
          else
            match s2 with
            | c2 :: s3 =>
              let b2 := byte c2 in
              if negb (continuation b2) then (RuneError, 1)
              else if sz <=? 3 then
                (Z.lor (Z.lor (Z.shiftl (Z.land b0 15) 12)
                              (Z.shiftl (Z.land b1 63) 6)) (Z.land b2 63), 3)
              else
                match s3 with
                | c3 :: _ =>
                  let b3 := byte c3 in
                  if negb (continuation b3) then (RuneError, 1)
                  else
                    (Z.lor (Z.lor (Z.lor (Z.shiftl (Z.land b0 7) 18)
                                         (Z.shiftl (Z.land b1 63) 12))
                                  (Z.shiftl (Z.land b2 63) 6)) (Z.land b3 63), 4)
                | [] => (RuneError, 1)
                end
            | [] => (RuneError, 1)
            end
        | [] => (RuneError, 1)
        end
    end
  end.

(** [RuneCountInString(s)]: one rune per decoded sequence, one per invalid
    byte. [skip] is the number of bytes of the current rune still to pass. *)
Fixpoint count_from (skip : nat) (s : list ascii) : Z :=
  match s with
  | [] => 0
  | _ :: s' =>
    match skip with
    | S k => count_from k s'
    | O => 1 + count_from (pred (DecodeRuneInString s).2) s'
    end
  end.

Definition RuneCountInString (s : list ascii) : Z := count_from 0 s.

End utf8.

Module unicode.

(** [IsSpace(r)]: the Latin-1 cases, then the table [White_Space]. *)
Definition IsSpace (r : Z) : bool :=
  if (r <=? 255)%Z then
    ((9 <=? r)%Z && (r <=? 13)%Z) || (r =? 32)%Z || (r =? 133)%Z || (r =? 160)%Z
  else
    (r =? 5760)%Z || ((8192 <=? r)%Z && (r <=? 8202)%Z) ||
    (r =? 8232)%Z || (r =? 8233)%Z || (r =? 8239)%Z || (r =? 8287)%Z ||
    (r =? 12288)%Z.

End unicode.

(** ** strings and fmt *)

Module Strings.

(** [strings.Repeat(s, count)] panics on a negative count. *)
Definition Repeat (s : list ascii) (count : Z) : Outcome (list ascii) :=
  if (count <? 0)%Z then Panics
  else Returns (concat (replicate (Z.to_nat count) s)).

(** [strings.ToUpper] and [strings.ToLower]. A string of ASCII bytes is
    mapped byte by byte; any other string goes through [strings.Map] with
    the case tables of [unicode], which are no part of this development:
    [slow] stands for that path. *)
Definition isASCII (s : list ascii) : bool :=
  forallb (λ c, (byte c <? 128)%Z) s.

Definition is_lower (c : ascii) : bool := (97 <=? byte c)%Z && (byte c <=? 122)%Z.
Definition is_upper (c : ascii) : bool := (65 <=? byte c)%Z && (byte c <=? 90)%Z.

(** [c -= 'a' - 'A'] and [c += 'a' - 'A']. *)
Definition upper_byte (c : ascii) : ascii :=
  if is_lower c then ascii_of_N (N_of_ascii c - 32) else c.
Definition lower_byte (c : ascii) : ascii :=
  if is_upper c then ascii_of_N (N_of_ascii c + 32) else c.

Definition ToUpper (slow : list ascii → list ascii) (s : list ascii) : list ascii :=
  if isASCII s then
    if negb (existsb is_lower s) then s else upper_byte <$> s
  else slow s.

Definition ToLower (slow : list ascii → list ascii) (s : list ascii) : list ascii :=
  if isASCII s then
    if negb (existsb is_upper s) then s else lower_byte <$> s
  else slow s.

End Strings.

(** ** path/filepath, with [/] as the path separator *)

Module filepath.

(** The loop of [Ext] runs from the last byte down to the first or to a
    separator. [scan] says how it leaves a path: with the extension found,
    on a separator, or at the start of the path. *)
Inductive Scan :=
| Found (ext : list ascii)
| Separator
| Start.

Fixpoint scan (path : list ascii) : Scan :=
  match path with
  | [] => Start
  | c :: rest =>
    match scan rest with
    | Found ext => Found ext
    | Separator => Separator
    | Start =>
      if Ascii.eqb c "/" then Separator
      else if Ascii.eqb c "." then Found path
      else Start
    end
  end.

(** [Ext(path)]: the suffix that begins at the last dot of the last
    element of the path, or the empty string. *)
Definition Ext (path : list ascii) : list ascii :=
  match scan path with
  | Found ext => ext
  | _ => []
  end.

End filepath.

Module fmt.

(** A width taken from an argument is refused beyond one million. *)
Definition tooLarge (x : Z) : bool := (1000000 <? x)%Z || (x <? -1000000)%Z.

Definition badWidthString : list ascii := str "%!(BADWIDTH)".

Definition writePadding (n : Z) : list ascii :=
  if (n <=? 0)%Z then [] else replicate (Z.to_nat n) SPACE.

(** [padString]: the width counts runes, not bytes. *)
Definition padString (widPresent : bool) (wid : Z) (minus : bool)
    (s : list ascii) : list ascii :=
  if negb widPresent || (wid =? 0)%Z then s
  else
    let width := (wid - utf8.RuneCountInString s)%Z in
    if negb minus then writePadding width ++ s
    else s ++ writePadding width.

(** [Sprintf(" %*s", width, data)]: a negative width is its absolute value
    with the flag [-] (pad on the right). *)
Definition Sprintf_pad (width : Z) (data : list ascii) : list ascii :=
  let '(wid, widPresent) := if tooLarge width then (0%Z, false) else (width, true) in
  let bad := if widPresent then [] else badWidthString in
  let '(wid, minus) := if (wid <? 0)%Z then ((- wid)%Z, true) else (wid, false) in
  [SPACE] ++ bad ++ padString widPresent wid minus data.

End fmt.

(** ** regexp: the two patterns of [checkFile] *)

Module regexp.

(** [20[0-9]{2}-[0-9]{2}] matched at the start of [s]. *)
Definition month_here (s : list ascii) : bool :=
  match s with
  | c1 :: c2 :: d1 :: d2 :: c3 :: d3 :: d4 :: _ =>
    Ascii.eqb c1 "2" && Ascii.eqb c2 "0" && is_digit d1 && is_digit d2 &&
    Ascii.eqb c3 "-" && is_digit d3 && is_digit d4
  | _ => false
  end.

(** [month_regexp.MatchString(s)]: the pattern has no anchor, so a match
    may start at any position of [s]. *)
Fixpoint month_regexp (s : list ascii) : bool :=
  month_here s ||
  match s with
  | [] => false
  | _ :: s' => month_regexp s'
  end.

(** The class [[a-zA-Z0-9\-]]. *)
Definition name_class (c : ascii) : bool :=
  is_letter c || is_digit c || Ascii.eqb c "-".

(** [name_exp.MatchString(s)] for [^[a-zA-Z0-9\-]+$]: one or more bytes,
    all of the class, from the start to the end of the text. *)
Definition name_exp (s : list ascii) : bool :=
  match s with
  | [] => false
  | _ => forallb name_class s
  end.

(** [20[12][0-9]-(0[1-9]|1[0-2])], the pattern of [isValidMonth], matched
    at the start of [s]. *)
Definition valid_month_here (s : list ascii) : bool :=
  match s with
  | c1 :: c2 :: y1 :: y2 :: c3 :: m1 :: m2 :: _ =>
    Ascii.eqb c1 "2" && Ascii.eqb c2 "0" &&
    (Ascii.eqb y1 "1" || Ascii.eqb y1 "2") && is_digit y2 &&
    Ascii.eqb c3 "-" &&
    ((Ascii.eqb m1 "0" && (49 <=? byte m2)%Z && (byte m2 <=? 57)%Z) ||
     (Ascii.eqb m1 "1" && (48 <=? byte m2)%Z && (byte m2 <=? 50)%Z))
  | _ => false
  end.

(** [regexpMonth.MatchString(s)]: no anchor here either. *)
Fixpoint regexpMonth (s : list ascii) : bool :=
  valid_month_here s ||
  match s with
  | [] => false
  | _ :: s' => regexpMonth s'
  end.

End regexp.

(** ** encoding/csv *)

Module csv.

Inductive Error :=
| EOF             (* io.EOF *)
| ErrBareQuote    (* bare quote in a non-quoted field *)
| ErrQuote        (* extraneous or missing quote in a quoted field *)
| ErrFieldCount.  (* wrong number of fields *)

#[global] Instance Error_eq_dec : EqDecision Error.
Proof. solve_decision. Defined.

(** *** Reader, with the default settings of [NewReader]: [Comma = ','], no
    comment character, [LazyQuotes] and [TrimLeadingSpace] off. The line and
    column of a [ParseError] are left out: an error is its kind. *)

Record Reader := mkReader {
  r_input : list ascii;        (* what is left to read of the underlying file *)
  FieldsPerRecord : Z
}.

Definition NewReader (content : list ascii) : Reader :=
  {| r_input := content; FieldsPerRecord := 0 |}.

(** [bufio.Reader.ReadSlice('\n')]: the bytes up to and including the first
    line feed, whether one was found, and the rest. *)
Fixpoint ReadSlice (input : list ascii) : list ascii * bool * list ascii :=
  match input with
  | [] => ([], false, [])
  | c :: rest =>
    if Ascii.eqb c LF then ([c], true, rest)
    else let '(line, found, rest') := ReadSlice rest in (c :: line, found, rest')
  end.

(** Drop a trailing carriage return (done on the last line of a file that
    does not end with a line feed). *)
Fixpoint dropTrailingCR (line : list ascii) : list ascii :=
  match line with
  | [] => []
  | c :: rest =>
    match rest with
    | [] => if Ascii.eqb c CR then [] else [c]
    | _ => c :: dropTrailingCR rest
    end
  end.

(** If the line ends with [\r\n], replace these two bytes by [\n]. *)
Fixpoint normalizeCRLF (line : list ascii) : list ascii :=
  match line with
  | [] => []
  | c :: rest =>
    match rest with
    | [c'] => if Ascii.eqb c CR && Ascii.eqb c' LF then [LF] else [c; c']
    | _ => c :: normalizeCRLF rest
    end
  end.

(** [readLine]: the next line, with [\r\n] normalized to [\n]; [Some EOF]
    only when nothing is left. *)
Definition readLine (input : list ascii) : list ascii * option Error * list ascii :=
  let '(line, found, rest) := ReadSlice input in
  let err := if found then None else Some EOF in
  let readSize := len line in
  let '(line, err) :=
    if (0 <? readSize)%Z && bool_decide (err = Some EOF)
    then (dropTrailingCR line, None) else (line, err) in
  (normalizeCRLF line, err, rest).

Definition lengthNL (b : list ascii) : Z :=
  match last b with
  | Some c => if Ascii.eqb c LF then 1%Z else 0%Z
  | None => 0%Z
  end.

(** The first loop of [readRecord]: read lines until one is not empty. *)
Fixpoint nextLine (fuel : nat) (input : list ascii)
    : list ascii * option Error * list ascii :=
  let '(line, errRead, rest) := readLine input in
  if bool_decide (errRead = None) && (len line =? lengthNL line)%Z then
    match fuel with
    | O => (line, errRead, rest)
    | S fuel' => nextLine fuel' rest
    end
  else (line, errRead, rest).

(** [bytes.IndexByte] followed by the two slices around the index. *)
Fixpoint cut (c : ascii) (line : list ascii) : option (list ascii * list ascii) :=
  match line with
  | [] => None
  | x :: rest =>
    if Ascii.eqb x c then Some ([], rest)
    else match cut c rest with
         | Some (before, after) => Some (x :: before, after)
         | None => None
         end
  end.

Definition has_quote (field : list ascii) : bool :=
  existsb (fun c => Ascii.eqb c DQUOTE) field.

(** [field[:len(field)-lengthNL(field)]]. *)
Definition trimNL (field : list ascii) : list ascii :=
  take (length field - Z.to_nat (lengthNL field)) field.

(** Where the loop [parseField] stands: at the start of a field, or inside
    a quoted field of which [acc] has been read. *)
Inductive Mode :=
| AtField
| InQuoted (acc : list ascii).

(** The loop [parseField] of [readRecord], with the inner loop of a quoted
    field. [line] is what is left of the current line, [input] what is left
    of the file, [fields] the fields read so far. Every iteration shortens
    [line ++ input]; [None] is the end of the fuel. *)
Fixpoint parseField (fuel : nat) (mode : Mode) (line input : list ascii)
    (fields : list (list ascii))
    : option (list (list ascii) * option Error * list ascii) :=
  match fuel with
  | O => None
  | S fuel =>
    let unquoted :=
      match cut COMMA line with
      | Some (field, line') =>
        if has_quote field then Some (fields, Some ErrBareQuote, input)
        else parseField fuel AtField line' input (fields ++ [field])
      | None =>
        let field := trimNL line in
        if has_quote field then Some (fields, Some ErrBareQuote, input)
        else Some (fields ++ [field], None, input)
      end in
    match mode with
    | AtField =>
      match line with
      | c :: line' =>
        if Ascii.eqb c DQUOTE
        then parseField fuel (InQuoted []) line' input fields
        else unquoted
      | [] => unquoted
      end
    | InQuoted acc =>
      match cut DQUOTE line with
      | Some (before, line') =>
        (* hit the next quote *)
        let acc := acc ++ before in
        match line' with
        | c :: line'' =>
          if Ascii.eqb c DQUOTE then
            parseField fuel (InQuoted (acc ++ [DQUOTE])) line'' input fields
          else if Ascii.eqb c COMMA then
            parseField fuel AtField line'' input (fields ++ [acc])
          else if (lengthNL line' =? len line')%Z then
            Some (fields ++ [acc], None, input)
          else Some (fields, Some ErrQuote, input)
        | [] => Some (fields ++ [acc], None, input)
        end
      | None =>
        match line with
        | _ :: _ =>
          (* hit the end of the line: copy it and read the next one *)
          let '(line', _, input') := readLine input in
          parseField fuel (InQuoted (acc ++ line)) line' input' fields
        | [] =>
          (* abrupt end of the file *)
          Some (fields, Some ErrQuote, input)
        end
      end
    end
  end.

(** The syntax of one record: the fields, the error, what is left. *)
Definition parseRecord (input : list ascii)
    : list (list ascii) * option Error * list ascii :=
  let '(line, errRead, input') := nextLine (length input) input in
  match errRead with
  | Some e => ([], Some e, input')
  | None =>
    match parseField (S (length line + length input')) AtField line input' [] with
    | Some res => res
    | None => ([], Some ErrQuote, input')
    end
  end.

(** [readRecord]: one record, then the check or the update of
    [FieldsPerRecord]. *)
Definition readRecord (r : Reader) : list (list ascii) * option Error * Reader :=
  let '(dst, err, input') := parseRecord (r_input r) in
  if bool_decide (err = Some EOF)
  then ([], Some EOF, mkReader input' (FieldsPerRecord r))
  else if (0 <? FieldsPerRecord r)%Z then
    let err := if negb (len dst =? FieldsPerRecord r)%Z && bool_decide (err = None)
               then Some ErrFieldCount else err in
    (dst, err, mkReader input' (FieldsPerRecord r))
  else if (FieldsPerRecord r =? 0)%Z then
    (dst, err, mkReader input' (len dst))
  else (dst, err, mkReader input' (FieldsPerRecord r)).

Definition Read (r : Reader) : list (list ascii) * option Error * Reader :=
  readRecord r.

(** The loop of [ReadAll]: records until [io.EOF], nothing on an error. *)
Fixpoint ReadAll_loop (fuel : nat) (r : Reader) (records : list (list (list ascii)))
    : list (list (list ascii)) * option Error * Reader :=
  match fuel with
  | O => (records, None, r)
  | S fuel =>
    let '(record, err, r') := readRecord r in
    match err with
    | Some EOF => (records, None, r')
    | Some e => ([], Some e, r')
    | None => ReadAll_loop fuel r' (records ++ [record])
    end
  end.

Definition ReadAll (r : Reader) : list (list (list ascii)) * option Error * Reader :=
  ReadAll_loop (S (length (r_input r))) r [].

(** *** Writer, with the default settings of [NewWriter]: [Comma = ','],
    [UseCRLF] off. The writer is the bytes written so far. *)

Definition special (c : ascii) : bool :=
  Ascii.eqb c LF || Ascii.eqb c CR || Ascii.eqb c DQUOTE || Ascii.eqb c COMMA.

Definition fieldNeedsQuotes (field : list ascii) : bool :=
  match field with
  | [] => false
  | _ =>
    if bool_decide (field = str "\.") then true
    else if existsb special field then true
    else unicode.IsSpace (utf8.DecodeRuneInString field).1
  end.

(** The body of a quoted field: a quote is doubled, the other bytes are
    copied ([\r] and [\n] as they are, since [UseCRLF] is off). *)
Fixpoint writeQuoted (field : list ascii) : list ascii :=
  match field with
  | [] => []
  | c :: rest =>
    (if Ascii.eqb c DQUOTE then [DQUOTE; DQUOTE] else [c]) ++ writeQuoted rest
  end.

Definition writeField (field : list ascii) : list ascii :=
  if fieldNeedsQuotes field then [DQUOTE] ++ writeQuoted field ++ [DQUOTE]
  else field.

(** [for n, field := range record]: a comma before every field but the
    first. *)
Fixpoint writeFields (n : nat) (record : list (list ascii)) : list ascii :=
  match record with
  | [] => []
  | field :: rest =>
    (if (0 <? n)%nat then [COMMA] else []) ++ writeField field ++
    writeFields (S n) rest
  end.

Definition Write (w : list ascii) (record : list (list ascii)) : list ascii :=
  w ++ writeFields 0 record ++ [LF].

Definition WriteAll (w : list ascii) (records : list (list (list ascii))) : list ascii :=
  foldl Write w records.

End csv.

(** ** os: the file system *)

Module os.

(** The regular files that can be opened, with their contents, and the
    names under which a file can be created. *)
Record FileSystem := mkFS {
  files : gmap string (list ascii);
  creatable : string → bool
}.

Definition Open (fs : FileSystem) (name : string) : option (list ascii) :=
  files fs !! name.

Definition write (fs : FileSystem) (name : string) (content : list ascii) : FileSystem :=
  mkFS (<[name := content]> (files fs)) (creatable fs).

(** [os.Create] makes the file, or truncates it. *)
Definition Create (fs : FileSystem) (name : string) : option FileSystem :=
  if creatable fs name then Some (write fs name []) else None.

End os.

(** ** The package [cmd] *)

Module cmd.

(** [s[i]] on a slice panics out of range. *)
Definition index {A} (s : list A) (i : nat) : Outcome A :=
  match s !! i with
  | Some a => Returns a
  | None => Panics
  end.

(** *** check.go *)

(** What [checkFile] prints, on the standard output or through [log]: one
    constructor for each call that prints. *)
Inductive Message :=
| UnableToReadInputFile (fileName : string)
| UnexpectedErrorLoading (fileName : string) (err : option csv.Error)
| CheckingFileFormat
| NumberOfColumns (nbrOfColumns : Z)
| NotExpectedFirstColumnName
| HeaderStartsWithEmptyColumnName
| ColumnHeaderNotExpectedFormat (s : list ascii)
| HeaderDataColumnFormat
| SubmitterNotGitHubRules (column : list ascii) (i : Z)
| ValueNotInteger (column : list ascii) (i ii : Z)
| ColumnsMatchHeader
| RecordsValid (n : Z)
| SuccessfullyChecked (fileName : string).

(** [for i, s := range firstLine]: the first heading, past column 0, that
    the pattern does not match. *)
Fixpoint check_headings (i : nat) (firstLine : list (list ascii)) : option (list ascii) :=
  match firstLine with
  | [] => None
  | s :: rest =>
    if negb (i =? 0) && negb (regexp.month_regexp s) then Some s
    else check_headings (S i) rest
  end.

(** [for ii, column := range dataLine]: the message of the first cell that
    fails. *)
Fixpoint check_dataLine (i ii : nat) (dataLine : list (list ascii)) : option Message :=
  match dataLine with
  | [] => None
  | column :: rest =>
    if ii =? 0 then
      if negb ((len column <? 40)%Z && (0 <? len column)%Z && regexp.name_exp column)
      then Some (SubmitterNotGitHubRules column (Z.of_nat i))
      else check_dataLine i (S ii) rest
    else
      match (strconv.Atoi column).2 with
      | Some _ => Some (ValueNotInteger column (Z.of_nat i) (Z.of_nat ii))
      | None => check_dataLine i (S ii) rest
      end
  end.

(** [for i, dataLine := range records], with its [if i == 0 { continue }]. *)
Fixpoint check_records (i : nat) (records : list (list (list ascii))) : option Message :=
  match records with
  | [] => None
  | dataLine :: rest =>
    if i =? 0 then check_records (S i) rest
    else
      match check_dataLine i 0 dataLine with
      | Some m => Some m
      | None => check_records (S i) rest
      end
  end.

Definition checkFile (isVerboseCheck : bool) (fs : os.FileSystem) (fileName : string)
    : list Message * Outcome bool :=
  let verbose (l : list Message) := if isVerboseCheck then l else [] in
  match os.Open fs fileName with
  | None => ([UnableToReadInputFile fileName], Returns false)
  | Some f =>
    let r := csv.NewReader f in
    let '(firstLine, err1, r) := csv.Read r in
    match err1 with
    | Some _ => ([UnexpectedErrorLoading fileName None], Returns false)
    | None =>
      let out := verbose [CheckingFileFormat; NumberOfColumns (len firstLine)] in
      match firstLine with
      | [] => (out, Panics)
      | column0 :: _ =>
        if negb (bool_decide (column0 = []))
        then (out ++ [NotExpectedFirstColumnName], Returns false)
        else
          let out := out ++ verbose [HeaderStartsWithEmptyColumnName] in
          match check_headings 0 firstLine with
          | Some s => (out ++ [ColumnHeaderNotExpectedFormat s], Returns false)
          | None =>
            let out := out ++ verbose [HeaderDataColumnFormat] in
            let '(records, err, _) := csv.ReadAll r in
            match err with
            | Some e => (out ++ [UnexpectedErrorLoading fileName (Some e)], Returns false)
            | None =>
              match check_records 0 records with
              | Some m => (out ++ [m], Returns false)
              | None =>
                (out ++ verbose [ColumnsMatchHeader; RecordsValid (len records - 1)]
                     ++ [SuccessfullyChecked fileName],
                 Returns true)
              end
            end
          end
      end
    end
  end.

(** *** utilities.go *)

(** What [isValidMonth] prints when it is verbose. *)
Inductive MonthMessage :=
| EmptyMonth
| NotValidMonthFormat (month : list ascii).

(** [isValidMonth]: ["latest"] in any letter case, or a text in which the
    pattern is found. [slow] is [strings.ToUpper] on a string that is not
    ASCII. *)
Definition isValidMonth (slow : list ascii → list ascii) (month : list ascii)
    (isVerbose : bool) : list MonthMessage * bool :=
  if bool_decide (month = []) then
    (if isVerbose then [EmptyMonth] else [], false)
  else if bool_decide (Strings.ToUpper slow month = str "LATEST") then ([], true)
  else if negb (regexp.regexpMonth month) then
    (if isVerbose then [NotValidMonthFormat month] else [], false)
  else ([], true).

(** [isWithMDfileExtension]: [slow] is [strings.ToLower] on an extension
    that is not ASCII. *)
Definition isWithMDfileExtension (slow : list ascii → list ascii)
    (filename : list ascii) : bool :=
  let extension := filepath.Ext filename in
  if bool_decide (Strings.ToLower slow extension = str ".md") then true else false.

(** [writeCSVtoFile]: [log.Fatal] when the file cannot be created. *)
Definition writeCSVtoFile (fs : os.FileSystem) (outputFileName : string)
    (csv_output_slice : list (list (list ascii))) : os.FileSystem * Outcome unit :=
  match os.Create fs outputFileName with
  | None => (fs, Fatal)
  | Some fs =>
    let csv_out := csv.WriteAll [] csv_output_slice in
    (os.write fs outputFileName csv_out, Returns tt)
  end.

(** The error of [get_columnsWidth]:
    [fmt.Errorf("line #%d has %d column while expecting %d \n", ...)]. *)
Inductive error :=
| Errorf_line (line nbr_columns announced_nbr_columns : Z).

(** [for columnNbr, data_cell := range slice_line]. *)
Fixpoint update_widths (columnNbr : nat) (slice_line : list (list ascii))
    (width_slice : list Z) : Outcome (list Z) :=
  match slice_line with
  | [] => Returns width_slice
  | data_cell :: rest =>
    w ← index width_slice columnNbr ;
    let width_slice :=
      if (w <? len data_cell)%Z then <[columnNbr := len data_cell]> width_slice
      else width_slice in
    update_widths (S columnNbr) rest width_slice
  end.

(** [for lineNbr, slice_line := range output_data_slice]. *)
Fixpoint walk_lines (lineNbr : nat) (lines : list (list (list ascii)))
    (announced_nbr_columns : Z) (width_slice : list Z)
    : Outcome (list Z * option error) :=
  match lines with
  | [] => Returns (width_slice, None)
  | slice_line :: rest =>
    let nbr_columns := len slice_line in
    if negb (nbr_columns =? announced_nbr_columns)%Z then
      Returns ([], Some (Errorf_line (Z.of_nat lineNbr + 1) nbr_columns
                                     announced_nbr_columns))
    else
      width_slice ← update_widths 0 slice_line width_slice ;
      walk_lines (S lineNbr) rest announced_nbr_columns width_slice
  end.

(** [get_columnsWidth] returns the pair [(width_slice, err)]; a nil slice
    is the empty list. *)
Definition get_columnsWidth (output_data_slice : list (list (list ascii)))
    : Outcome (list Z * option error) :=
  first_line ← index output_data_slice 0 ;
  let announced_nbr_columns := len first_line in
  let width_slice := replicate (Z.to_nat announced_nbr_columns) 0%Z in
  walk_lines 0 output_data_slice announced_nbr_columns width_slice.

(** The underline of one column. *)
Definition headerUnderline (exact_width width : Z) : Outcome (list ascii) :=
  if (exact_width <=? 0)%Z then Strings.Repeat (str "-") width
  else
    dashes ← Strings.Repeat (str "-") (width - 1) ;
    Returns (dashes ++ str ":").

(** [for columnNbr, data := range dataLine]: the two buffers. *)
Fixpoint format_columns (columnNbr : nat) (dataLine : list (list ascii))
    (width_slice : list Z) (isHeaderUnderline : bool)
    (writeBuffer underlineBuffer : list ascii)
    : Outcome (list ascii * list ascii) :=
  match dataLine with
  | [] => Returns (writeBuffer, underlineBuffer)
  | data :: rest =>
    let atoi_err := (strconv.Atoi data).2 in
    width ← index width_slice columnNbr ;
    let exact_width :=
      match atoi_err with
      | Some _ => (0 - width)%Z   (* not integer -> left align *)
      | None => width             (* integer -> right align *)
      end in
    underlineBuffer ←
      (if isHeaderUnderline then
         underline ← headerUnderline exact_width width ;
         Returns (underlineBuffer ++ str " " ++ underline ++ str " |")
       else Returns underlineBuffer) ;
    let formattedData := fmt.Sprintf_pad exact_width data in
    format_columns (S columnNbr) rest width_slice isHeaderUnderline
      (writeBuffer ++ formattedData ++ str " |") underlineBuffer
  end.

(** [for lineNumber, dataLine := range output_data_slice]: what is written
    to [out]. *)
Fixpoint write_lines (lineNumber : nat) (lines : list (list (list ascii)))
    (width_slice : list Z) (out : list ascii) : Outcome (list ascii) :=
  match lines with
  | [] => Returns out
  | dataLine :: rest =>
    let isHeaderUnderline := lineNumber =? 1 in
    '(writeBuffer, underlineBuffer) ←
      format_columns 0 dataLine width_slice isHeaderUnderline (str "|") (str "|") ;
    let out := if isHeaderUnderline then out ++ underlineBuffer ++ [LF] else out in
    let out := out ++ writeBuffer ++ [LF] in
    write_lines (S lineNumber) rest width_slice out
  end.

(** [writeDataAsMarkdown]: the file is created first; [log.Fatal] on the
    error of [get_columnsWidth] leaves it empty; the buffer reaches the file
    at the final [Flush]. *)
Definition writeDataAsMarkdown (fs : os.FileSystem) (outputFileName : string)
    (output_data_slice : list (list (list ascii))) (introductionText : list ascii)
    : os.FileSystem * Outcome unit :=
  match os.Create fs outputFileName with
  | None => (fs, Fatal)
  | Some fs =>
    match get_columnsWidth output_data_slice with
    | Panics => (fs, Panics)
    | Fatal => (fs, Fatal)
    | Returns (_, Some err) => (fs, Fatal)
    | Returns (width_slice, None) =>
      let out := if (0 <? len introductionText)%Z then introductionText ++ [LF] else [] in
      match write_lines 0 output_data_slice width_slice out with
      | Returns out => (os.write fs outputFileName out, Returns tt)
      | Panics => (fs, Panics)
      | Fatal => (fs, Fatal)
      end
    end
  end.

End cmd.

(** * Definitions used by the statements *)

(** One line of the table raises every width to the length of its cell. *)
Definition raise_widths (ws : list Z) (row : list (list ascii)) : list Z :=
  zip_with Z.max ws (len <$> row).

(** The four-line table of the test [Test_get_columnsWidth]. *)
Definition happy_case : list (list (list ascii)) :=
  map (map str)
    [ ["aaa aaa"; "12"; "ccccccc"];
      ["aaa aaa aa"; "124"; "cccccccccc"];
      ["aaa"; "12"; "cccccccccc"];
      ["aaa"; "1024"; "cccccccccccc"] ]%string.

(** A base-10 integer in text form, as the specification describes a count:
    an optional sign [+] or [-], then one or more decimal digits; its value
    is not bounded. *)
Fixpoint digits_value (s : list ascii) (acc : Z) : option Z :=
  match s with
  | [] => Some acc
  | c :: s' =>
    if is_digit c then digits_value s' (acc * 10 + (byte c - 48)) else None
  end.

Definition base10_integer (s : list ascii) : option Z :=
  match s with
  | [] => None
  | c :: s' =>
    if Ascii.eqb c "+" then
      match s' with [] => None | _ => digits_value s' 0 end
    else if Ascii.eqb c "-" then
      match s' with [] => None | _ => Z.opp <$> digits_value s' 0 end
    else digits_value s 0
  end.

(** The values of a 64-bit [int]. *)
Definition fits_int (v : Z) : Prop := (- 2 ^ 63 ≤ v < 2 ^ 63)%Z.

(** The table held by a file: its records as [ReadAll] returns them when no
    field count is imposed ([FieldsPerRecord] negative); [None] when the
    file is not well-formed CSV. *)
Definition file_table (content : list ascii) : option (list (list (list ascii))) :=
  match csv.ReadAll (csv.mkReader content (-1)) with
  | (records, None, _) => Some records
  | (_, Some _, _) => None
  end.

(** The year-month pattern of the specification: [20YY-MM] with [YY] from
    10 to 29 and [MM] from 01 to 12, and nothing else in the cell. *)
Definition year_month (s : list ascii) : bool :=
  match s with
  | [c1; c2; y1; y2; c3; m1; m2] =>
    Ascii.eqb c1 "2" && Ascii.eqb c2 "0" &&
    is_digit y1 && is_digit y2 && Ascii.eqb c3 "-" &&
    is_digit m1 && is_digit m2 &&
    (let yy := ((byte y1 - 48) * 10 + (byte y2 - 48))%Z in
     (10 <=? yy)%Z && (yy <=? 29)%Z) &&
    (let mm := ((byte m1 - 48) * 10 + (byte m2 - 48))%Z in
     (1 <=? mm)%Z && (mm <=? 12)%Z)
  | _ => false
  end.

(** A submitter identifier of the specification: 1 to 39 characters, each
    a letter, a digit or a hyphen. *)
Definition identifier (s : list ascii) : bool :=
  (1 <=? len s)%Z && (len s <=? 39)%Z &&
  forallb (λ c, is_letter c || is_digit c || Ascii.eqb c "-") s.

(** A header that [checkFile] lets through: an empty first cell, then cells
    in which the pattern [20[0-9]{2}-[0-9]{2}] is found. *)
Definition header_passes (hdr : list (list ascii)) : Prop :=
  ∃ periods, hdr = [] :: periods ∧ Forall (λ s, regexp.month_regexp s = true) periods.

(** A data line that [checkFile] lets through when it looks at it. *)
Definition data_line_ok (row : list (list ascii)) : bool :=
  match row with
  | [] => true
  | id :: counts =>
    (len id <? 40)%Z && (0 <? len id)%Z && regexp.name_exp id &&
    forallb (λ c, bool_decide ((strconv.Atoi c).2 = None)) counts
  end.

(** [checkFile] on a file that holds the table [hdr :: rows]: the calls to
    the reader are replaced by what they return on such a file. *)
Definition checkTable (isVerboseCheck : bool) (fileName : string)
    (hdr : list (list ascii)) (rows : list (list (list ascii)))
    : list cmd.Message * Outcome bool :=
  let verbose (l : list cmd.Message) := if isVerboseCheck then l else [] in
  let out := verbose [cmd.CheckingFileFormat; cmd.NumberOfColumns (len hdr)] in
  match hdr with
  | [] => (out, Panics)
  | column0 :: _ =>
    if negb (bool_decide (column0 = []))
    then (out ++ [cmd.NotExpectedFirstColumnName], Returns false)
    else
      let out := out ++ verbose [cmd.HeaderStartsWithEmptyColumnName] in
      match cmd.check_headings 0 hdr with
      | Some s => (out ++ [cmd.ColumnHeaderNotExpectedFormat s], Returns false)
      | None =>
        let out := out ++ verbose [cmd.HeaderDataColumnFormat] in
        if forallb (λ row, (len row =? len hdr)%Z) rows then
          match cmd.check_records 0 rows with
          | Some m => (out ++ [m], Returns false)
          | None =>
            (out ++ verbose [cmd.ColumnsMatchHeader; cmd.RecordsValid (len rows - 1)]
                 ++ [cmd.SuccessfullyChecked fileName],
             Returns true)
          end
        else
          (out ++ [cmd.UnexpectedErrorLoading fileName (Some csv.ErrFieldCount)],
           Returns false)
      end
  end.

(** An integer of 64 bits: the text of a base-10 integer, with or without
    a sign, whose value is one of a signed 64-bit [int]. *)
Definition is_integer (data : list ascii) : bool :=
  match base10_integer data with
  | Some n => (- 2 ^ 63 <=? n)%Z && (n <? 2 ^ 63)%Z
  | None => false
  end.

(** A data row with the limit of 64 bits on its counts: an identifier,
    then integers of 64 bits. *)
Definition valid_data_row (row : list (list ascii)) : bool :=
  match row with
  | [] => false
  | id :: counts => identifier id && forallb is_integer counts
  end.

(** A data row of the specification: an identifier, then base-10 integers
    of any magnitude. *)
Definition unbounded_data_row (row : list (list ascii)) : bool :=
  match row with
  | [] => false
  | id :: counts =>
    identifier id &&
    forallb (λ c, match base10_integer c with Some _ => true | None => false end) counts
  end.

(** A header that the specification calls malformed. *)
Definition header_malformed (hdr : list (list ascii)) : Prop :=
  (∃ column0, hdr !! 0 = Some column0 ∧ column0 ≠ []) ∨
  (∃ i s, 1 ≤ i ∧ hdr !! i = Some s ∧ year_month s = false).

(** A header that [checkFile] refuses. *)
Definition header_refused (hdr : list (list ascii)) : Prop :=
  (∃ column0, hdr !! 0 = Some column0 ∧ column0 ≠ []) ∨
  (∃ i s, 1 ≤ i ∧ hdr !! i = Some s ∧ regexp.month_regexp s = false).

(** The text of a count, for the specification and for the program. *)
Definition is_base10_integer (cell : list ascii) : Prop :=
  ∃ n, base10_integer cell = Some n.

Definition is_int64_text (cell : list ascii) : Prop :=
  ∃ n, base10_integer cell = Some n ∧ fits_int n.

(** A file system with one file, in which any file can be created, and the
    content of a file given line by line. *)
Definition one_file (name : string) (content : list ascii) : os.FileSystem :=
  os.mkFS {[ name := content ]} (λ _, true).

Definition text (lines : list string) : list ascii :=
  concat (map (λ l, str l ++ [LF]) lines).

(** The Markdown table. A cell that is an integer of 64 bits is
    right-aligned: padded on the left to the width of its column. Any
    other cell is left-aligned: padded on the right, to the width counted
    in runes. *)
Definition right_aligned (w : Z) (data : list ascii) : list ascii :=
  replicate (Z.to_nat (w - len data)) SPACE ++ data.

Definition left_aligned (w : Z) (data : list ascii) : list ascii :=
  data ++ replicate (Z.to_nat (w - utf8.RuneCountInString data)) SPACE.

Definition aligned (w : Z) (data : list ascii) : list ascii :=
  if is_integer data then right_aligned w data else left_aligned w data.

(** The separator of a column: dashes and a final colon under an integer
    of 64 bits, dashes only under any other cell. *)
Definition separator (w : Z) (data : list ascii) : list ascii :=
  if is_integer data then replicate (Z.to_nat (w - 1)) "-"%char ++ [":"%char]
  else replicate (Z.to_nat w) "-"%char.

(** A line of the table: the cells between [|], with one space on each
    side. *)
Definition table_line (cells : list (list ascii)) : list ascii :=
  str "|" ++ concat ((λ cell, str " " ++ cell ++ str " |") <$> cells) ++ [LF].

Definition table_row (ws : list Z) (row : list (list ascii)) : list ascii :=
  table_line (zip_with aligned ws row).

Definition separator_row (ws : list Z) (row : list (list ascii)) : list ascii :=
  table_line (zip_with separator ws row).

(** A cell fits its column, and the column is at most as wide as
    [fmt] accepts a width. *)
Definition fits (w : Z) (data : list ascii) : Prop :=
  (len data ≤ w ≤ 1000000)%Z.

(** A separator row for the widths [ws], whatever the alignments. *)
Definition is_separator_row (ws : list Z) (line : list ascii) : Prop :=
  ∃ row, length row = length ws ∧ line = separator_row ws row.

(** What the reader makes of a field that the writer wrote: every [\r\n]
    of the field has become [\n] (the reader normalizes the end of every
    line it reads, also inside a quoted field). *)
Fixpoint crlf_to_lf (field : list ascii) : list ascii :=
  match field with
  | [] => []
  | c :: rest =>
    match rest with
    | c' :: _ =>
      if Ascii.eqb c CR && Ascii.eqb c' LF then crlf_to_lf rest
      else c :: crlf_to_lf rest
    | [] => [c]
    end
  end.

(** What follows a field in the output of the writer: the line feed that
    ends the record, or a comma and the other fields. [rem] is what the
    reader is to make of these other fields, [more] what follows the
    record. *)
Definition after_field (tail : list ascii) (rem : list (list ascii))
    (more : list ascii) : Prop :=
  (tail = LF :: more ∧ rem = []) ∨
  (∃ raw, tail = COMMA :: raw ∧ LF ∈ raw ∧
     ∀ fields line input fuel,
       csv.readLine raw = (line, None, input) →
       length line + length input < fuel →
       csv.parseField fuel csv.AtField line input fields =
         Some (fields ++ rem, None, more)).

(** The bytes of a table, as [WriteAll] lays them out. *)
Definition written (records : list (list (list ascii))) : list ascii :=
  concat ((λ record, csv.writeFields 0 record ++ [LF]) <$> records).

(** The word [latest], each letter in either case. *)
Definition either_case (upper lower c : ascii) : bool :=
  Ascii.eqb c upper || Ascii.eqb c lower.

Definition latest_any_case (month : list ascii) : bool :=
  match month with
  | [c1; c2; c3; c4; c5; c6] =>
    either_case "L" "l" c1 && either_case "A" "a" c2 && either_case "T" "t" c3 &&
    either_case "E" "e" c4 && either_case "S" "s" c5 && either_case "T" "t" c6
  | _ => false
  end.

(** A text that holds, somewhere, a year and month from 2010-01 to
    2029-12. *)
Definition names_month (month : list ascii) : Prop :=
  ∃ pre ym post, month = pre ++ ym ++ post ∧ year_month ym = true.

(** A file name that ends in [.md], the two letters in either case. *)
Definition md_name (filename : list ascii) : Prop :=
  ∃ stem m d, filename = stem ++ ["."%char; m; d] ∧
    either_case "M" "m" m = true ∧ either_case "D" "d" d = true.

(** The number of runes of a line of the table whose columns have the
    widths [ws], without its line feed: the first [|], then for each
    column a cell of the column's width and three more. *)
Definition line_runes (ws : list Z) : Z :=
  (1 + foldr (λ w n, w + 3 + n) 0 ws)%Z.

(** A line of the table without its line feed. *)
Definition line_text (cells : list (list ascii)) : list ascii :=
  str "|" ++ concat ((λ cell, str " " ++ cell ++ str " |") <$> cells).

(** * Properties *)

(** ** strconv.Atoi *)

Section atoi.

Local Open Scope Z_scope.

Lemma byte_range c : 0 ≤ byte c < 256.
Proof.
  unfold byte. pose proof (N_ascii_bounded c). lia.
Qed.

Lemma is_digit_spec c : is_digit c = true ↔ 48 ≤ byte c ≤ 57.
Proof. unfold is_digit. rewrite andb_true_iff, !Z.leb_le. tauto. Qed.

Lemma digits_value_bounds s : ∀ n v,
  0 ≤ n → digits_value s n = Some v →
  n * 10 ^ Z.of_nat (length s) ≤ v < (n + 1) * 10 ^ Z.of_nat (length s).
Proof.
  induction s as [|c s IH]; intros n v Hn Hv; simpl in Hv.
  - injection Hv as <-. simpl. lia.
  - destruct (is_digit c) eqn:Hc; [|done].
    apply is_digit_spec in Hc.
    apply IH in Hv; [|lia].
    cbn [length]. rewrite Nat2Z.inj_succ, Z.pow_succ_r by lia.
    assert (0 < 10 ^ Z.of_nat (length s)) by (apply Z.pow_pos_nonneg; lia).
    nia.
Qed.

Lemma digits_value_ge s n v : 0 ≤ n → digits_value s n = Some v → n ≤ v.
Proof.
  intros Hn Hv. pose proof (digits_value_bounds s n v Hn Hv) as [Hlo _].
  assert (0 < 10 ^ Z.of_nat (length s)) by (apply Z.pow_pos_nonneg; lia).
  nia.
Qed.

(** The fast path: no wrap-around can happen on at most 18 digits. *)
Lemma atoi_digits_spec s : ∀ n,
  0 ≤ n → (n + 1) * 10 ^ Z.of_nat (length s) ≤ 2 ^ 63 →
  strconv.atoi_digits s n = digits_value s n.
Proof.
  induction s as [|c s IH]; intros n Hn Hb; [done|].
  cbn [strconv.atoi_digits digits_value].
  cbn [length] in Hb. rewrite Nat2Z.inj_succ, Z.pow_succ_r in Hb by lia.
  assert (Hp : 0 < 10 ^ Z.of_nat (length s)) by (apply Z.pow_pos_nonneg; lia).
  pose proof (byte_range c) as Hc. unfold strconv.wrap_byte.
  destruct (is_digit c) eqn:Hd.
  - apply is_digit_spec in Hd.
    rewrite (Z.mod_small (byte c - 48)) by lia.
    destruct (Z.ltb_spec 9 (byte c - 48)) as [?|_]; [lia|].
    assert (Hw : strconv.wrap_int (n * 10 + (byte c - 48)) = n * 10 + (byte c - 48)).
    { unfold strconv.wrap_int. rewrite Z.mod_small; [lia|]. nia. }
    rewrite Hw. apply IH; [lia|nia].
  - assert (Hnd : ¬ (48 ≤ byte c ≤ 57)).
    { intros H. apply is_digit_spec in H. congruence. }
    destruct (Z.ltb_spec 9 ((byte c - 48) mod 256)) as [_|Hle]; [done|].
    exfalso. apply Hnd. clear -Hle Hc. Z.div_mod_to_equations. lia.
Qed.

Lemma parseUint_loop_spec s : ∀ n,
  0 ≤ n ≤ strconv.maxUint64 →
  match strconv.parseUint_loop s n with
  | (v, None) => digits_value s n = Some v ∧ 0 ≤ v ≤ strconv.maxUint64
  | (_, Some strconv.ErrSyntax) => digits_value s n = None
  | (v, Some strconv.ErrRange) =>
    v = strconv.maxUint64 ∧ ∀ w, digits_value s n = Some w → strconv.maxUint64 < w
  end.
Proof.
  change strconv.maxUint64 with 18446744073709551615.
  induction s as [|c s IH]; intros n Hn; [done|].
  cbn [strconv.parseUint_loop digits_value].
  pose proof (byte_range c) as Hc.
  unfold is_digit.
  destruct (Z.leb_spec 48 (byte c)) as [H48|H48];
    destruct (Z.leb_spec (byte c) 57) as [H57|H57]; cbn [andb].
  1: { destruct (Z.leb_spec 10 (byte c - 48)) as [?|_]; [lia|].
    change strconv.cutoff10 with 1844674407370955162.
    change strconv.maxUint64 with 18446744073709551615.
    destruct (Z.leb_spec 1844674407370955162 n) as [Hcut|Hcut].
    { split; [done|]. intros w Hw. apply digits_value_ge in Hw; lia. }
    unfold strconv.wrap_uint64. rewrite (Z.mod_small (n * 10)) by lia.
    destruct (Z.le_gt_cases (n * 10 + (byte c - 48)) 18446744073709551615) as [Hfit|Hover].
    - rewrite Z.mod_small by lia.
      destruct (Z.ltb_spec (n * 10 + (byte c - 48)) (n * 10)) as [?|_]; [lia|].
      destruct (Z.ltb_spec 18446744073709551615 (n * 10 + (byte c - 48))) as [?|_]; [lia|].
      cbn [orb]. apply IH. lia.
    - destruct (Z.ltb_spec ((n * 10 + (byte c - 48)) mod 2 ^ 64) (n * 10)) as [_|Hge].
      + cbn [orb]. split; [done|]. intros w Hw. apply digits_value_ge in Hw; lia.
      + exfalso. clear -Hge Hover Hcut Hn H48 H57. Z.div_mod_to_equations. lia. }
  all: destruct (Z.leb_spec 97 (strconv.lower (byte c))) as [Hl|_]; cbn [andb]; [|done].
  all: destruct (_ <=? 122); [|done].
  all: destruct (Z.leb_spec 10 (strconv.lower (byte c) - 97 + 10)) as [_|?]; [done|lia].
Qed.

Lemma ParseInt_spec s :
  match strconv.ParseInt s with
  | (v, None) => base10_integer s = Some v ∧ fits_int v
  | (_, Some _) => ∀ v, base10_integer s = Some v → ¬ fits_int v
  end.
Proof.
  unfold fits_int. destruct s as [|c0 s1]; [done|].
  unfold strconv.ParseInt, base10_integer.
  change (2 ^ (strconv.intSize - 1)) with 9223372036854775808.
  assert (Hloop : ∀ s' neg, s' ≠ [] →
    match
      (match strconv.ParseUint s' with
       | (_, Some strconv.ErrSyntax) => (0, Some strconv.ErrSyntax)
       | (un, _) =>
         if negb neg && (9223372036854775808 <=? un)
         then (9223372036854775808 - 1, Some strconv.ErrRange)
         else if neg && (9223372036854775808 <? un)
              then (- 9223372036854775808, Some strconv.ErrRange)
              else (strconv.wrap_int (if neg then - un else un), None)
       end)
    with
    | (v, None) =>
      (if neg then Z.opp <$> digits_value s' 0 else digits_value s' 0) = Some v ∧
      - 2 ^ 63 ≤ v < 2 ^ 63
    | (_, Some _) =>
      ∀ v, (if neg then Z.opp <$> digits_value s' 0 else digits_value s' 0) = Some v →
           ¬ (- 2 ^ 63 ≤ v < 2 ^ 63)
    end).
  { intros s' neg Hne. unfold strconv.ParseUint.
    destruct s' as [|c s']; [done|clear Hne].
    pose proof (parseUint_loop_spec (c :: s') 0) as Hspec.
    change strconv.maxUint64 with 18446744073709551615 in Hspec.
    destruct (strconv.parseUint_loop (c :: s') 0) as [un [[]|]].
    - rewrite Hspec by lia. intros v. by destruct neg.
    - destruct Hspec as [-> Hspec]; [lia|].
      destruct (digits_value (c :: s') 0) as [w|] eqn:Hw.
      + specialize (Hspec w eq_refl). destruct neg; cbn; intros v [= <-]; lia.
      + by destruct neg.
    - destruct Hspec as [Hv Hun]; [lia|]. rewrite Hv.
      destruct neg; cbn [negb andb fmap option_fmap option_map].
      + destruct (Z.ltb_spec 9223372036854775808 un).
        * intros v [= <-]. lia.
        * unfold strconv.wrap_int. rewrite Z.mod_small by lia.
          split; [f_equal; lia|lia].
      + destruct (Z.leb_spec 9223372036854775808 un).
        * intros v [= <-]. lia.
        * unfold strconv.wrap_int. rewrite Z.mod_small by lia.
          split; [f_equal; lia|lia]. }
  destruct (Ascii.eqb_spec c0 "+") as [->|Hplus].
  { destruct s1 as [|c1 s1]; [done|]. by apply (Hloop (c1 :: s1) false). }
  destruct (Ascii.eqb_spec c0 "-") as [->|Hminus].
  { destruct s1 as [|c1 s1]; [done|]. by apply (Hloop (c1 :: s1) true). }
  by apply (Hloop (c0 :: s1) false).
Qed.

(** [Atoi] succeeds exactly on the text of a base-10 integer that fits a
    64-bit [int], and returns its value. *)
Lemma Atoi_spec s :
  match strconv.Atoi s with
  | (v, None) => base10_integer s = Some v ∧ fits_int v
  | (_, Some _) => ∀ v, base10_integer s = Some v → ¬ fits_int v
  end.
Proof.
  unfold strconv.Atoi.
  destruct (Z.ltb_spec 0 (len s)) as [Hpos|Hpos]; cbn [andb]; [|apply ParseInt_spec].
  destruct (Z.ltb_spec (len s) 19) as [Hlt|Hlt]; [|apply ParseInt_spec].
  destruct s as [|c0 s1]; [done|].
  unfold len in Hlt, Hpos. cbn [length] in Hlt.
  unfold base10_integer, fits_int.
  assert (Hfast : ∀ s', (length s' ≤ 18)%nat →
    strconv.atoi_digits s' 0 = digits_value s' 0 ∧
    ∀ n, digits_value s' 0 = Some n → 0 ≤ n < 10 ^ 18).
  { intros s' Hs'.
    assert (10 ^ Z.of_nat (length s') ≤ 10 ^ 18) by (apply Z.pow_le_mono_r; lia).
    split.
    - apply atoi_digits_spec; lia.
    - intros n Hn. apply digits_value_bounds in Hn; lia. }
  destruct (Ascii.eqb_spec c0 "-") as [->|Hminus]; cbn [orb andb].
  { destruct s1 as [|c1 s1]; [done|].
    destruct (Z.ltb_spec (len (c1 :: s1)) 1) as [Hl|_];
      [unfold len in Hl; cbn [length] in Hl; lia|].
    destruct (Hfast (c1 :: s1)) as [-> Hb]; [lia|].
    change (Ascii.eqb "-" "+") with false. cbn iota.
    destruct (digits_value (c1 :: s1) 0) as [n|]; [|done].
    specialize (Hb n eq_refl). cbn.
    unfold strconv.wrap_int. rewrite Z.mod_small by lia. split; [f_equal; lia|lia]. }
  destruct (Ascii.eqb_spec c0 "+") as [->|Hplus]; cbn [orb andb].
  { destruct s1 as [|c1 s1]; [done|].
    destruct (Z.ltb_spec (len (c1 :: s1)) 1) as [Hl|_];
      [unfold len in Hl; cbn [length] in Hl; lia|].
    destruct (Hfast (c1 :: s1)) as [-> Hb]; [lia|].
    destruct (digits_value (c1 :: s1) 0) as [n|]; [|done].
    specialize (Hb n eq_refl). split; [done|lia]. }
  destruct (Hfast (c0 :: s1)) as [-> Hb]; [simpl; lia|].
  destruct (digits_value (c0 :: s1) 0) as [n|]; [|done].
  specialize (Hb n eq_refl). split; [done|lia].
Qed.

Lemma Atoi_ok_iff s :
  (strconv.Atoi s).2 = None ↔ ∃ v, base10_integer s = Some v ∧ fits_int v.
Proof.
  pose proof (Atoi_spec s) as H. destruct (strconv.Atoi s) as [v [e|]]; simpl.
  - split; [done|]. intros (w & Hw & Hfit). by destruct (H w Hw).
  - split; [|done]. intros _. by exists v.
Qed.

Lemma is_integer_spec data : is_integer data = true ↔ is_int64_text data.
Proof.
  unfold is_integer, is_int64_text, fits_int.
  destruct (base10_integer data) as [n|].
  - rewrite andb_true_iff, Z.leb_le, Z.ltb_lt. split.
    + intros H. by exists n.
    + by intros (m & [= <-] & H).
  - split; [done|]. by intros (m & ? & _).
Qed.

(** The test of the program for an integer, [strconv.Atoi] without
    error, is the test for an integer of 64 bits. *)
Lemma is_integer_Atoi data :
  is_integer data = bool_decide ((strconv.Atoi data).2 = None).
Proof.
  apply eq_true_iff_eq. rewrite is_integer_spec, bool_decide_eq_true.
  symmetry. apply Atoi_ok_iff.
Qed.

Lemma forallb_is_integer counts :
  forallb is_integer counts =
    forallb (λ c, bool_decide ((strconv.Atoi c).2 = None)) counts.
Proof.
  induction counts as [|c counts IH]; [done|].
  cbn [forallb]. by rewrite is_integer_Atoi, IH.
Qed.

End atoi.


(** ** encoding/csv: the reader consumes its input *)

Section csv_reader.

Implicit Types (input line rest : list ascii) (fields dst : list (list ascii)).

Lemma ReadSlice_app input : ∀ line found rest,
  csv.ReadSlice input = (line, found, rest) →
  input = line ++ rest ∧ (input ≠ [] → line ≠ []) ∧ (found = false → rest = []).
Proof.
  induction input as [|c input IH]; intros line found rest H; simpl in H.
  - by simplify_eq.
  - destruct (Ascii.eqb c LF); [by simplify_eq|].
    destruct (csv.ReadSlice input) as [[l f] r]. simplify_eq.
    destruct (IH l found rest eq_refl) as (-> & _ & Hr). by split_and!.
Qed.

Lemma length_dropTrailingCR line : length (csv.dropTrailingCR line) ≤ length line.
Proof.
  induction line as [|c line IH]; [done|]. simpl.
  destruct line; [destruct (Ascii.eqb c CR); simpl; lia|]. simpl in *. lia.
Qed.

Lemma length_normalizeCRLF line : length (csv.normalizeCRLF line) ≤ length line.
Proof.
  induction line as [|c line IH]; [done|]. cbn [csv.normalizeCRLF].
  destruct line as [|c' [|c'' line]]; [done| |cbn [length] in *; lia].
  destruct (_ && _); simpl; lia.
Qed.

Lemma readLine_nil : csv.readLine [] = ([], Some csv.EOF, []).
Proof. done. Qed.

Lemma readLine_length input line err rest :
  csv.readLine input = (line, err, rest) →
  length line + length rest ≤ length input ∧
  (input ≠ [] → err = None ∧ length rest < length input).
Proof.
  unfold csv.readLine. intros H.
  destruct (csv.ReadSlice input) as [[l f] r] eqn:Hslice.
  apply ReadSlice_app in Hslice as (-> & Hne & Hr).
  rewrite length_app.
  pose proof (length_dropTrailingCR l). pose proof (length_normalizeCRLF l).
  pose proof (length_normalizeCRLF (csv.dropTrailingCR l)).
  assert (Hl : l ++ r ≠ [] → 0 < length l).
  { intros Hin. specialize (Hne Hin). destruct l; [done|simpl; lia]. }
  destruct f; cbn in H.
  - rewrite andb_false_r in H. simplify_eq. split; [lia|]. intros Hin.
    split; [done|]. specialize (Hl Hin). lia.
  - rewrite andb_true_r in H. unfold len in H.
    destruct (Z.ltb_spec 0 (Z.of_nat (length l))) as [Hpos|Hpos]; simplify_eq.
    + split; [lia|]. intros _. split; [done|lia].
    + split; [lia|]. intros Hin. specialize (Hl Hin). lia.
Qed.

Lemma nextLine_spec fuel : ∀ input,
  length input ≤ fuel →
  match csv.nextLine fuel input with
  | (_, Some e, rest) => e = csv.EOF ∧ length rest ≤ length input
  | (line, None, rest) =>
    len line ≠ csv.lengthNL line ∧
    length line + length rest ≤ length input ∧ length rest < length input
  end.
Proof.
  induction fuel as [|fuel IH]; intros input Hfuel.
  - destruct input; [done|simpl in Hfuel; lia].
  - cbn [csv.nextLine].
    destruct (csv.readLine input) as [[line err] rest] eqn:Hline.
    pose proof (readLine_length _ _ _ _ Hline) as [Hlen Hne].
    destruct input as [|c input].
    { rewrite readLine_nil in Hline. by simplify_eq. }
    destruct Hne as [-> Hlt]; [done|].
    rewrite bool_decide_eq_true_2 by done. cbn [andb].
    destruct (Z.eqb_spec (len line) (csv.lengthNL line)) as [Heq|Hneq]; [|done].
    specialize (IH rest). cbn [length] in *.
    destruct (csv.nextLine fuel rest) as [[l [e|]] r].
    + destruct IH as [? ?]; [lia|]. split; [done|lia].
    + destruct IH as (? & ? & ?); [lia|]. split_and!; [done|lia|lia].
Qed.

Lemma cut_length c line before after :
  csv.cut c line = Some (before, after) →
  length line = S (length before + length after).
Proof.
  revert before. induction line as [|x line IH]; intros before H; [done|].
  simpl in H. destruct (Ascii.eqb x c); [by simplify_eq|].
  destruct (csv.cut c line) as [[b a]|]; [|done]. simplify_eq.
  simpl. by rewrite (IH b).
Qed.

(** What is left of the file after the fields of a record is not longer
    than before. *)
Lemma parseField_rest fuel : ∀ mode line input fields dst err rest,
  csv.parseField fuel mode line input fields = Some (dst, err, rest) →
  length rest ≤ length input.
Proof.
  induction fuel as [|fuel IH]; intros mode line input fields dst err rest H; [done|].
  cbn [csv.parseField] in H.
  repeat case_match; simplify_eq; try lia; try (by eapply IH).
  match goal with Hr : csv.readLine _ = _ |- _ =>
    apply readLine_length in Hr as [? _] end.
  apply IH in H. lia.
Qed.

(** The fuel given by [parseRecord] is enough. *)
Lemma parseField_fuel fuel : ∀ mode line input fields,
  length line + length input < fuel →
  is_Some (csv.parseField fuel mode line input fields).
Proof.
  induction fuel as [|fuel IH]; intros mode line input fields Hfuel; [lia|].
  cbn [csv.parseField].
  repeat case_match; simplify_eq; try done;
    repeat match goal with
    | Hc : csv.cut _ _ = Some _ |- _ => apply cut_length in Hc
    | Hr : csv.readLine _ = _ |- _ => apply readLine_length in Hr as [? _]
    end; cbn [length] in *; apply IH; lia.
Qed.

(** A record read without error has at least one field. *)
Lemma parseField_more fuel : ∀ mode line input fields dst rest,
  csv.parseField fuel mode line input fields = Some (dst, None, rest) →
  length fields < length dst.
Proof.
  induction fuel as [|fuel IH]; intros mode line input fields dst rest H; [done|].
  cbn [csv.parseField] in H.
  repeat case_match; simplify_eq; try (rewrite length_app; simpl; lia);
    apply IH in H; try rewrite length_app in H; simpl in H; lia.
Qed.

Lemma parseRecord_spec input dst err rest :
  csv.parseRecord input = (dst, err, rest) →
  length rest ≤ length input ∧
  (err ≠ Some csv.EOF → length rest < length input) ∧
  (err = None → dst ≠ []).
Proof.
  unfold csv.parseRecord. intros H.
  pose proof (nextLine_spec (length input) input (le_n _)) as Hnext.
  destruct (csv.nextLine (length input) input) as [[line [e|]] input'].
  - destruct Hnext as [-> Hle]. simplify_eq. by split_and!.
  - destruct Hnext as (_ & Hlen & Hlt).
    destruct (parseField_fuel (S (length line + length input')) csv.AtField
                line input' []) as [[[d e] r] Hres]; [lia|].
    rewrite Hres in H. simplify_eq.
    pose proof (parseField_rest _ _ _ _ _ _ _ _ Hres).
    split_and!; [lia|lia|].
    intros ->. apply parseField_more in Hres. destruct dst; [simpl in Hres; lia|done].
Qed.

Lemma readRecord_spec r dst err r' :
  csv.readRecord r = (dst, err, r') →
  length (csv.r_input r') ≤ length (csv.r_input r) ∧
  (err ≠ Some csv.EOF → length (csv.r_input r') < length (csv.r_input r)).
Proof.
  unfold csv.readRecord. intros H.
  destruct (csv.parseRecord (csv.r_input r)) as [[d e] input'] eqn:Hparse.
  apply parseRecord_spec in Hparse as (Hle & Hlt & _).
  case_bool_decide as He; [by simplify_eq|].
  specialize (Hlt He).
  repeat case_match; simplify_eq; simpl; split; lia.
Qed.

(** The records the loop of [ReadAll] starts from are only carried along,
    and the loop does not depend on its fuel. *)
Lemma ReadAll_loop_acc fuel : ∀ r acc,
  csv.ReadAll_loop fuel r acc =
    let '(recs, err, r') := csv.ReadAll_loop fuel r [] in
    (match err with None => acc ++ recs | Some _ => [] end, err, r').
Proof.
  induction fuel as [|fuel IH]; intros r acc.
  - simpl. by rewrite app_nil_r.
  - cbn [csv.ReadAll_loop].
    destruct (csv.readRecord r) as [[record err] r1].
    destruct err as [e|].
    + destruct e; by rewrite ?app_nil_r.
    + rewrite (IH r1 (acc ++ [record])), (IH r1 ([] ++ [record])).
      destruct (csv.ReadAll_loop fuel r1 []) as [[recs [e|]] r2]; [done|].
      by rewrite <- app_assoc.
Qed.

Lemma ReadAll_loop_fuel fuel : ∀ r fuel',
  length (csv.r_input r) < fuel → length (csv.r_input r) < fuel' →
  csv.ReadAll_loop fuel r [] = csv.ReadAll_loop fuel' r [].
Proof.
  induction fuel as [|fuel IH]; intros r fuel' Hf Hf'; [lia|].
  destruct fuel' as [|fuel']; [lia|].
  cbn [csv.ReadAll_loop].
  destruct (csv.readRecord r) as [[record err] r1] eqn:Hrec.
  apply readRecord_spec in Hrec as [_ Hlt].
  destruct err as [e|]; [done|].
  assert (length (csv.r_input r1) < length (csv.r_input r)) by by apply Hlt.
  rewrite (ReadAll_loop_acc fuel), (ReadAll_loop_acc fuel').
  by rewrite (IH r1 fuel') by lia.
Qed.

Lemma ReadAll_unfold r :
  csv.ReadAll r =
    let '(record, err, r1) := csv.readRecord r in
    match err with
    | Some csv.EOF => ([], None, r1)
    | Some e => ([], Some e, r1)
    | None =>
      let '(recs, err', r2) := csv.ReadAll r1 in
      (match err' with None => record :: recs | Some _ => [] end, err', r2)
    end.
Proof.
  unfold csv.ReadAll at 1. cbn [csv.ReadAll_loop].
  destruct (csv.readRecord r) as [[record err] r1] eqn:Hrec.
  apply readRecord_spec in Hrec as [_ Hlt].
  destruct err as [e|]; [done|].
  assert (length (csv.r_input r1) < length (csv.r_input r)) by by apply Hlt.
  unfold csv.ReadAll. rewrite ReadAll_loop_acc.
  by rewrite (ReadAll_loop_fuel _ r1 (S (length (csv.r_input r1)))) by lia.
Qed.

Lemma readRecord_unbounded input k :
  (k < 0)%Z →
  csv.readRecord (csv.mkReader input k) =
    let '(dst, err, rest) := csv.parseRecord input in
    (if bool_decide (err = Some csv.EOF) then [] else dst, err, csv.mkReader rest k).
Proof.
  intros Hk. unfold csv.readRecord. cbn [csv.r_input csv.FieldsPerRecord].
  destruct (csv.parseRecord input) as [[dst err] rest].
  case_bool_decide; [by simplify_eq|].
  destruct (Z.ltb_spec 0 k); [lia|]. destruct (Z.eqb_spec k 0); [lia|done].
Qed.

(** The first record of a table and the table of what follows. *)
Lemma file_table_cons input record records :
  file_table input = Some (record :: records) →
  ∃ rest, csv.parseRecord input = (record, None, rest) ∧
          file_table rest = Some records.
Proof.
  unfold file_table. rewrite ReadAll_unfold, readRecord_unbounded by lia.
  destruct (csv.parseRecord input) as [[dst err] rest].
  destruct err as [e|]; [destruct e; cbn; congruence|].
  rewrite bool_decide_eq_false_2 by done.
  destruct (csv.ReadAll (csv.mkReader rest (-1))) as [[recs [e|]] r2] eqn:Hall; [done|].
  intros [= -> ->]. exists rest. by rewrite Hall.
Qed.

Lemma file_table_nil input :
  file_table input = Some [] →
  ∃ dst rest, csv.parseRecord input = (dst, Some csv.EOF, rest).
Proof.
  unfold file_table. rewrite ReadAll_unfold, readRecord_unbounded by lia.
  destruct (csv.parseRecord input) as [[dst err] rest].
  destruct err as [e|].
  - destruct e; cbn; try congruence. by eauto.
  - rewrite bool_decide_eq_false_2 by done.
    by destruct (csv.ReadAll (csv.mkReader rest (-1))) as [[recs [e|]] r2].
Qed.

(** With a positive [FieldsPerRecord], [ReadAll] returns the table when
    every record has that many fields, and [ErrFieldCount] otherwise. *)
Lemma ReadAll_counted k records : ∀ input,
  (0 < k)%Z →
  file_table input = Some records →
  (csv.ReadAll (csv.mkReader input k)).1 =
    if forallb (λ record, (len record =? k)%Z) records
    then (records, None) else ([], Some csv.ErrFieldCount).
Proof.
  induction records as [|record records IH]; intros input Hk Htable.
  - apply file_table_nil in Htable as (dst & rest & Hparse).
    rewrite ReadAll_unfold. unfold csv.readRecord. cbn [csv.r_input].
    rewrite Hparse. by rewrite bool_decide_eq_true_2.
  - apply file_table_cons in Htable as (rest & Hparse & Htable).
    rewrite ReadAll_unfold. unfold csv.readRecord.
    cbn [csv.r_input csv.FieldsPerRecord]. rewrite Hparse.
    rewrite bool_decide_eq_false_2 by done.
    destruct (Z.ltb_spec 0 k); [|lia].
    rewrite bool_decide_eq_true_2 by done. rewrite andb_true_r.
    cbn [forallb].
    destruct (len record =? k)%Z; cbn [negb andb]; [|done].
    specialize (IH rest Hk Htable).
    destruct (csv.ReadAll (csv.mkReader rest k)) as [[recs err] r2].
    simpl in IH. destruct (forallb _ records); by simplify_eq.
Qed.

End csv_reader.

(** ** checkFile *)

Section check_file.

Implicit Types (hdr row : list (list ascii)) (rows : list (list (list ascii))).

Lemma checkFile_table v fs fileName content hdr rows :
  os.Open fs fileName = Some content →
  file_table content = Some (hdr :: rows) →
  cmd.checkFile v fs fileName = checkTable v fileName hdr rows.
Proof.
  intros Hopen Htable.
  apply file_table_cons in Htable as (rest & Hparse & Htable).
  pose proof (parseRecord_spec _ _ _ _ Hparse) as (_ & _ & Hne).
  specialize (Hne eq_refl).
  unfold cmd.checkFile, checkTable. rewrite Hopen.
  unfold csv.Read, csv.NewReader, csv.readRecord.
  cbn [csv.r_input csv.FieldsPerRecord]. rewrite Hparse.
  rewrite bool_decide_eq_false_2 by done. cbn [Z.ltb Z.eqb Z.compare].
  destruct hdr as [|column0 periods]; [done|].
  destruct (negb (bool_decide (column0 = []))); [done|].
  destruct (cmd.check_headings 0 (column0 :: periods)); [done|].
  pose proof (ReadAll_counted (len (column0 :: periods)) rows rest) as Hall.
  destruct (csv.ReadAll _) as [[records err] r2]. simpl in Hall.
  specialize (Hall ltac:(unfold len; simpl; lia) Htable).
  destruct (forallb _ rows); by simplify_eq.
Qed.

Lemma check_headings_spec periods : ∀ i,
  match cmd.check_headings (S i) periods with
  | None => Forall (λ s, regexp.month_regexp s = true) periods
  | Some s => s ∈ periods ∧ regexp.month_regexp s = false
  end.
Proof.
  induction periods as [|s periods IH]; intros i; [by constructor|].
  cbn [cmd.check_headings Nat.eqb negb andb].
  destruct (regexp.month_regexp s) eqn:Hs; cbn [negb].
  - specialize (IH (S i)). destruct (cmd.check_headings _ periods).
    + destruct IH. split; [by right|done].
    + by constructor.
  - split; [by left|done].
Qed.

Lemma header_passes_spec hdr :
  header_passes hdr ↔
  ∃ periods, hdr = [] :: periods ∧ cmd.check_headings 0 hdr = None.
Proof.
  split; intros (periods & -> & H); exists periods; (split; [done|]).
  - cbn [cmd.check_headings Nat.eqb negb andb].
    pose proof (check_headings_spec periods 0) as Hspec.
    destruct (cmd.check_headings 1 periods) as [s|]; [|done].
    destruct Hspec as [Hin Hs]. rewrite Forall_forall in H.
    rewrite (H s Hin) in Hs. done.
  - cbn [cmd.check_headings Nat.eqb negb andb] in H.
    pose proof (check_headings_spec periods 0) as Hspec. by rewrite H in Hspec.
Qed.

Lemma check_counts_spec counts : ∀ i ii,
  cmd.check_dataLine i (S ii) counts = None ↔
  forallb (λ c, bool_decide ((strconv.Atoi c).2 = None)) counts = true.
Proof.
  induction counts as [|c counts IH]; intros i ii; [done|].
  cbn [cmd.check_dataLine Nat.eqb forallb].
  destruct ((strconv.Atoi c).2) eqn:Hc.
  - rewrite bool_decide_eq_false_2 by done. done.
  - rewrite bool_decide_eq_true_2 by done. apply IH.
Qed.

Lemma check_dataLine_spec row i :
  cmd.check_dataLine i 0 row = None ↔ data_line_ok row = true.
Proof.
  destruct row as [|id counts]; [done|].
  cbn [cmd.check_dataLine Nat.eqb data_line_ok].
  destruct (_ && _ && regexp.name_exp id); cbn [negb andb]; [|done].
  apply check_counts_spec.
Qed.

Lemma check_records_spec rows : ∀ i,
  cmd.check_records (S i) rows = None ↔ forallb data_line_ok rows = true.
Proof.
  induction rows as [|row rows IH]; intros i; [done|].
  cbn [cmd.check_records Nat.eqb forallb].
  pose proof (check_dataLine_spec row (S i)) as Hrow.
  destruct (cmd.check_dataLine (S i) 0 row).
  - destruct (data_line_ok row); [|done]. by destruct Hrow as [_ Hrow]; specialize (Hrow eq_refl).
  - destruct Hrow as [Hrow _]. rewrite (Hrow eq_refl). apply IH.
Qed.

(** The first record that [ReadAll] returns is never looked at. *)
Lemma check_records_tail rows :
  cmd.check_records 0 rows = None ↔ forallb data_line_ok (tail rows) = true.
Proof.
  destruct rows as [|first rows]; [done|]. apply check_records_spec.
Qed.

(** When does [checkFile] return [true] on a table. *)
Lemma checkTable_true v fileName hdr rows :
  (checkTable v fileName hdr rows).2 = Returns true ↔
  header_passes hdr ∧ Forall (λ row, length row = length hdr) rows ∧
  forallb data_line_ok (tail rows) = true.
Proof.
  unfold checkTable.
  destruct hdr as [|column0 periods].
  { split; [done|]. by intros [(? & ? & _) _]. }
  rewrite header_passes_spec.
  case_bool_decide as H0; cbn [negb].
  2: { split; [done|]. intros [(? & ? & _) _]. by simplify_eq. }
  subst column0.
  destruct (cmd.check_headings 0 ([] :: periods)) eqn:Hhead.
  { split; [done|]. by intros [(? & ? & ?) _]. }
  destruct (forallb (λ row, (len row =? len ([] :: periods))%Z) rows) eqn:Hcount.
  - rewrite forallb_forall in Hcount.
    assert (Hlen : Forall (λ row, length row = length ([] :: periods)) rows).
    { apply Forall_forall. intros row Hin.
      apply list_elem_of_In, Hcount, Z.eqb_eq in Hin. unfold len in Hin. lia. }
    rewrite <- check_records_tail.
    destruct (cmd.check_records 0 rows).
    + split; [done|]. by intros (_ & _ & ?).
    + split; [|done]. intros _. split_and!; [by exists periods|done|done].
  - split; [done|]. intros (_ & Hlen & _). exfalso.
    apply not_true_iff_false in Hcount. apply Hcount.
    apply forallb_forall. intros row Hin.
    apply list_elem_of_In in Hin. rewrite Forall_forall in Hlen.
    apply Z.eqb_eq. unfold len. by rewrite (Hlen row Hin).
Qed.

(** On a table [checkFile] returns, [true] or [false]. *)
Lemma checkTable_returns v fileName hdr rows :
  hdr ≠ [] → ∃ b, (checkTable v fileName hdr rows).2 = Returns b.
Proof.
  intros Hne. unfold checkTable. destruct hdr; [done|].
  repeat case_match; by eauto.
Qed.

Lemma year_month_regexp s : year_month s = true → regexp.month_regexp s = true.
Proof.
  unfold year_month. intros H.
  destruct s as [|c1 [|c2 [|y1 [|y2 [|c3 [|m1 [|m2 [|]]]]]]]]; try done.
  repeat (apply andb_prop in H as [H ?]).
  cbn [regexp.month_regexp regexp.month_here]. apply orb_true_iff. left.
  by repeat match goal with Hb : _ = true |- _ => rewrite Hb; clear Hb end.
Qed.

(** The pattern of [checkFile] is found in [s] exactly when [s] holds,
    somewhere, [20], two digits, a hyphen and two digits. *)
Lemma month_regexp_spec s :
  regexp.month_regexp s = true ↔
  ∃ pre d1 d2 d3 d4 post,
    s = pre ++ str "20" ++ [d1; d2] ++ str "-" ++ [d3; d4] ++ post ∧
    is_digit d1 = true ∧ is_digit d2 = true ∧ is_digit d3 = true ∧ is_digit d4 = true.
Proof.
  split.
  - induction s as [|c s IH]; [done|].
    cbn [regexp.month_regexp]. intros [H|H]%orb_true_iff.
    + unfold regexp.month_here in H.
      destruct s as [|c2 [|d1 [|d2 [|c3 [|d3 [|d4 post]]]]]]; try done.
      repeat (apply andb_prop in H as [H ?]).
      repeat match goal with
             | Hc : Ascii.eqb _ _ = true |- _ => apply Ascii.eqb_eq in Hc; subst
             end.
      by exists [], d1, d2, d3, d4, post.
    + destruct (IH H) as (pre & d1 & d2 & d3 & d4 & post & -> & ?).
      by exists (c :: pre), d1, d2, d3, d4, post.
  - intros (pre & d1 & d2 & d3 & d4 & post & -> & H1 & H2 & H3 & H4).
    induction pre as [|c pre IH].
    + cbn. by rewrite H1, H2, H3, H4.
    + cbn [app regexp.month_regexp]. apply orb_true_iff. by right.
Qed.

Lemma identifier_spec id :
  identifier id = ((len id <? 40)%Z && (0 <? len id)%Z && regexp.name_exp id).
Proof.
  unfold identifier, regexp.name_exp, len.
  destruct id as [|c id]; [done|]. unfold regexp.name_class.
  destruct (forallb _ (c :: id)); [|by rewrite !andb_false_r].
  rewrite !andb_true_r.
  destruct (Z.leb_spec 1 (Z.of_nat (length (c :: id))));
    destruct (Z.leb_spec (Z.of_nat (length (c :: id))) 39);
    destruct (Z.ltb_spec (Z.of_nat (length (c :: id))) 40);
    destruct (Z.ltb_spec 0 (Z.of_nat (length (c :: id)))); simpl in *; try done; lia.
Qed.

Lemma valid_data_row_ok row : valid_data_row row = true → data_line_ok row = true.
Proof.
  destruct row as [|id counts]; [done|]. simpl.
  by rewrite identifier_spec, forallb_is_integer.
Qed.

Lemma header_refused_spec hdr :
  hdr ≠ [] → header_refused hdr ↔ ¬ header_passes hdr.
Proof.
  intros Hne. destruct hdr as [|column0 periods]; [done|]. split.
  - intros Href (periods' & Heq & Hall). simplify_eq.
    destruct Href as [(c & Hc & Hcne)|(i & s & Hi & His & Hs)].
    + simpl in Hc. by simplify_eq.
    + destruct i as [|i]; [lia|]. simpl in His. rewrite Forall_forall in Hall.
      rewrite (Hall s) in Hs; [done|]. by eapply list_elem_of_lookup_2.
  - intros Hnot. destruct (decide (column0 = [])) as [->|Hc0].
    + right.
      destruct (decide (Forall (λ s, regexp.month_regexp s = true) periods)) as [Hall|Hnall].
      { exfalso. apply Hnot. by exists periods. }
      apply not_Forall_Exists in Hnall; [|intros ?; apply _].
      apply Exists_exists in Hnall as (s & Hin & Hs).
      apply list_elem_of_lookup_1 in Hin as [i Hi].
      exists (S i), s. split_and!; [lia|done|by apply not_true_is_false].
    + left. by exists column0.
Qed.

Lemma Atoi_int64 cell : (strconv.Atoi cell).2 = None ↔ is_int64_text cell.
Proof. apply Atoi_ok_iff. Qed.

Lemma counts_ok_spec counts :
  forallb (λ c, bool_decide ((strconv.Atoi c).2 = None)) counts = true ↔
  ∀ cell, cell ∈ counts → is_int64_text cell.
Proof.
  rewrite forallb_forall. split; intros H cell Hin.
  - apply Atoi_int64. apply list_elem_of_In, H in Hin. by apply bool_decide_eq_true in Hin.
  - apply bool_decide_eq_true, Atoi_int64, H. by apply list_elem_of_In.
Qed.

(** C1, as the specification states it, does not hold: a count is there a
    base-10 integer of any magnitude, and [checkFile] refuses a table with
    the count 9223372036854775808, which is no value of the [int] that
    [strconv.Atoi] returns. *)
Lemma huge_count_counterexample :
  ¬ (∀ v fs fileName content periods rows,
       os.Open fs fileName = Some content →
       file_table content = Some (([] :: periods) :: rows) →
       forallb year_month periods = true →
       forallb (λ row, (length row =? length ([] :: periods)) && unbounded_data_row row)
         rows = true →
       (cmd.checkFile v fs fileName).2 = Returns true).
Proof.
  intros H.
  specialize (H false
    (one_file "pivot.csv" (text [",2023-01"; "basil,1"; "timja,9223372036854775808"]))
    "pivot.csv"%string
    (text [",2023-01"; "basil,1"; "timja,9223372036854775808"])
    [str "2023-01"]
    (map (map str) [["basil"; "1"]; ["timja"; "9223372036854775808"]]%string)).
  assert (Hfalse :
    (cmd.checkFile false
       (one_file "pivot.csv" (text [",2023-01"; "basil,1"; "timja,9223372036854775808"]))
       "pivot.csv").2 = Returns false) by (vm_compute; reflexivity).
  rewrite H in Hfalse; [discriminate Hfalse|vm_compute; reflexivity..].
Qed.

(** C1, amended. On a file that holds a table whose header has an empty
    first cell followed by year-month cells, and whose data rows all have
    as many cells as the header, an identifier of 1 to 39 letters, digits
    and hyphens in the first cell and, in every other cell, the text of a
    base-10 integer, with or without a sign, whose value fits a signed
    64-bit [int], [checkFile] returns [true]. *)
Theorem valid_table_passes v fs fileName content periods rows :
  os.Open fs fileName = Some content →
  file_table content = Some (([] :: periods) :: rows) →
  forallb year_month periods = true →
  forallb (λ row, (length row =? length ([] :: periods)) && valid_data_row row) rows = true →
  (cmd.checkFile v fs fileName).2 = Returns true.
Proof.
  intros Hopen Htable Hperiods Hrows.
  rewrite (checkFile_table _ _ _ _ _ _ Hopen Htable).
  rewrite forallb_forall in Hperiods, Hrows.
  apply checkTable_true. split_and!.
  - exists periods. split; [done|]. apply Forall_forall. intros s Hin.
    by apply year_month_regexp, Hperiods, list_elem_of_In.
  - apply Forall_forall. intros row Hin.
    apply list_elem_of_In, Hrows, andb_prop in Hin as [Hlen _].
    by apply Nat.eqb_eq in Hlen.
  - apply forallb_forall. intros row Hin. apply valid_data_row_ok.
    assert (Hin' : In row rows) by (destruct rows; [done|by right]).
    by apply Hrows, andb_prop in Hin' as [_ ?].
Qed.

Lemma valid_table_passes_witness :
  (cmd.checkFile true
     (one_file "pivot.csv" (text [",2023-01,2023-02"; "basil,12,-3"; "daniel-beck,+7,0"]))
     "pivot.csv").2 = Returns true.
Proof.
  apply (valid_table_passes true _ "pivot.csv"
           (text [",2023-01,2023-02"; "basil,12,-3"; "daniel-beck,+7,0"])
           (map str ["2023-01"; "2023-02"]%string)
           (map (map str) [["basil"; "12"; "-3"]; ["daniel-beck"; "+7"; "0"]]%string));
    vm_compute; reflexivity.
Defined.

(** C2, as the specification states it, does not hold: the header cell
    [2005-99] is no year-month of the specification, and [checkFile]
    accepts the file. *)
Lemma malformed_header_counterexample :
  ¬ (∀ v fs fileName content hdr rows,
       os.Open fs fileName = Some content →
       file_table content = Some (hdr :: rows) →
       header_malformed hdr →
       (cmd.checkFile v fs fileName).2 = Returns false).
Proof.
  intros H.
  specialize (H false (one_file "pivot.csv" (text [",2005-99"])) "pivot.csv"%string
                (text [",2005-99"]) (map str [""; "2005-99"]%string) []).
  assert (Hfalse : (cmd.checkFile false (one_file "pivot.csv" (text [",2005-99"]))
                      "pivot.csv").2 = Returns false).
  { apply H; [by vm_compute|by vm_compute|].
    right. exists 1, (str "2005-99"). split_and!; [lia|done|by vm_compute]. }
  vm_compute in Hfalse. discriminate.
Qed.

(** C2, amended. When the first cell of the header is not empty, or when
    the pattern [20[0-9]{2}-[0-9]{2}] is found nowhere in some later cell of
    the header, [checkFile] returns [false]. *)
Theorem refused_header_fails v fs fileName content hdr rows :
  os.Open fs fileName = Some content →
  file_table content = Some (hdr :: rows) →
  header_refused hdr →
  (cmd.checkFile v fs fileName).2 = Returns false.
Proof.
  intros Hopen Htable Href.
  rewrite (checkFile_table _ _ _ _ _ _ Hopen Htable).
  assert (Hne : hdr ≠ []).
  { intros ->. by destruct Href as [(? & ? & _)|(? & ? & _ & ? & _)]. }
  apply header_refused_spec in Href; [|done].
  destruct (checkTable_returns v fileName hdr rows Hne) as [[] Hb]; [|done].
  apply checkTable_true in Hb as [? _]. done.
Qed.

Lemma refused_header_fails_witness :
  (cmd.checkFile true (one_file "pivot.csv" (text [",2023-01,2023-2"; "basil,1,2"]))
     "pivot.csv").2 = Returns false.
Proof.
  apply (refused_header_fails true _ "pivot.csv"
           (text [",2023-01,2023-2"; "basil,1,2"])
           (map str [""; "2023-01"; "2023-2"]%string)
           [map str ["basil"; "1"; "2"]%string]).
  - vm_compute; reflexivity.
  - vm_compute; reflexivity.
  - right. exists 2, (str "2023-2"). split_and!; [lia|reflexivity|vm_compute; reflexivity].
Defined.

(** C5, as the specification states it, does not hold: the count
    [9223372036854775808] is the text of a base-10 integer, and [checkFile]
    refuses the file, because [strconv.Atoi] fails beyond 64 bits. *)
Lemma unbounded_count_counterexample :
  ¬ (∀ v fs fileName content hdr rows,
       os.Open fs fileName = Some content →
       file_table content = Some (hdr :: rows) →
       header_passes hdr →
       Forall (λ row, length row = length hdr) rows →
       Forall (λ row, ∃ id counts, row = id :: counts ∧ identifier id = true) rows →
       ((cmd.checkFile v fs fileName).2 = Returns true ↔
        Forall (λ row, ∀ cell, cell ∈ tail row → is_base10_integer cell) rows)).
Proof.
  intros H.
  specialize (H false
    (one_file "pivot.csv" (text [",2023-01"; "basil,1"; "timja,9223372036854775808"]))
    "pivot.csv"%string
    (text [",2023-01"; "basil,1"; "timja,9223372036854775808"])
    (map str [""; "2023-01"]%string)
    (map (map str) [["basil"; "1"]; ["timja"; "9223372036854775808"]]%string)).
  destruct H as [_ H].
  - by vm_compute.
  - by vm_compute.
  - exists [str "2023-01"]. split; [done|]. by repeat constructor.
  - by repeat constructor.
  - repeat constructor.
    + by exists (str "basil"), [str "1"].
    + by exists (str "timja"), [str "9223372036854775808"].
  - assert (Htrue : (cmd.checkFile false
      (one_file "pivot.csv" (text [",2023-01"; "basil,1"; "timja,9223372036854775808"]))
      "pivot.csv").2 = Returns true).
    { apply H. apply Forall_cons. split; [|apply Forall_cons; split; [|by constructor]].
      - intros cell Hin. cbn [map tail] in Hin.
        apply list_elem_of_singleton in Hin as ->. exists 1%Z. reflexivity.
      - intros cell Hin. cbn [map tail] in Hin.
        apply list_elem_of_singleton in Hin as ->.
        exists 9223372036854775808%Z. vm_compute. reflexivity. }
    vm_compute in Htrue. discriminate.
Qed.

(** C5, amended. In the data rows after the first one, [checkFile] accepts
    a cell other than the first exactly when it is the text of a base-10
    integer, with an optional sign [+] or [-], whose value fits a 64-bit
    [int]: on a table that is valid otherwise, [checkFile] returns [true]
    if and only if all these cells are such texts; and on any table, one
    such cell that is not makes it return [false]. *)
Theorem counts_are_int64 v fs fileName content hdr first rows :
  os.Open fs fileName = Some content →
  file_table content = Some (hdr :: first :: rows) →
  (header_passes hdr →
   Forall (λ row, length row = length hdr) (first :: rows) →
   Forall (λ row, ∃ id counts, row = id :: counts ∧ identifier id = true) rows →
   ((cmd.checkFile v fs fileName).2 = Returns true ↔
    Forall (λ row, ∀ cell, cell ∈ tail row → is_int64_text cell) rows)) ∧
  ((∃ row cell, row ∈ rows ∧ cell ∈ tail row ∧ ¬ is_int64_text cell) →
   (cmd.checkFile v fs fileName).2 = Returns false).
Proof.
  intros Hopen Htable.
  rewrite (checkFile_table _ _ _ _ _ _ Hopen Htable).
  assert (Hrow : ∀ row, row ∈ rows → data_line_ok row = true →
                 ∀ cell, cell ∈ tail row → is_int64_text cell).
  { intros [|id counts] _ Hok cell Hin; [by apply elem_of_nil in Hin|].
    simpl in Hok, Hin. apply andb_prop in Hok as [_ Hok].
    by eapply counts_ok_spec. }
  split.
  - intros Hhdr Hlen Hids. rewrite checkTable_true. cbn [tail]. split.
    + intros (_ & _ & Hok). rewrite forallb_forall in Hok.
      apply Forall_forall. intros row Hin. apply Hrow; [done|].
      by apply Hok, list_elem_of_In.
    + intros Hcells. split_and!; [done|done|].
      apply forallb_forall. intros row Hin%list_elem_of_In.
      rewrite Forall_forall in Hids, Hcells.
      destruct (Hids row Hin) as (id & counts & -> & Hid).
      simpl. rewrite identifier_spec in Hid. rewrite Hid. cbn [andb].
      apply counts_ok_spec. intros cell Hcell. by apply (Hcells _ Hin).
  - intros (row & cell & Hin & Hcell & Hbad).
    assert (Hne : hdr ≠ []).
    { intros ->. apply file_table_cons in Htable as (? & Hp & _).
      apply parseRecord_spec in Hp as (_ & _ & Hp). by apply Hp. }
    destruct (checkTable_returns v fileName hdr (first :: rows) Hne) as [[] Hb]; [|done].
    exfalso. apply checkTable_true in Hb as (_ & _ & Hok). cbn [tail] in Hok.
    rewrite forallb_forall in Hok. apply Hbad, (Hrow row); [done| |done].
    by apply Hok, list_elem_of_In.
Qed.

Lemma counts_are_int64_witness :
  (cmd.checkFile false
     (one_file "pivot.csv" (text [",2023-01"; "basil,1"; "timja,12x"]))
     "pivot.csv").2 = Returns false.
Proof.
  apply (counts_are_int64 false _ "pivot.csv"
           (text [",2023-01"; "basil,1"; "timja,12x"])
           (map str [""; "2023-01"]%string)
           (map str ["basil"; "1"]%string)
           [map str ["timja"; "12x"]%string]).
  - vm_compute; reflexivity.
  - vm_compute; reflexivity.
  - exists (map str ["timja"; "12x"]%string), (str "12x"). split_and!.
    + apply elem_of_cons. by left.
    + apply elem_of_cons. by left.
    + intros (n & Hn & _). vm_compute in Hn. discriminate.
Defined.

(** C6, as the specification states it, does not hold: when the header is
    refused, a row with another cell count is never read and the error
    printed is that of the header. *)
Lemma column_count_counterexample :
  ¬ (∀ v fs fileName content hdr rows,
       os.Open fs fileName = Some content →
       file_table content = Some (hdr :: rows) →
       (∃ row, row ∈ rows ∧ length row ≠ length hdr) →
       ∃ out, cmd.checkFile v fs fileName = (out, Returns false) ∧
              cmd.UnexpectedErrorLoading fileName (Some csv.ErrFieldCount) ∈ out).
Proof.
  intros H.
  destruct (H false (one_file "pivot.csv" (text ["x"; "basil,1"])) "pivot.csv"%string
              (text ["x"; "basil,1"]) [str "x"] [map str ["basil"; "1"]%string])
    as (out & Hout & Hin).
  - by vm_compute.
  - by vm_compute.
  - exists (map str ["basil"; "1"]%string). split; [by left|simpl; lia].
  - vm_compute in Hout. injection Hout as <-.
    apply elem_of_cons in Hin as [?|Hin]; [done|]. by apply elem_of_nil in Hin.
Qed.

(** C6, amended. On a table whose header passes and of which some data row
    has not as many cells as the header, [checkFile] returns [false] on the
    error [ErrFieldCount] of the reader: it is raised while the records are
    loaded, before any check of a field of any data row, and it is the only
    error printed. *)
Theorem column_count_mismatch_fails v fs fileName content hdr rows :
  os.Open fs fileName = Some content →
  file_table content = Some (hdr :: rows) →
  header_passes hdr →
  (∃ row, row ∈ rows ∧ length row ≠ length hdr) →
  cmd.checkFile v fs fileName =
    ((if v then [cmd.CheckingFileFormat; cmd.NumberOfColumns (len hdr);
                 cmd.HeaderStartsWithEmptyColumnName;
                 cmd.HeaderDataColumnFormat] else []) ++
     [cmd.UnexpectedErrorLoading fileName (Some csv.ErrFieldCount)],
     Returns false).
Proof.
  intros Hopen Htable Hhdr (row & Hin & Hlen).
  rewrite (checkFile_table _ _ _ _ _ _ Hopen Htable).
  apply header_passes_spec in Hhdr as (periods & -> & Hhead).
  unfold checkTable. rewrite Hhead. cbn [bool_decide decide_rel negb].
  rewrite bool_decide_eq_true_2 by done. cbn [negb].
  destruct (forallb _ rows) eqn:Hall.
  - exfalso. rewrite forallb_forall in Hall.
    apply list_elem_of_In, Hall, Z.eqb_eq in Hin. unfold len in Hin. lia.
  - by destruct v.
Qed.

Lemma column_count_mismatch_fails_witness :
  cmd.checkFile false
    (one_file "pivot.csv" (text [",2023-01,2023-02"; "basil,1,2"; "not an id,x"]))
    "pivot.csv" =
  ([cmd.UnexpectedErrorLoading "pivot.csv" (Some csv.ErrFieldCount)], Returns false).
Proof.
  apply (column_count_mismatch_fails false _ "pivot.csv"
           (text [",2023-01,2023-02"; "basil,1,2"; "not an id,x"])
           (map str [""; "2023-01"; "2023-02"]%string)
           (map (map str) [["basil"; "1"; "2"]; ["not an id"; "x"]]%string)).
  - vm_compute; reflexivity.
  - vm_compute; reflexivity.
  - exists (map str ["2023-01"; "2023-02"]%string). split; [reflexivity|].
    repeat constructor.
  - exists (map str ["not an id"; "x"]%string). split; [|simpl; lia].
    apply elem_of_cons. right. apply elem_of_cons. by left.
Defined.

(** C7: the code does not do what the claim says on the first data row.
    The loop over [records] skips its index 0 as the header, but the header
    was read before by [Read], so that [records[0]] is the first data row:
    whatever this row holds, a table that is valid otherwise is accepted. *)
Theorem first_data_row_unchecked v fs fileName content hdr first rows :
  os.Open fs fileName = Some content →
  file_table content = Some (hdr :: first :: rows) →
  header_passes hdr →
  Forall (λ row, length row = length hdr) (first :: rows) →
  forallb valid_data_row rows = true →
  (cmd.checkFile v fs fileName).2 = Returns true.
Proof.
  intros Hopen Htable Hhdr Hlen Hrows.
  rewrite (checkFile_table _ _ _ _ _ _ Hopen Htable).
  apply checkTable_true. split_and!; [done|done|]. cbn [tail].
  rewrite forallb_forall in Hrows. apply forallb_forall.
  intros row Hin. by apply valid_data_row_ok, Hrows.
Qed.

Lemma first_data_row_unchecked_witness :
  identifier (str "not an id!") = false ∧
  (cmd.checkFile false
     (one_file "pivot.csv" (text [",2023-01"; "not an id!,5"; "basil,1"]))
     "pivot.csv").2 = Returns true.
Proof.
  split; [reflexivity|].
  apply (first_data_row_unchecked false _ "pivot.csv"
           (text [",2023-01"; "not an id!,5"; "basil,1"])
           (map str [""; "2023-01"]%string)
           (map str ["not an id!"; "5"]%string)
           [map str ["basil"; "1"]%string]).
  - vm_compute; reflexivity.
  - vm_compute; reflexivity.
  - exists [str "2023-01"]. split; [reflexivity|]. repeat constructor.
  - repeat constructor.
  - vm_compute; reflexivity.
Defined.

End check_file.

(** ** get_columnsWidth *)

Section columns_width.

Implicit Types (row slice_line : list (list ascii)) (width_slice ws : list Z).

Lemma update_widths_middle row : ∀ pre mid post,
  length mid = length row →
  cmd.update_widths (length pre) row (pre ++ mid ++ post) =
    Returns (pre ++ raise_widths mid row ++ post).
Proof.
  induction row as [|cell row IH]; intros pre mid post Hlen.
  - by destruct mid.
  - destruct mid as [|w mid]; [done|]. simpl in Hlen.
    cbn [cmd.update_widths]. unfold cmd.index.
    change ((w :: mid) ++ post) with (w :: (mid ++ post)).
    rewrite list_lookup_middle by done. cbn [mbind Outcome_bind].
    set (ws1 := if (w <? len cell)%Z then _ else _).
    assert (Hws1 : ws1 = (pre ++ [Z.max w (len cell)]) ++ mid ++ post).
    { subst ws1. rewrite <- app_assoc. simpl.
      destruct (Z.ltb_spec w (len cell)).
      - rewrite Z.max_r by lia. rewrite insert_app_r_alt by lia.
        by rewrite Nat.sub_diag.
      - by rewrite Z.max_l by lia. }
    rewrite Hws1.
    replace (S (length pre)) with (length (pre ++ [Z.max w (len cell)]))
      by (rewrite length_app; simpl; lia).
    rewrite IH by lia. by rewrite <- app_assoc.
Qed.

Lemma update_widths_line row ws :
  length row = length ws →
  cmd.update_widths 0 row ws = Returns (raise_widths ws row).
Proof.
  intros Hlen.
  pose proof (update_widths_middle row [] ws [] (eq_sym Hlen)) as H.
  simpl in H. by rewrite !app_nil_r in H.
Qed.

Lemma length_raise_widths ws row :
  length row = length ws → length (raise_widths ws row) = length ws.
Proof.
  intros Hlen. unfold raise_widths.
  rewrite length_zip_with, length_fmap. lia.
Qed.

Lemma lookup_raise_widths ws row j w cell :
  ws !! j = Some w → row !! j = Some cell →
  raise_widths ws row !! j = Some (Z.max w (len cell)).
Proof.
  intros Hw Hc. unfold raise_widths.
  rewrite lookup_zip_with, Hw. simpl. by rewrite list_lookup_fmap, Hc.
Qed.

Lemma walk_lines_uniform lines : ∀ lineNbr ws,
  Forall (λ row, length row = length ws) lines →
  cmd.walk_lines lineNbr lines (len ws) ws = Returns (foldl raise_widths ws lines, None).
Proof.
  induction lines as [|row lines IH]; intros k ws Hall; [done|].
  apply Forall_cons in Hall as [Hrow Hall].
  cbn [cmd.walk_lines foldl]. unfold len at 1 2. rewrite Hrow, Z.eqb_refl.
  cbn [negb]. rewrite update_widths_line by done. cbn [mbind Outcome_bind].
  assert (Hl : length (raise_widths ws row) = length ws)
    by by apply length_raise_widths.
  replace (len ws) with (len (raise_widths ws row))
    by (unfold len; by rewrite Hl).
  apply IH. by rewrite Hl.
Qed.

Lemma walk_lines_mismatch lines : ∀ lineNbr ws i row,
  lines !! i = Some row → length row ≠ length ws →
  (∀ i' row', i' < i → lines !! i' = Some row' → length row' = length ws) →
  cmd.walk_lines lineNbr lines (len ws) ws =
    Returns ([], Some (cmd.Errorf_line (Z.of_nat (lineNbr + i) + 1) (len row) (len ws))).
Proof.
  induction lines as [|row0 lines IH]; intros k ws i row Hi Hne Hbefore; [done|].
  cbn [cmd.walk_lines]. destruct i as [|i]; simpl in Hi.
  - injection Hi as ->.
    destruct (Z.eqb_spec (len row) (len ws)) as [Heq|_]; [unfold len in Heq; lia|].
    cbn [negb]. by rewrite Nat.add_0_r.
  - assert (Hrow0 : length row0 = length ws) by (apply (Hbefore 0); [lia|done]).
    unfold len at 1 2. rewrite Hrow0, Z.eqb_refl. cbn [negb].
    rewrite update_widths_line by done. cbn [mbind Outcome_bind].
    assert (Hl : length (raise_widths ws row0) = length ws)
      by by apply length_raise_widths.
    assert (Hlen : len (raise_widths ws row0) = len ws)
      by (unfold len; by rewrite Hl).
    rewrite <- Hlen.
    rewrite (IH (S k) _ i row Hi); [|by rewrite Hl|].
    + do 4 f_equal. lia.
    + intros i' row' Hlt Hrow'. rewrite Hl. apply (Hbefore (S i')); [lia|done].
Qed.

(** After the walk, a width is at least the length of every cell of its
    column, and it is the starting width or the length of one of them. *)
Lemma raised_widths lines : ∀ ws,
  Forall (λ row, length row = length ws) lines →
  length (foldl raise_widths ws lines) = length ws ∧
  ∀ j w, foldl raise_widths ws lines !! j = Some w →
    (∀ row cell, row ∈ lines → row !! j = Some cell → (len cell ≤ w)%Z) ∧
    (∃ w0, ws !! j = Some w0 ∧ (w0 ≤ w)%Z) ∧
    (ws !! j = Some w ∨ ∃ row cell, row ∈ lines ∧ row !! j = Some cell ∧ len cell = w).
Proof.
  induction lines as [|row lines IH]; intros ws Hall.
  - split; [done|]. intros j w Hw. simpl in Hw. split_and!.
    + intros row cell Hin. by apply elem_of_nil in Hin.
    + exists w. split; [done|lia].
    + by left.
  - apply Forall_cons in Hall as [Hrow Hall]. cbn [foldl].
    assert (Hl : length (raise_widths ws row) = length ws)
      by by apply length_raise_widths.
    destruct (IH (raise_widths ws row)) as [IHlen IHw]; [by rewrite Hl|].
    split; [lia|]. intros j w Hw.
    destruct (IHw j w Hw) as (Hub & (w1 & Hw1 & Hle1) & Hatt).
    destruct (lookup_lt_is_Some_2 ws j) as [w0 Hw0].
    { rewrite <- Hl. by eapply lookup_lt_Some. }
    destruct (lookup_lt_is_Some_2 row j) as [cell0 Hcell0].
    { rewrite Hrow. by eapply lookup_lt_Some. }
    rewrite (lookup_raise_widths ws row j w0 cell0 Hw0 Hcell0) in Hw1.
    injection Hw1 as <-.
    split_and!.
    + intros r cell [->|Hin]%elem_of_cons Hcell; [|by eapply Hub].
      rewrite Hcell0 in Hcell. injection Hcell as <-. lia.
    + exists w0. split; [done|lia].
    + destruct Hatt as [Hatt|(r & cell & Hin & Hcell & Hlen)].
      * rewrite (lookup_raise_widths ws row j w0 cell0 Hw0 Hcell0) in Hatt.
        injection Hatt as Hmax.
        destruct (Z.max_spec w0 (len cell0)) as [[_ Hm]|[_ Hm]].
        -- right. exists row, cell0. split_and!; [by left|done|lia].
        -- left. rewrite Hw0. f_equal. lia.
      * right. exists r, cell. split_and!; [by right|done|done].
Qed.

Lemma get_columnsWidth_cons row0 (rest : list (list (list ascii))) :
  let ws0 := replicate (length row0) 0%Z in
  cmd.get_columnsWidth (row0 :: rest) = cmd.walk_lines 0 (row0 :: rest) (len ws0) ws0.
Proof.
  unfold cmd.get_columnsWidth, cmd.index, len. simpl.
  by rewrite Nat2Z.id, length_replicate.
Qed.

Lemma columnsWidth_uniform (T : list (list (list ascii))) row0 rest :
  T = row0 :: rest →
  Forall (λ row, length row = length row0) T →
  ∃ ws, cmd.get_columnsWidth T = Returns (ws, None) ∧
     length ws = length row0 ∧
     ∀ j w, ws !! j = Some w →
       (∀ row cell, row ∈ T → row !! j = Some cell → (len cell ≤ w)%Z) ∧
       (∃ row cell, row ∈ T ∧ row !! j = Some cell ∧ len cell = w).
Proof.
  intros -> Hall.
  set (T := row0 :: rest) in *.
  set (ws0 := replicate (length row0) 0%Z).
  assert (Hws0 : length ws0 = length row0) by apply length_replicate.
  assert (Hall' : Forall (λ row, length row = length ws0) T)
    by (by rewrite Hws0).
  destruct (raised_widths T ws0 Hall') as [Hlen Hw].
  exists (foldl raise_widths ws0 T). split_and!.
  - subst T. rewrite get_columnsWidth_cons. by apply walk_lines_uniform.
  - lia.
  - intros j w Hj. destruct (Hw j w Hj) as (Hub & (w0 & Hw0 & Hle) & Hatt).
    split; [done|].
    destruct Hatt as [Hatt|Hatt]; [|done].
    apply lookup_replicate in Hatt as [Hz Hlt].
    destruct (lookup_lt_is_Some_2 row0 j Hlt) as [cell Hcell].
    exists row0, cell. split_and!; [by left|done|].
    assert (len cell ≤ w)%Z by (apply (Hub row0); [by left|done]).
    unfold len in *. lia.
Qed.

Lemma first_mismatch (row0 : list (list ascii)) (T : list (list (list ascii))) :
  Exists (λ row, length row ≠ length row0) T →
  ∃ i row, T !! i = Some row ∧ length row ≠ length row0 ∧
    ∀ i' row', i' < i → T !! i' = Some row' → length row' = length row0.
Proof.
  induction T as [|r l IH]; intros Hex.
  - by apply Exists_nil in Hex.
  - destruct (decide (length r = length row0)) as [Heq|Hneq].
    + apply Exists_cons in Hex as [?|Hex]; [done|].
      destruct (IH Hex) as (i & row & Hi & Hne & Hb).
      exists (S i), row. split_and!; [done|done|].
      intros [|i'] row' Hlt Hrow'; simpl in Hrow'.
      * by injection Hrow' as <-.
      * eapply Hb; [|done]. lia.
    + exists 0, r. split_and!; [done|done|]. intros; lia.
Qed.

Lemma columnsWidth_mismatch (T : list (list (list ascii))) row0 rest :
  T = row0 :: rest →
  (∃ row, row ∈ T ∧ length row ≠ length row0) →
  ∃ i row,
    T !! i = Some row ∧ length row ≠ length row0 ∧
    (∀ i' row', i' < i → T !! i' = Some row' → length row' = length row0) ∧
    cmd.get_columnsWidth T =
      Returns ([], Some (cmd.Errorf_line (Z.of_nat i + 1) (len row) (len row0))).
Proof.
  intros -> (row & Hin & Hne).
  destruct (first_mismatch row0 (row0 :: rest)) as (i & r & Hi & Hr & Hb).
  { apply Exists_exists. by exists row. }
  exists i, r. split_and!; [done..|].
  set (ws0 := replicate (length row0) 0%Z).
  assert (Hws0 : length ws0 = length row0) by apply length_replicate.
  rewrite get_columnsWidth_cons. fold ws0.
  replace (len row0) with (len ws0) by (unfold len; by rewrite Hws0).
  rewrite (walk_lines_mismatch _ 0 ws0 i r); [done|done|by rewrite Hws0|].
  intros i' row' Hlt Hrow'. rewrite Hws0. by eapply Hb.
Qed.

(** C3. On a table of at least one line whose lines all have as many cells
    as the first, [get_columnsWidth] returns, without error, one width per
    column: the greatest length of a cell of that column over all the lines,
    the header included (every cell is at most that long and one cell is
    exactly that long; an empty cell has length 0). On the four-line table
    of the test it returns [10, 4, 12]. *)
Theorem get_columnsWidth_max (T : list (list (list ascii))) row0 rest :
  T = row0 :: rest →
  Forall (λ row, length row = length row0) T →
  (∃ ws, cmd.get_columnsWidth T = Returns (ws, None) ∧
     length ws = length row0 ∧
     ∀ j w, ws !! j = Some w →
       (∀ row cell, row ∈ T → row !! j = Some cell → (len cell ≤ w)%Z) ∧
       (∃ row cell, row ∈ T ∧ row !! j = Some cell ∧ len cell = w)) ∧
  cmd.get_columnsWidth happy_case = Returns ([10; 4; 12]%Z, None).
Proof.
  intros HT Hall. split; [by eapply columnsWidth_uniform|by vm_compute].
Qed.

Lemma get_columnsWidth_max_witness :
  ∃ ws, cmd.get_columnsWidth happy_case = Returns (ws, None) ∧ length ws = 3.
Proof.
  destruct (get_columnsWidth_max happy_case
              (map str ["aaa aaa"; "12"; "ccccccc"]%string)
              (map (map str) [ ["aaa aaa aa"; "124"; "cccccccccc"];
                               ["aaa"; "12"; "cccccccccc"];
                               ["aaa"; "1024"; "cccccccccccc"] ]%string))
    as [(ws & Hws & Hlen & _) _].
  - reflexivity.
  - repeat constructor.
  - exists ws. split; [exact Hws|exact Hlen].
Defined.

(** C8. When some line of the table has not as many cells as the first,
    [get_columnsWidth] returns the nil slice and an error that carries the
    number (from 1) of the first such line, its cell count and the expected
    one. *)
Theorem get_columnsWidth_mismatch (T : list (list (list ascii))) row0 rest :
  T = row0 :: rest →
  (∃ row, row ∈ T ∧ length row ≠ length row0) →
  ∃ i row,
    T !! i = Some row ∧ length row ≠ length row0 ∧
    (∀ i' row', i' < i → T !! i' = Some row' → length row' = length row0) ∧
    cmd.get_columnsWidth T =
      Returns ([], Some (cmd.Errorf_line (Z.of_nat i + 1) (len row) (len row0))).
Proof. apply columnsWidth_mismatch. Qed.

Lemma get_columnsWidth_mismatch_witness :
  ∃ i row,
    map (map str) [["a"; "1"]; ["b"]]%string !! i = Some row ∧
    cmd.get_columnsWidth (map (map str) [["a"; "1"]; ["b"]]%string) =
      Returns ([], Some (cmd.Errorf_line (Z.of_nat i + 1) (len row) 2)).
Proof.
  destruct (get_columnsWidth_mismatch (map (map str) [["a"; "1"]; ["b"]]%string)
              (map str ["a"; "1"]%string) [map str ["b"]%string])
    as (i & row & Hi & _ & _ & Hres).
  - reflexivity.
  - exists (map str ["b"]%string). split; [|simpl; lia].
    apply elem_of_cons. right. apply elem_of_cons. by left.
  - exists i, row. split; [exact Hi|exact Hres].
Defined.

(** C10. [get_columnsWidth] reads [output_data_slice[0]] before anything
    else: on a table without lines this is an index out of range and the
    call panics; on a table with at least one line the call returns, either
    a width vector without error, or the nil slice with the error of a
    column mismatch. *)
Theorem get_columnsWidth_defined (T : list (list (list ascii))) :
  T ≠ [] →
  cmd.get_columnsWidth [] = Panics ∧
  ((∃ ws, cmd.get_columnsWidth T = Returns (ws, None)) ∨
   (∃ line nbr announced,
      cmd.get_columnsWidth T = Returns ([], Some (cmd.Errorf_line line nbr announced)))).
Proof.
  intros Hne. split; [done|].
  destruct T as [|row0 rest]; [done|].
  destruct (decide (Forall (λ row, length row = length row0) (row0 :: rest)))
    as [Hall|Hnall].
  - left. destruct (columnsWidth_uniform _ row0 rest eq_refl Hall)
      as (ws & Hws & _). by exists ws.
  - right. apply not_Forall_Exists in Hnall; [|intros ?; apply _].
    apply Exists_exists in Hnall as (row & Hin & Hrow).
    destruct (columnsWidth_mismatch _ row0 rest eq_refl) as (i & r & _ & _ & _ & Hres).
    { by exists row. }
    by eauto.
Qed.

Lemma get_columnsWidth_defined_witness :
  cmd.get_columnsWidth [] = Panics ∧
  ((∃ ws, cmd.get_columnsWidth [[str "a"]] = Returns (ws, None)) ∨
   (∃ line nbr announced,
      cmd.get_columnsWidth [[str "a"]] =
        Returns ([], Some (cmd.Errorf_line line nbr announced)))).
Proof.
  apply (get_columnsWidth_defined [[str "a"]]). discriminate.
Defined.

End columns_width.

(** ** writeDataAsMarkdown *)

Section markdown.

Implicit Types (ws : list Z) (row : list (list ascii)) (data : list ascii).

Local Open Scope Z_scope.

Lemma count_from_ascii s :
  Forall (λ c, byte c < 128) s → utf8.count_from 0 s = len s.
Proof.
  induction 1 as [|c s Hc Hs IH]; [done|].
  cbn [utf8.count_from utf8.DecodeRuneInString]. unfold utf8.first.
  destruct (Z.ltb_spec (byte c) 128); [|lia]. cbn [snd Nat.pred].
  rewrite IH. unfold len. cbn [length]. lia.
Qed.

Lemma count_from_nonneg s : ∀ skip, 0 ≤ utf8.count_from skip s.
Proof.
  induction s as [|c s IH]; intros k; [done|].
  cbn [utf8.count_from]. destruct k; [|apply IH].
  specialize (IH (Nat.pred (utf8.DecodeRuneInString (c :: s)).2)). lia.
Qed.

Lemma digits_value_ascii s : ∀ n v,
  digits_value s n = Some v → Forall (λ c, byte c < 128) s.
Proof.
  induction s as [|c s IH]; intros n v H; [by constructor|].
  simpl in H. destruct (is_digit c) eqn:Hc; [|done].
  apply is_digit_spec in Hc. constructor; [lia|by eapply IH].
Qed.

(** An integer is written in ASCII: its runes are its bytes, and it is
    not empty. *)
Lemma is_integer_ascii data :
  is_integer data = true → utf8.RuneCountInString data = len data ∧ 1 ≤ len data.
Proof.
  rewrite is_integer_Atoi. intros H%bool_decide_eq_true%Atoi_ok_iff.
  destruct H as (v & Hv & _). unfold base10_integer in Hv.
  destruct data as [|c s]; [done|].
  split; [|unfold len; cbn [length]; lia].
  apply count_from_ascii.
  destruct (Ascii.eqb_spec c "+") as [->|_].
  { destruct s; [done|]. constructor; [by vm_compute|by eapply digits_value_ascii]. }
  destruct (Ascii.eqb_spec c "-") as [->|_].
  { destruct s; [done|]. constructor; [by vm_compute|].
    destruct (digits_value _ 0) eqn:Hd; [|done]. by eapply digits_value_ascii. }
  by eapply digits_value_ascii.
Qed.

Lemma Sprintf_pad_aligned w data :
  len data ≤ w ≤ 1000000 →
  fmt.Sprintf_pad (if is_integer data then w else 0 - w) data = str " " ++ aligned w data.
Proof.
  intros [Hlen Hmax]. unfold aligned, fmt.Sprintf_pad, fmt.tooLarge.
  assert (0 ≤ len data) by (unfold len; lia).
  destruct (is_integer data) eqn:Hint.
  - apply is_integer_ascii in Hint as [Hrunes Hpos].
    destruct (Z.ltb_spec 1000000 w); [lia|].
    destruct (Z.ltb_spec w (-1000000)); [lia|]. cbn [orb].
    destruct (Z.ltb_spec w 0); [lia|]. cbn [app]. f_equal.
    unfold fmt.padString, right_aligned. cbn [negb orb].
    destruct (Z.eqb_spec w 0); [lia|]. cbn [negb]. rewrite Hrunes.
    unfold fmt.writePadding.
    destruct (Z.leb_spec (w - len data) 0); [|done].
    by replace (w - len data) with 0 by lia.
  - destruct (Z.ltb_spec 1000000 (0 - w)); [lia|].
    destruct (Z.ltb_spec (0 - w) (-1000000)); [lia|]. cbn [orb app]. f_equal.
    unfold fmt.padString, left_aligned. cbn [negb orb].
    destruct (Z.ltb_spec (0 - w) 0).
    + destruct (Z.eqb_spec (- (0 - w)) 0); [lia|]. cbn [negb].
      replace (- (0 - w)) with w by lia. unfold fmt.writePadding.
      destruct (Z.leb_spec (w - utf8.RuneCountInString data) 0) as [Hle|]; [|done].
      by rewrite Z2Nat.nonpos.
    + assert (w = 0) as -> by lia. cbn.
      pose proof (count_from_nonneg data 0).
      unfold utf8.RuneCountInString. rewrite Z2Nat.nonpos by lia. by rewrite app_nil_r.
Qed.

Lemma Repeat_dash n :
  0 ≤ n → Strings.Repeat (str "-") n = Returns (replicate (Z.to_nat n) "-"%char).
Proof.
  intros Hn. unfold Strings.Repeat. destruct (Z.ltb_spec n 0); [lia|]. f_equal.
  induction (Z.to_nat n) as [|k IH]; [done|].
  cbn [replicate concat]. by rewrite IH.
Qed.

Lemma headerUnderline_separator w data :
  len data ≤ w →
  cmd.headerUnderline (if is_integer data then w else 0 - w) w =
    Returns (separator w data).
Proof.
  intros Hlen. unfold cmd.headerUnderline, separator.
  assert (0 ≤ len data) by (unfold len; lia).
  destruct (is_integer data) eqn:Hint.
  - apply is_integer_ascii in Hint as [_ Hpos].
    destruct (Z.leb_spec w 0); [lia|]. by rewrite Repeat_dash by lia.
  - destruct (Z.leb_spec (0 - w) 0); [|lia]. by rewrite Repeat_dash by lia.
Qed.

(** A separator is as long as its column is wide. *)
Lemma len_separator w data : len data ≤ w → len (separator w data) = w.
Proof.
  intros Hlen. unfold separator, len in *.
  destruct (is_integer data) eqn:Hint.
  - apply is_integer_ascii in Hint as [_ Hpos]. unfold len in Hpos.
    rewrite length_app, length_replicate. simpl. lia.
  - rewrite length_replicate. lia.
Qed.

Lemma format_columns_spec row : ∀ mid pre isHeaderUnderline writeBuffer underlineBuffer,
  Forall2 fits mid row →
  cmd.format_columns (length pre) row (pre ++ mid) isHeaderUnderline
      writeBuffer underlineBuffer =
    Returns
      (writeBuffer ++ concat ((λ cell, str " " ++ cell ++ str " |") <$> zip_with aligned mid row),
       underlineBuffer ++
       if isHeaderUnderline
       then concat ((λ cell, str " " ++ cell ++ str " |") <$> zip_with separator mid row)
       else []).
Proof.
  induction row as [|data row IH]; intros mid pre h wb ub Hfits.
  - apply Forall2_nil_inv_r in Hfits as ->. cbn. destruct h; by rewrite !app_nil_r.
  - apply Forall2_cons_inv_r in Hfits as (w & mid' & Hfit & Hfits & ->).
    cbn [cmd.format_columns]. unfold cmd.index.
    rewrite list_lookup_middle by done. cbn [mbind Outcome_bind].
    assert (Hw : match (strconv.Atoi data).2 with Some _ => 0 - w | None => w end =
                 if is_integer data then w else 0 - w).
    { rewrite is_integer_Atoi. by destruct ((strconv.Atoi data).2). }
    rewrite Hw. destruct Hfit as [Hlen Hmax].
    rewrite Sprintf_pad_aligned by done.
    replace (pre ++ w :: mid') with ((pre ++ [w]) ++ mid') by by rewrite <- app_assoc.
    replace (S (length pre)) with (length (pre ++ [w]))
      by (rewrite length_app; simpl; lia).
    destruct h.
    + rewrite headerUnderline_separator by done. cbn [mbind Outcome_bind].
      rewrite IH by done. cbn [zip_with fmap list_fmap concat].
      by rewrite <- !app_assoc.
    + cbn [mbind Outcome_bind]. rewrite IH by done.
      cbn [zip_with fmap list_fmap concat]. by rewrite <- !app_assoc.
Qed.

Lemma write_lines_spec ws lines : ∀ (lineNumber : nat) out,
  (2 ≤ lineNumber)%nat →
  Forall (Forall2 fits ws) lines →
  cmd.write_lines lineNumber lines ws out =
    Returns (out ++ concat (table_row ws <$> lines)).
Proof.
  induction lines as [|row lines IH]; intros k out Hk Hall.
  - cbn. by rewrite app_nil_r.
  - apply Forall_cons in Hall as [Hrow Hall]. cbn [cmd.write_lines].
    destruct k as [|[|k]]; [lia|lia|]. cbn [Nat.eqb].
    rewrite (format_columns_spec row ws [] false) by done.
    cbn [mbind Outcome_bind]. rewrite IH by (done || lia).
    cbn [fmap list_fmap concat]. unfold table_row, table_line.
    by rewrite <- !app_assoc.
Qed.

Lemma write_lines_header ws row0 row1 rest out :
  Forall (Forall2 fits ws) (row0 :: row1 :: rest) →
  cmd.write_lines 0 (row0 :: row1 :: rest) ws out =
    Returns (out ++ table_row ws row0 ++ separator_row ws row1 ++ table_row ws row1 ++
             concat (table_row ws <$> rest)).
Proof.
  intros (Hrow0 & (Hrow1 & Hall)%Forall_cons)%Forall_cons.
  cbn [cmd.write_lines Nat.eqb].
  rewrite (format_columns_spec row0 ws [] false) by done. cbn [mbind Outcome_bind].
  rewrite (format_columns_spec row1 ws [] true) by done. cbn [mbind Outcome_bind].
  rewrite write_lines_spec by (done || lia).
  unfold table_row, separator_row, table_line. f_equal.
  by rewrite <- !app_assoc.
Qed.

(** The widths that [get_columnsWidth] computes fit every line. *)
Lemma widths_fit (T : list (list (list ascii))) row0 rest :
  T = row0 :: rest →
  Forall (λ row, length row = length row0) T →
  Forall (Forall (λ cell, len cell ≤ 1000000)) T →
  ∃ ws, cmd.get_columnsWidth T = Returns (ws, None) ∧ Forall (Forall2 fits ws) T.
Proof.
  intros HT Hlen Hmax.
  destruct (columnsWidth_uniform T row0 rest HT Hlen) as (ws & Hws & Hwslen & Hw).
  exists ws. split; [done|].
  apply Forall_forall. intros row Hin.
  rewrite Forall_forall in Hlen. specialize (Hlen row Hin).
  apply Forall2_same_length_lookup_2; [lia|].
  intros j w data Hj Hdata. destruct (Hw j w Hj) as [Hub (r & cell & Hr & Hcell & <-)].
  unfold fits. split; [exact (Hub row data Hin Hdata)|].
  rewrite Forall_forall in Hmax. specialize (Hmax r Hr).
  rewrite Forall_forall in Hmax. apply Hmax. by eapply list_elem_of_lookup_2.
Qed.

Lemma Open_write fs name content : os.Open (os.write fs name content) name = Some content.
Proof. unfold os.Open, os.write. simpl. apply lookup_insert_eq. Qed.

Lemma writeDataAsMarkdown_spec fs fs1 outputFileName (T : list (list (list ascii)))
    row0 row1 rest introductionText :
  T = row0 :: row1 :: rest →
  Forall (λ row, length row = length row0) T →
  Forall (Forall (λ cell, len cell ≤ 1000000)) T →
  os.Create fs outputFileName = Some fs1 →
  ∃ ws, cmd.get_columnsWidth T = Returns (ws, None) ∧
    Forall (Forall2 fits ws) T ∧
    cmd.writeDataAsMarkdown fs outputFileName T introductionText =
      (os.write fs1 outputFileName
         ((if 0 <? len introductionText then introductionText ++ [LF] else []) ++
          table_row ws row0 ++ separator_row ws row1 ++ table_row ws row1 ++
          concat (table_row ws <$> rest)),
       Returns tt).
Proof.
  intros HT Hlen Hmax Hcreate.
  destruct (widths_fit T row0 (row1 :: rest) HT Hlen Hmax) as (ws & Hws & Hfits).
  exists ws. split_and!; [done|done|].
  unfold cmd.writeDataAsMarkdown. rewrite Hcreate, Hws. subst T.
  by rewrite write_lines_header.
Qed.

(** C4, as the specification states it, does not hold: for a table that
    has its header row only, nothing is written after the header row. *)
Lemma header_only_counterexample :
  ¬ (∀ fs fs1 outputFileName (T : list (list (list ascii))) row0 rest introductionText,
       T = row0 :: rest →
       Forall (λ row, length row = length row0) T →
       os.Create fs outputFileName = Some fs1 →
       ∃ ws sep after,
         cmd.get_columnsWidth T = Returns (ws, None) ∧
         is_separator_row ws sep ∧
         cmd.writeDataAsMarkdown fs outputFileName T introductionText =
           (os.write fs1 outputFileName
              ((if 0 <? len introductionText then introductionText ++ [LF] else []) ++
               table_row ws row0 ++ sep ++ after),
            Returns tt)).
Proof.
  intros H.
  set (fs := one_file "pivot.csv" []).
  set (row0 := map str ["Submitter"; "Total_PRs"]%string).
  destruct (H fs (os.write fs "report.md" []) "report.md"%string [row0] row0 [] [])
    as (ws & sep & after & Hws & (row & _ & ->) & Hout); [done|by repeat constructor|done|].
  vm_compute in Hws. injection Hws as <-.
  apply (f_equal (λ r, os.Open r.1 "report.md")) in Hout.
  cbn [fst] in Hout. rewrite Open_write in Hout.
  assert (Hfile : os.Open (cmd.writeDataAsMarkdown fs "report.md" [row0] []).1 "report.md"
                  = Some (table_row [9; 9] row0)) by (vm_compute; reflexivity).
  rewrite Hfile in Hout. injection Hout as Hout. discriminate Hout.
Qed.

(** C4, amended. For a table of at least two rows, all with the same cell
    count, and with no cell longer than 1000000 bytes, the Markdown file
    holds the introduction, the first row, a separator row, then the other
    rows. In every row, a cell that is the text of a base-10 integer, with
    or without a sign, whose value fits a signed 64-bit [int], is
    right-aligned (padded on the left) to the width of its column, and any
    other cell, an integer beyond 64 bits too, is left-aligned (padded on
    the right). In the separator row, a column whose cell in the second
    row is such an integer of 64 bits has width-1 dashes followed by [:],
    and any other column has as many dashes as its width; both are as long
    as the column is wide. *)
Theorem markdown_alignment fs fs1 outputFileName (T : list (list (list ascii)))
    row0 row1 rest introductionText :
  T = row0 :: row1 :: rest →
  Forall (λ row, length row = length row0) T →
  Forall (Forall (λ cell, len cell ≤ 1000000)) T →
  os.Create fs outputFileName = Some fs1 →
  ∃ ws, cmd.get_columnsWidth T = Returns (ws, None) ∧
    cmd.writeDataAsMarkdown fs outputFileName T introductionText =
      (os.write fs1 outputFileName
         ((if 0 <? len introductionText then introductionText ++ [LF] else []) ++
          table_row ws row0 ++ separator_row ws row1 ++ table_row ws row1 ++
          concat (table_row ws <$> rest)),
       Returns tt) ∧
    (∀ j w data, ws !! j = Some w → row1 !! j = Some data →
       len (separator w data) = w ∧
       (is_int64_text data →
        separator w data = replicate (Z.to_nat (w - 1)) "-"%char ++ [":"%char]) ∧
       (¬ is_int64_text data →
        separator w data = replicate (Z.to_nat w) "-"%char)) ∧
    (∀ row j w data, row ∈ T → ws !! j = Some w → row !! j = Some data →
       is_int64_text data →
       aligned w data = replicate (Z.to_nat (w - len data)) SPACE ++ data ∧
       len (aligned w data) = w) ∧
    (∀ row j w data, row ∈ T → ws !! j = Some w → row !! j = Some data →
       ¬ is_int64_text data →
       aligned w data =
         data ++ replicate (Z.to_nat (w - utf8.RuneCountInString data)) SPACE).
Proof.
  intros HT Hlen Hmax Hcreate.
  destruct (writeDataAsMarkdown_spec fs fs1 outputFileName T row0 row1 rest
              introductionText HT Hlen Hmax Hcreate) as (ws & Hws & Hfits & Hout).
  exists ws. split_and!; [done|done|..].
  - intros j w data Hw Hdata. split_and!.
    + apply len_separator. rewrite Forall_forall in Hfits.
      assert (Hin : row1 ∈ T) by (subst T; right; by left).
      by destruct (Forall2_lookup_lr _ _ _ _ _ _ (Hfits row1 Hin) Hw Hdata).
    + intros Hint%is_integer_spec. unfold separator. by rewrite Hint.
    + intros Hint. unfold separator.
      destruct (is_integer data) eqn:Hb; [|done]. by apply is_integer_spec in Hb.
  - intros row j w data Hin Hw Hdata Hint%is_integer_spec. unfold aligned. rewrite Hint.
    split; [done|]. rewrite Forall_forall in Hfits.
    destruct (Forall2_lookup_lr _ _ _ _ _ _ (Hfits row Hin) Hw Hdata) as [Hle _].
    unfold right_aligned, len in *. rewrite length_app, length_replicate. lia.
  - intros row j w data Hin Hw Hdata Hint. unfold aligned.
    destruct (is_integer data) eqn:Hb; [|done]. by apply is_integer_spec in Hb.
Qed.

Lemma markdown_alignment_witness :
  ∃ ws,
    cmd.writeDataAsMarkdown (one_file "pivot.csv" []) "report.md"
        (map (map str) [["Submitter"; "Total_PRs"]; ["basil"; "1245"];
                        ["MarkEWaite"; "1150"]]%string) (str "# Extract") =
      (os.write (os.write (one_file "pivot.csv" []) "report.md" []) "report.md"
         (text ["# Extract";
                "| Submitter  | Total_PRs |";
                "| ---------- | --------: |";
                "| basil      |      1245 |";
                "| MarkEWaite |      1150 |"]),
       Returns tt) ∧
    ws = [10; 9].
Proof.
  destruct (markdown_alignment (one_file "pivot.csv" [])
              (os.write (one_file "pivot.csv" []) "report.md" []) "report.md"
              (map (map str) [["Submitter"; "Total_PRs"]; ["basil"; "1245"];
                              ["MarkEWaite"; "1150"]]%string)
              (map str ["Submitter"; "Total_PRs"]%string)
              (map str ["basil"; "1245"]%string)
              [map str ["MarkEWaite"; "1150"]%string] (str "# Extract"))
    as (ws & Hws & Hout & _).
  - reflexivity.
  - repeat constructor.
  - repeat constructor; vm_compute; discriminate.
  - reflexivity.
  - exists ws. vm_compute in Hws. injection Hws as <-. split; [|reflexivity].
    rewrite Hout. reflexivity.
Defined.

End markdown.

(** ** encoding/csv: reading what the writer wrote *)

Section csv_round_trip.

Implicit Types (raw line input field tail more : list ascii)
  (fields rem record : list (list ascii)).

Lemma ReadSlice_found raw :
  LF ∈ raw → ∃ line rest, csv.ReadSlice raw = (line ++ [LF], true, rest) ∧ LF ∉ line.
Proof.
  induction raw as [|c raw IH]; intros Hin; [by apply elem_of_nil in Hin|].
  cbn [csv.ReadSlice]. destruct (Ascii.eqb_spec c LF) as [->|Hc].
  - exists [], raw. split; [done|]. apply not_elem_of_nil.
  - apply elem_of_cons in Hin as [?|Hin]; [by subst|].
    destruct (IH Hin) as (line & rest & -> & Hline).
    exists (c :: line), rest. split; [done|].
    intros [?|?]%elem_of_cons; [by subst|done].
Qed.

Lemma ReadSlice_cons c raw line found rest :
  c ≠ LF → csv.ReadSlice raw = (line, found, rest) →
  csv.ReadSlice (c :: raw) = (c :: line, found, rest).
Proof.
  intros Hc H. cbn [csv.ReadSlice]. destruct (Ascii.eqb_spec c LF); [done|]. by rewrite H.
Qed.

Lemma readLine_found raw line rest :
  csv.ReadSlice raw = (line, true, rest) →
  csv.readLine raw = (csv.normalizeCRLF line, None, rest).
Proof.
  intros H. unfold csv.readLine. rewrite H.
  rewrite bool_decide_eq_false_2 by done. by rewrite andb_false_r.
Qed.

Lemma normalizeCRLF_cons c line :
  c ≠ CR → csv.normalizeCRLF (c :: line) = c :: csv.normalizeCRLF line.
Proof.
  intros Hc. cbn [csv.normalizeCRLF]. destruct line as [|c' [|c'' line]]; [done| |done].
  destruct (Ascii.eqb_spec c CR); [done|]. done.
Qed.

Lemma normalizeCRLF_CR c line :
  c ≠ LF → csv.normalizeCRLF (CR :: c :: line) = CR :: csv.normalizeCRLF (c :: line).
Proof.
  intros Hc. destruct line as [|c' line]; [|done].
  cbn [csv.normalizeCRLF]. by destruct (Ascii.eqb_spec c LF).
Qed.

Lemma normalizeCRLF_nonempty line : line ≠ [] → csv.normalizeCRLF line ≠ [].
Proof.
  intros Hne. destruct line as [|a rest]; [done|]. cbn [csv.normalizeCRLF].
  destruct rest as [|b [|c rest]]; try done. by destruct (_ && _).
Qed.

(** The line that [readLine] returns when the input holds a line feed. *)
Lemma readLine_LF raw : csv.readLine (LF :: raw) = ([LF], None, raw).
Proof. done. Qed.

Lemma readLine_CRLF raw : csv.readLine (CR :: LF :: raw) = ([LF], None, raw).
Proof. done. Qed.

Lemma readLine_cons c raw :
  c ≠ LF → c ≠ CR → LF ∈ raw →
  ∃ line input, csv.readLine raw = (line, None, input) ∧ line ≠ [] ∧
                csv.readLine (c :: raw) = (c :: line, None, input).
Proof.
  intros Hc Hcr Hin. destruct (ReadSlice_found raw Hin) as (l & rest & Hslice & _).
  exists (csv.normalizeCRLF (l ++ [LF])), rest. split_and!.
  - by apply readLine_found.
  - apply normalizeCRLF_nonempty. by destruct l.
  - rewrite <- normalizeCRLF_cons by done. apply readLine_found.
    by apply ReadSlice_cons.
Qed.

Lemma readLine_CR c raw :
  c ≠ LF → LF ∈ raw →
  ∃ line input, csv.readLine (c :: raw) = (line, None, input) ∧ line ≠ [] ∧
                csv.readLine (CR :: c :: raw) = (CR :: line, None, input).
Proof.
  intros Hc Hin.
  destruct (ReadSlice_found raw Hin) as (l & rest & Hslice & _).
  assert (Hs : csv.ReadSlice (c :: raw) = (c :: l ++ [LF], true, rest))
    by by apply ReadSlice_cons.
  exists (csv.normalizeCRLF (c :: l ++ [LF])), rest. split_and!.
  - by apply readLine_found.
  - by apply normalizeCRLF_nonempty.
  - rewrite <- normalizeCRLF_CR by done. apply readLine_found.
    by apply ReadSlice_cons.
Qed.

Lemma cut_cons c x line :
  x ≠ c →
  csv.cut c (x :: line) =
    match csv.cut c line with
    | Some (before, after) => Some (x :: before, after)
    | None => None
    end.
Proof. intros Hx. cbn. by destruct (Ascii.eqb_spec x c). Qed.

(** Inside a quoted field, a byte that is no quote and does not end the
    line only joins the field. *)
Lemma parseField_quoted_byte fuel acc c line input fields :
  c ≠ DQUOTE → line ≠ [] →
  csv.parseField (S fuel) (csv.InQuoted acc) (c :: line) input fields =
  csv.parseField (S fuel) (csv.InQuoted (acc ++ [c])) line input fields.
Proof.
  intros Hc Hline. cbn [csv.parseField]. rewrite cut_cons by done.
  destruct (csv.cut DQUOTE line) as [[before after]|].
  - by replace ((acc ++ [c]) ++ before) with (acc ++ c :: before)
      by (by rewrite <- app_assoc).
  - destruct line as [|c' line]; [done|].
    by replace ((acc ++ [c]) ++ c' :: line) with (acc ++ c :: c' :: line)
      by (by rewrite <- app_assoc).
Qed.

Lemma crlf_to_lf_cons c field :
  c ≠ CR → crlf_to_lf (c :: field) = c :: crlf_to_lf field.
Proof.
  intros Hc. cbn [crlf_to_lf]. destruct field as [|c' field]; [done|].
  by destruct (Ascii.eqb_spec c CR).
Qed.

Lemma crlf_to_lf_CR field :
  head field ≠ Some LF → crlf_to_lf (CR :: field) = CR :: crlf_to_lf field.
Proof.
  intros Hc. cbn [crlf_to_lf]. destruct field as [|c' field]; [done|].
  destruct (Ascii.eqb_spec c' LF) as [->|]; [done|]. by rewrite andb_false_r.
Qed.

Lemma after_field_LF tail rem more : after_field tail rem more → LF ∈ tail.
Proof.
  intros [[-> _]|(raw & -> & Hin & _)]; [by left|by right].
Qed.

Lemma writeQuoted_LF field tail : LF ∈ tail → LF ∈ csv.writeQuoted field ++ DQUOTE :: tail.
Proof. intros Hin. apply elem_of_app. right. by right. Qed.

(** The first byte of the body of a quoted field and of what follows. *)
Lemma writeQuoted_head field tail :
  ∃ x raw, csv.writeQuoted field ++ DQUOTE :: tail = x :: raw ∧
           (x = LF → head field = Some LF).
Proof.
  destruct field as [|d field].
  - exists DQUOTE, tail. split; [done|]. discriminate.
  - cbn [csv.writeQuoted]. destruct (Ascii.eqb_spec d DQUOTE) as [->|Hd].
    + eexists DQUOTE, _. split; [done|]. discriminate.
    + eexists d, _. split; [done|]. by intros ->.
Qed.

(** The body of a quoted field, read up to its closing quote and on to the
    end of the record. *)
Lemma parse_quoted tail rem more :
  after_field tail rem more →
  ∀ field acc fields line input fuel,
    csv.readLine (csv.writeQuoted field ++ DQUOTE :: tail) = (line, None, input) →
    length line + length input < fuel →
    csv.parseField fuel (csv.InQuoted acc) line input fields =
      Some (fields ++ (acc ++ crlf_to_lf field) :: rem, None, more).
Proof.
  intros Hafter. pose proof (after_field_LF _ _ _ Hafter) as Htail.
  induction field as [|c field IH]; intros acc fields line input fuel Hline Hfuel.
  - cbn [csv.writeQuoted app] in Hline.
    destruct (readLine_cons DQUOTE tail) as (lt & it & Ht & _ & Hq); [done..|].
    rewrite Hq in Hline. simplify_eq.
    destruct fuel as [|fuel]; [lia|]. cbn [length] in Hfuel.
    cbn [csv.parseField csv.cut]. change (Ascii.eqb DQUOTE DQUOTE) with true. cbn iota.
    rewrite !app_nil_r.
    destruct Hafter as [[-> ->]|(raw & -> & Hraw & Hnext)].
    + rewrite readLine_LF in Ht. by simplify_eq.
    + destruct (readLine_cons COMMA raw) as (lr & ir & Hr & _ & Hc); [done..|].
      rewrite Hc in Ht. simplify_eq.
      change (Ascii.eqb COMMA DQUOTE) with false.
      change (Ascii.eqb COMMA COMMA) with true. cbn iota.
      rewrite (Hnext _ _ _ _ Hr) by (cbn [length] in Hfuel; lia).
      by rewrite <- app_assoc.
  - pose proof (writeQuoted_LF field tail Htail) as Hin.
    destruct (Ascii.eqb_spec c DQUOTE) as [->|Hq].
    { (* a doubled quote *)
      cbn [csv.writeQuoted] in Hline. change (Ascii.eqb DQUOTE DQUOTE) with true in Hline.
      cbn [app] in Hline.
      destruct (readLine_cons DQUOTE (csv.writeQuoted field ++ DQUOTE :: tail))
        as (l2 & i2 & H2 & _ & H2'); [done..|].
      destruct (readLine_cons DQUOTE (DQUOTE :: csv.writeQuoted field ++ DQUOTE :: tail))
        as (l3 & i3 & H3 & _ & H3'); [done|done|by right|].
      rewrite H3' in Hline. rewrite H2' in H3. simplify_eq.
      destruct fuel as [|fuel]; [lia|]. cbn [length] in Hfuel.
      cbn [csv.parseField csv.cut]. change (Ascii.eqb DQUOTE DQUOTE) with true. cbn iota.
      rewrite app_nil_r. rewrite (IH _ _ _ _ _ H2) by lia.
      rewrite crlf_to_lf_cons by done. by rewrite <- app_assoc. }
    assert (Hw : csv.writeQuoted (c :: field) = c :: csv.writeQuoted field).
    { cbn [csv.writeQuoted]. by destruct (Ascii.eqb_spec c DQUOTE). }
    rewrite Hw in Hline. cbn [app] in Hline.
    destruct (Ascii.eqb_spec c LF) as [->|Hlf].
    { (* a line feed: the line ends inside the field *)
      rewrite readLine_LF in Hline. simplify_eq.
      destruct fuel as [|fuel]; [lia|]. cbn [length] in Hfuel.
      cbn [csv.parseField csv.cut]. change (Ascii.eqb LF DQUOTE) with false. cbn iota.
      destruct (ReadSlice_found _ Hin) as (l & rest & Hslice & _).
      pose proof (readLine_found _ _ _ Hslice) as Hnext.
      pose proof (readLine_length _ _ _ _ Hnext) as [Hlen _].
      rewrite Hnext. rewrite (IH _ _ _ _ _ Hnext) by lia.
      rewrite crlf_to_lf_cons by done. by rewrite <- app_assoc. }
    destruct (writeQuoted_head field tail) as (x & raw & Hraw & Hx).
    destruct (Ascii.eqb_spec c CR) as [->|Hcr].
    + destruct (decide (head field = Some LF)) as [Hhead|Hhead].
      * (* a carriage return and a line feed: the reader keeps the line feed *)
        destruct field as [|d field]; [done|]. injection Hhead as ->.
        assert (Hw' : csv.writeQuoted (LF :: field) = LF :: csv.writeQuoted field) by done.
        rewrite Hw' in Hline. cbn [app] in Hline. rewrite readLine_CRLF in Hline.
        rewrite (IH acc fields line input fuel); [done| |done].
        rewrite Hw'. cbn [app]. by rewrite readLine_LF.
      * rewrite Hraw in Hline, Hin.
        assert (x ≠ LF) by (intros ?; by apply Hhead, Hx).
        apply elem_of_cons in Hin as [?|Hin]; [done|].
        destruct (readLine_CR x raw) as (l2 & i2 & H2 & Hl2 & H2'); [done..|].
        rewrite H2' in Hline. simplify_eq.
        destruct fuel as [|fuel]; [lia|]. cbn [length] in Hfuel.
        rewrite parseField_quoted_byte by done.
        rewrite <- Hraw in H2. rewrite (IH _ _ _ _ _ H2) by lia.
        rewrite crlf_to_lf_CR by done. by rewrite <- app_assoc.
    + destruct (readLine_cons c (csv.writeQuoted field ++ DQUOTE :: tail))
        as (l2 & i2 & H2 & Hl2 & H2'); [done..|].
      rewrite H2' in Hline. simplify_eq.
      destruct fuel as [|fuel]; [lia|]. cbn [length] in Hfuel.
      rewrite parseField_quoted_byte by done.
      rewrite (IH _ _ _ _ _ H2) by lia.
      rewrite crlf_to_lf_cons by done. by rewrite <- app_assoc.
Qed.

Lemma not_special field :
  existsb csv.special field = false →
  Forall (λ c, c ≠ LF ∧ c ≠ CR ∧ c ≠ DQUOTE ∧ c ≠ COMMA) field.
Proof.
  induction field as [|c field IH]; intros H; [by constructor|].
  cbn [existsb] in H. apply orb_false_iff in H as [Hc H].
  constructor; [|by apply IH].
  unfold csv.special in Hc. repeat (apply orb_false_iff in Hc as [Hc ?]).
  split_and!; intros ->; done.
Qed.

Lemma unquoted_not_special field :
  csv.fieldNeedsQuotes field = false → existsb csv.special field = false.
Proof.
  unfold csv.fieldNeedsQuotes. destruct field as [|c field]; [done|].
  case_bool_decide; [done|]. by destruct (existsb csv.special (c :: field)).
Qed.

Lemma crlf_to_lf_id field : CR ∉ field → crlf_to_lf field = field.
Proof.
  induction field as [|c field IH]; intros Hcr; [done|].
  apply not_elem_of_cons in Hcr as [Hc Hcr].
  rewrite crlf_to_lf_cons by done. by rewrite IH.
Qed.

Lemma readLine_prefix prefix raw :
  Forall (λ c, c ≠ LF ∧ c ≠ CR ∧ c ≠ DQUOTE ∧ c ≠ COMMA) prefix → LF ∈ raw →
  ∃ line input, csv.readLine raw = (line, None, input) ∧ line ≠ [] ∧
                csv.readLine (prefix ++ raw) = (prefix ++ line, None, input).
Proof.
  intros Hp Hin. induction Hp as [|c prefix (Hlf & Hcr & _) Hp IH].
  - destruct (ReadSlice_found raw Hin) as (l & rest & Hslice & _).
    exists (csv.normalizeCRLF (l ++ [LF])), rest. split_and!.
    + by apply readLine_found.
    + apply normalizeCRLF_nonempty. by destruct l.
    + by apply readLine_found.
  - destruct IH as (line & input & Hraw & Hne & Hline).
    exists line, input. split_and!; [done|done|].
    destruct (readLine_cons c (prefix ++ raw)) as (l2 & i2 & H2 & _ & H2'); [done|done| |].
    { apply elem_of_app. by right. }
    rewrite Hline in H2. by simplify_eq.
Qed.

Lemma cut_None c line : c ∉ line → csv.cut c line = None.
Proof.
  induction line as [|x line IH]; intros Hc; [done|].
  apply not_elem_of_cons in Hc as [Hx Hc].
  rewrite cut_cons by done. by rewrite IH.
Qed.

Lemma cut_app c before after :
  c ∉ before → csv.cut c (before ++ c :: after) = Some (before, after).
Proof.
  induction before as [|x before IH]; intros Hc.
  - cbn. by rewrite Ascii.eqb_refl.
  - apply not_elem_of_cons in Hc as [Hx Hc].
    cbn [app]. rewrite cut_cons by done. by rewrite IH.
Qed.

Lemma has_quote_false field : DQUOTE ∉ field → csv.has_quote field = false.
Proof.
  induction field as [|x field IH]; intros Hc; [done|].
  apply not_elem_of_cons in Hc as [Hx Hc]. cbn.
  destruct (Ascii.eqb_spec x DQUOTE); [done|]. by apply IH.
Qed.

Lemma trimNL_LF field : csv.trimNL (field ++ [LF]) = field.
Proof.
  unfold csv.trimNL, csv.lengthNL. rewrite last_snoc. cbn.
  rewrite length_app. cbn [length].
  replace (length field + 1 - Z.to_nat 1) with (length field) by lia.
  by rewrite take_app_length.
Qed.

(** At the start of a field that does not begin with a quote. *)
Lemma parseField_unquoted fuel line input fields :
  head line ≠ Some DQUOTE →
  csv.parseField (S fuel) csv.AtField line input fields =
    match csv.cut COMMA line with
    | Some (field, line') =>
      if csv.has_quote field then Some (fields, Some csv.ErrBareQuote, input)
      else csv.parseField fuel csv.AtField line' input (fields ++ [field])
    | None =>
      if csv.has_quote (csv.trimNL line) then Some (fields, Some csv.ErrBareQuote, input)
      else Some (fields ++ [csv.trimNL line], None, input)
    end.
Proof.
  intros Hhead. cbn [csv.parseField]. destruct line as [|c line]; [done|].
  destruct (Ascii.eqb_spec c DQUOTE) as [->|]; done.
Qed.

Lemma parse_unquoted tail rem more :
  after_field tail rem more →
  ∀ field fields line input fuel,
    existsb csv.special field = false →
    csv.readLine (field ++ tail) = (line, None, input) →
    length line + length input < fuel →
    csv.parseField fuel csv.AtField line input fields =
      Some (fields ++ field :: rem, None, more).
Proof.
  intros Hafter field fields line input fuel Hfield%not_special Hline Hfuel.
  pose proof (after_field_LF _ _ _ Hafter) as Htail.
  destruct (readLine_prefix field tail Hfield Htail) as (lt & it & Ht & _ & Hline').
  rewrite Hline' in Hline. simplify_eq.
  destruct fuel as [|fuel]; [lia|].
  assert (Hq : DQUOTE ∉ field).
  { intros Hin. rewrite Forall_forall in Hfield. by destruct (Hfield _ Hin) as (_ & _ & ? & _). }
  assert (Hc : COMMA ∉ field).
  { intros Hin. rewrite Forall_forall in Hfield. by destruct (Hfield _ Hin) as (_ & _ & _ & ?). }
  destruct Hafter as [[-> ->]|(raw & -> & Hraw & Hnext)].
  - rewrite readLine_LF in Ht. simplify_eq.
    rewrite parseField_unquoted.
    2: { destruct field as [|c field]; [done|]. cbn. intros [= ->]. apply Hq. by left. }
    rewrite cut_None.
    2: { intros [?|[?|?]%elem_of_cons]%elem_of_app; [done|done|by eapply elem_of_nil]. }
    rewrite trimNL_LF. by rewrite has_quote_false.
  - destruct (readLine_cons COMMA raw) as (lr & ir & Hr & _ & Hcomma); [done..|].
    rewrite Hcomma in Ht. simplify_eq.
    rewrite parseField_unquoted.
    2: { destruct field as [|c field]; [done|]. cbn. intros [= ->]. apply Hq. by left. }
    rewrite cut_app by done. rewrite has_quote_false by done.
    rewrite (Hnext _ _ _ _ Hr).
    + by rewrite <- app_assoc.
    + rewrite length_app in Hfuel. cbn [length] in Hfuel. lia.
Qed.

(** One field, quoted or not, read on to the end of the record. *)
Lemma parse_field tail rem more :
  after_field tail rem more →
  ∀ field fields line input fuel,
    csv.readLine (csv.writeField field ++ tail) = (line, None, input) →
    length line + length input < fuel →
    csv.parseField fuel csv.AtField line input fields =
      Some (fields ++ crlf_to_lf field :: rem, None, more).
Proof.
  intros Hafter field fields line input fuel Hline Hfuel.
  pose proof (after_field_LF _ _ _ Hafter) as Htail.
  unfold csv.writeField in Hline.
  destruct (csv.fieldNeedsQuotes field) eqn:Hquotes.
  - rewrite <- !app_assoc in Hline. cbn [app] in Hline.
    destruct (readLine_cons DQUOTE (csv.writeQuoted field ++ DQUOTE :: tail))
      as (l2 & i2 & H2 & _ & H2'); [done|done|by apply writeQuoted_LF|].
    rewrite H2' in Hline. simplify_eq.
    destruct fuel as [|fuel]; [lia|]. cbn [length] in Hfuel.
    cbn [csv.parseField]. change (Ascii.eqb DQUOTE DQUOTE) with true. cbn iota.
    by rewrite (parse_quoted _ _ _ Hafter _ _ _ _ _ _ H2) by lia.
  - apply unquoted_not_special in Hquotes.
    rewrite (parse_unquoted _ _ _ Hafter field fields line input fuel) by done.
    rewrite crlf_to_lf_id; [done|].
    intros Hin. apply not_special in Hquotes. rewrite Forall_forall in Hquotes.
    by destruct (Hquotes _ Hin) as (_ & ? & _).
Qed.

Lemma writeFields_S n record : csv.writeFields (S n) record = csv.writeFields 1 record.
Proof.
  revert n. induction record as [|field record IH]; intros n; [done|].
  cbn [csv.writeFields]. by rewrite (IH (S n)), (IH 1).
Qed.

Lemma writeFields_LF n record more : LF ∈ csv.writeFields n record ++ LF :: more.
Proof. apply elem_of_app. right. by left. Qed.

(** The other fields of a record, as the writer lays them out. *)
Lemma after_written rem more :
  after_field (csv.writeFields 1 rem ++ LF :: more) (crlf_to_lf <$> rem) more.
Proof.
  induction rem as [|field rem IH]; [by left|]. right.
  exists (csv.writeField field ++ csv.writeFields 1 rem ++ LF :: more). split_and!.
  - cbn [csv.writeFields]. rewrite writeFields_S. cbn. by rewrite <- !app_assoc.
  - apply elem_of_app. right. apply writeFields_LF.
  - intros fields line input fuel Hline Hfuel.
    by rewrite (parse_field _ _ _ IH field fields line input fuel).
Qed.

Lemma lengthNL_le line : (csv.lengthNL line ≤ 1)%Z.
Proof. unfold csv.lengthNL. destruct (last line) as [c|]; [destruct (Ascii.eqb c LF)|]; lia. Qed.

(** A line of at least two bytes is not skipped as empty. *)
Lemma nextLine_first fuel raw c line input :
  csv.readLine raw = (c :: line, None, input) → line ≠ [] →
  csv.nextLine fuel raw = (c :: line, None, input).
Proof.
  intros Hline Hne.
  assert (Hlen : (len (c :: line) =? csv.lengthNL (c :: line))%Z = false).
  { apply Z.eqb_neq. pose proof (lengthNL_le (c :: line)).
    unfold len. destruct line; [done|]. cbn [length]. lia. }
  destruct fuel; cbn [csv.nextLine]; rewrite Hline, Hlen; by rewrite andb_false_r.
Qed.

(** The first line of a record that is neither empty nor a single empty
    field has at least two bytes. *)
Lemma written_first_line field rem more :
  field :: rem ≠ [[]] →
  ∃ c line input,
    csv.readLine (csv.writeField field ++ csv.writeFields 1 rem ++ LF :: more) =
      (c :: line, None, input) ∧ line ≠ [].
Proof.
  intros Hrec. unfold csv.writeField.
  destruct (csv.fieldNeedsQuotes field) eqn:Hquotes.
  - rewrite <- !app_assoc. cbn [app].
    destruct (readLine_cons DQUOTE
                (csv.writeQuoted field ++ [DQUOTE] ++ csv.writeFields 1 rem ++ LF :: more))
      as (l2 & i2 & _ & Hne & H2); [done|done| |by eauto].
    apply elem_of_app. right. right. apply writeFields_LF.
  - apply unquoted_not_special, not_special in Hquotes.
    destruct field as [|c field].
    + destruct rem as [|g rem]; [done|].
      cbn [csv.writeFields app Nat.ltb Nat.leb]. rewrite <- app_assoc.
      destruct (readLine_cons COMMA (csv.writeField g ++ csv.writeFields 2 rem ++ LF :: more))
        as (l2 & i2 & _ & Hne & H2); [done|done| |by eauto].
      apply elem_of_app. right. apply writeFields_LF.
    + apply Forall_cons in Hquotes as [(Hlf & Hcr & _) Hfield].
      destruct (readLine_prefix field (csv.writeFields 1 rem ++ LF :: more) Hfield)
        as (lt & it & _ & Hne & Ht); [apply writeFields_LF|].
      destruct (readLine_cons c (field ++ csv.writeFields 1 rem ++ LF :: more))
        as (l2 & i2 & H2 & Hne2 & H2'); [done|done| |].
      { apply elem_of_app. right. apply writeFields_LF. }
      cbn [app]. by eauto.
Qed.

(** A record that the writer wrote is read back, with every [\r\n] of a
    field turned into [\n]. *)
Lemma parseRecord_written record more :
  record ≠ [] → record ≠ [[]] →
  csv.parseRecord (csv.writeFields 0 record ++ LF :: more) =
    (crlf_to_lf <$> record, None, more).
Proof.
  intros Hne Hrec. destruct record as [|field rem]; [done|].
  cbn [csv.writeFields Nat.ltb Nat.leb app]. rewrite <- app_assoc.
  destruct (written_first_line field rem more Hrec) as (c & line & input & Hline & Hl).
  unfold csv.parseRecord. rewrite (nextLine_first _ _ _ _ _ Hline Hl).
  by rewrite (parse_field _ _ _ (after_written rem more) field [] _ _ _ Hline) by lia.
Qed.

(** A blank line is skipped. *)
Lemma parseRecord_blank raw : csv.parseRecord (LF :: raw) = csv.parseRecord raw.
Proof. done. Qed.

Lemma file_table_step input record rest :
  csv.parseRecord input = (record, None, rest) →
  file_table input = (record ::.) <$> file_table rest.
Proof.
  intros Hparse. unfold file_table at 1.
  rewrite ReadAll_unfold, readRecord_unbounded by lia. rewrite Hparse.
  rewrite bool_decide_eq_false_2 by done. unfold file_table.
  by destruct (csv.ReadAll _) as [[recs [e|]] r2].
Qed.

Lemma WriteAll_written w (T : list (list (list ascii))) : csv.WriteAll w T = w ++ written T.
Proof.
  revert w. induction T as [|record T IH]; intros w.
  - cbn. by rewrite app_nil_r.
  - cbn [csv.WriteAll foldl]. fold (csv.WriteAll (csv.Write w record) T).
    rewrite IH. unfold csv.Write, written. cbn [fmap list_fmap concat].
    by rewrite <- !app_assoc.
Qed.

Lemma file_table_written (T : list (list (list ascii))) :
  Forall (λ record, record ≠ [] ∧ record ≠ [[]]) T →
  file_table (written T) = Some ((λ record, crlf_to_lf <$> record) <$> T).
Proof.
  induction 1 as [|record T [Hne Hrec] _ IH]; [done|].
  unfold written. cbn [fmap list_fmap concat]. fold (written T).
  rewrite <- app_assoc. cbn [app].
  rewrite (file_table_step _ _ _ (parseRecord_written record (written T) Hne Hrec)).
  by rewrite IH.
Qed.

End csv_round_trip.

(** ** writeCSVtoFile, then checkFile *)

Section write_then_check.

Implicit Types (hdr row record : list (list ascii)) (rows T : list (list (list ascii))).

Lemma is_digit_not_CR c : is_digit c = true → c ≠ CR.
Proof. intros H ->. by vm_compute in H. Qed.

Lemma month_regexp_crlf s :
  regexp.month_regexp s = true → regexp.month_regexp (crlf_to_lf s) = true.
Proof.
  induction s as [|c s IH]; [done|].
  cbn [regexp.month_regexp]. intros [H|H]%orb_true_iff.
  - unfold regexp.month_here in H.
    destruct s as [|c2 [|d1 [|d2 [|c3 [|d3 [|d4 post]]]]]]; try done.
    repeat (apply andb_prop in H as [H ?]).
    repeat match goal with
           | Hc : Ascii.eqb _ _ = true |- _ => apply Ascii.eqb_eq in Hc; subst
           end.
    rewrite !crlf_to_lf_cons by (done || by apply is_digit_not_CR).
    cbn [regexp.month_regexp regexp.month_here]. apply orb_true_iff. left.
    by repeat match goal with Hb : is_digit _ = true |- _ => rewrite Hb; clear Hb end.
  - specialize (IH H). cbn [crlf_to_lf]. destruct s as [|c' s]; [done|].
    destruct (_ && _); [done|].
    cbn [regexp.month_regexp]. apply orb_true_iff. by right.
Qed.

Lemma digits_value_digits s : ∀ n v,
  digits_value s n = Some v → Forall (λ c, is_digit c = true) s.
Proof.
  induction s as [|c s IH]; intros n v H; [by constructor|].
  simpl in H. destruct (is_digit c) eqn:Hc; [|done].
  constructor; [done|by eapply IH].
Qed.

Lemma digits_no_CR s : Forall (λ c, is_digit c = true) s → CR ∉ s.
Proof.
  intros H Hin. rewrite Forall_forall in H. by apply H in Hin.
Qed.

Lemma integer_no_CR cell : (strconv.Atoi cell).2 = None → CR ∉ cell.
Proof.
  intros (v & Hv & _)%Atoi_ok_iff. unfold base10_integer in Hv.
  destruct cell as [|c s]; [done|].
  destruct (Ascii.eqb_spec c "+") as [->|_].
  { destruct s; [done|]. apply not_elem_of_cons. split; [done|].
    by eapply digits_no_CR, digits_value_digits. }
  destruct (Ascii.eqb_spec c "-") as [->|_].
  { destruct s; [done|]. apply not_elem_of_cons. split; [done|].
    destruct (digits_value _ 0) eqn:Hd; [|done].
    by eapply digits_no_CR, digits_value_digits. }
  by eapply digits_no_CR, digits_value_digits.
Qed.

Lemma name_exp_no_CR id : regexp.name_exp id = true → CR ∉ id.
Proof.
  unfold regexp.name_exp. destruct id as [|c id]; [done|].
  intros H Hin. rewrite forallb_forall in H.
  apply list_elem_of_In, H in Hin. by vm_compute in Hin.
Qed.

(** A data line that [checkFile] lets through holds no carriage return:
    it is read back as it was written. *)
Lemma crlf_to_lf_cells (cells : list (list ascii)) :
  Forall (λ cell, CR ∉ cell) cells → crlf_to_lf <$> cells = cells.
Proof.
  induction 1 as [|cell cells Hcell _ IH]; [done|].
  cbn [fmap list_fmap] in *. by rewrite crlf_to_lf_id, IH.
Qed.

Lemma data_line_ok_crlf row : data_line_ok row = true → crlf_to_lf <$> row = row.
Proof.
  destruct row as [|id counts]; [done|]. cbn [data_line_ok].
  intros [[_ Hid]%andb_prop Hcounts]%andb_prop.
  apply crlf_to_lf_cells. constructor; [by apply name_exp_no_CR|].
  rewrite forallb_forall in Hcounts. apply Forall_forall.
  intros c Hc%list_elem_of_In. apply integer_no_CR.
  apply Hcounts in Hc. by apply bool_decide_eq_true in Hc.
Qed.

(** A table that [checkFile] lets through is still let through once every
    [\r\n] of its cells has become [\n]. *)
Lemma checkTable_crlf v v' fileName fileName' hdr rows :
  (checkTable v fileName hdr rows).2 = Returns true →
  (checkTable v' fileName' (crlf_to_lf <$> hdr)
     ((λ record, crlf_to_lf <$> record) <$> rows)).2 = Returns true.
Proof.
  rewrite !checkTable_true. intros ((periods & -> & Hperiods) & Hlen & Hrows).
  split_and!.
  - exists (crlf_to_lf <$> periods). split; [done|].
    apply Forall_fmap. eapply Forall_impl; [done|]. intros s. apply month_regexp_crlf.
  - apply Forall_fmap. eapply Forall_impl; [done|]. intros row Hrow. cbn.
    by rewrite !length_fmap in *.
  - destruct rows as [|first rows]; [done|]. cbn [tail fmap list_fmap] in *.
    rewrite forallb_forall in Hrows. apply forallb_forall.
    intros row [r [-> Hr]]%list_elem_of_In%list_elem_of_fmap.
    rewrite data_line_ok_crlf; by apply Hrows, list_elem_of_In.
Qed.

Lemma writeCSVtoFile_written fs outputFileName T fs' :
  cmd.writeCSVtoFile fs outputFileName T = (fs', Returns tt) →
  os.Open fs' outputFileName = Some (written T).
Proof.
  unfold cmd.writeCSVtoFile. destruct (os.Create fs outputFileName); [|done].
  intros [= <-]. by rewrite Open_write, WriteAll_written.
Qed.

(** What [checkFile] does with the first record of the file. *)
Lemma checkFile_no_header v fs fileName content dst err rest :
  os.Open fs fileName = Some content →
  csv.parseRecord content = (dst, err, rest) →
  (err ≠ None ∨ ∃ column0 columns, dst = column0 :: columns ∧ column0 ≠ []) →
  (cmd.checkFile v fs fileName).2 = Returns false.
Proof.
  intros Hopen Hparse Hbad. unfold cmd.checkFile. rewrite Hopen.
  unfold csv.Read, csv.NewReader, csv.readRecord.
  cbn [csv.r_input csv.FieldsPerRecord]. rewrite Hparse.
  case_bool_decide as Heof; [done|]. cbn [Z.ltb Z.eqb Z.compare].
  destruct err as [e|]; [done|].
  destruct Hbad as [?|(column0 & columns & -> & Hne)]; [done|].
  by rewrite bool_decide_eq_false_2.
Qed.

Lemma crlf_to_lf_nonempty field : field ≠ [] → crlf_to_lf field ≠ [].
Proof.
  induction field as [|c field IH]; [done|]. intros _. cbn [crlf_to_lf].
  destruct field as [|c' field]; [done|]. destruct (_ && _); [by apply IH|done].
Qed.



(** X2. A table of at least two columns that [checkFile] accepted is still
    accepted after [writeCSVtoFile] has written it: on the written file
    [checkFile] returns [true]. *)
Theorem round_trip_accepted v v' fs fileName content hdr rows outputFileName fs' :
  os.Open fs fileName = Some content →
  file_table content = Some (hdr :: rows) →
  (cmd.checkFile v fs fileName).2 = Returns true →
  2 ≤ length hdr →
  cmd.writeCSVtoFile fs outputFileName (hdr :: rows) = (fs', Returns tt) →
  (cmd.checkFile v' fs' outputFileName).2 = Returns true.
Proof.
  intros Hopen Htable Hcheck Hcols Hwrite.
  rewrite (checkFile_table _ _ _ _ _ _ Hopen Htable) in Hcheck.
  pose proof Hcheck as (_ & Hlen & _)%checkTable_true.
  assert (HT : Forall (λ record, record ≠ [] ∧ record ≠ [[]]) (hdr :: rows)).
  { constructor.
    - split; intros ->; simpl in Hcols; lia.
    - eapply Forall_impl; [done|]. intros row Hrow. cbn in Hrow.
      split; intros ->; simpl in Hrow; lia. }
  rewrite (checkFile_table v' fs' outputFileName (written (hdr :: rows))
             (crlf_to_lf <$> hdr) ((λ record, crlf_to_lf <$> record) <$> rows)).
  - by eapply checkTable_crlf.
  - by eapply writeCSVtoFile_written.
  - by rewrite file_table_written.
Qed.

Lemma round_trip_accepted_witness :
  (cmd.checkFile false
     (cmd.writeCSVtoFile
        (one_file "pivot.csv" (text [",2023-01"; "basil,12"; "timja,-3"])) "out.csv"
        (map (map str) [[""; "2023-01"]; ["basil"; "12"]; ["timja"; "-3"]]%string)).1
     "out.csv").2 = Returns true.
Proof.
  apply (round_trip_accepted false false
           (one_file "pivot.csv" (text [",2023-01"; "basil,12"; "timja,-3"]))
           "pivot.csv" (text [",2023-01"; "basil,12"; "timja,-3"])
           (map str [""; "2023-01"]%string)
           (map (map str) [["basil"; "12"]; ["timja"; "-3"]]%string) "out.csv").
  - vm_compute; reflexivity.
  - vm_compute; reflexivity.
  - vm_compute; reflexivity.
  - simpl; lia.
  - reflexivity.
Defined.

(** X3. A table of one column that [checkFile] accepted is refused after
    [writeCSVtoFile] has written it: the writer lays the header, a single
    empty field, as an empty line, which the reader skips. *)
Theorem round_trip_single_column v v' fs fileName content hdr rows outputFileName fs' :
  os.Open fs fileName = Some content →
  file_table content = Some (hdr :: rows) →
  (cmd.checkFile v fs fileName).2 = Returns true →
  length hdr = 1 →
  cmd.writeCSVtoFile fs outputFileName (hdr :: rows) = (fs', Returns tt) →
  (cmd.checkFile v' fs' outputFileName).2 = Returns false.
Proof.
  intros Hopen Htable Hcheck Hcols Hwrite.
  rewrite (checkFile_table _ _ _ _ _ _ Hopen Htable) in Hcheck.
  apply checkTable_true in Hcheck as ((periods & -> & _) & Hlen & Hrows).
  destruct periods; [|done]. clear Hcols.
  apply writeCSVtoFile_written in Hwrite.
  assert (Hsingle : ∀ x more, x ≠ [] →
    csv.parseRecord (csv.writeFields 0 [x] ++ LF :: more) = ([crlf_to_lf x], None, more)).
  { intros x more Hx. by rewrite parseRecord_written by (intros [=]; done). }
  assert (Hone : ∀ row, length row = 1 → ∃ x, row = [x]).
  { intros [|x [|]] ?; try done. by exists x. }
  unfold written in Hwrite. cbn [fmap list_fmap concat] in Hwrite.
  change (csv.writeFields 0 [[]] ++ [LF]) with [LF] in Hwrite. cbn [app] in Hwrite.
  fold (written rows) in Hwrite.
  destruct rows as [|first rows].
  { by eapply (checkFile_no_header v' fs' outputFileName _ [] (Some csv.EOF) []); eauto. }
  apply Forall_cons in Hlen as [Hfirst Hlen]. destruct (Hone first Hfirst) as [x ->].
  cbn [tail] in Hrows.
  unfold written in Hwrite. cbn [fmap list_fmap concat] in Hwrite. fold (written rows) in Hwrite.
  rewrite <- app_assoc in Hwrite. cbn [app] in Hwrite.
  destruct (decide (x = [])) as [->|Hx].
  - change (csv.writeFields 0 [[]]) with (@nil ascii) in Hwrite. cbn [app] in Hwrite.
    destruct rows as [|second rows].
    { by eapply (checkFile_no_header v' fs' outputFileName _ [] (Some csv.EOF) []); eauto. }
    apply Forall_cons in Hlen as [Hsecond Hlen]. destruct (Hone second Hsecond) as [y ->].
    cbn [forallb] in Hrows. apply andb_prop in Hrows as [Hy _].
    assert (Hyne : y ≠ []).
    { intros ->. by vm_compute in Hy. }
    unfold written in Hwrite. cbn [fmap list_fmap concat] in Hwrite. fold (written rows) in Hwrite.
    rewrite <- app_assoc in Hwrite. cbn [app] in Hwrite.
    eapply (checkFile_no_header v' fs' outputFileName _ [crlf_to_lf y] None); [done| |].
    + rewrite !parseRecord_blank. by apply Hsingle.
    + right. eexists _, _. split; [done|]. by apply crlf_to_lf_nonempty.
  - eapply (checkFile_no_header v' fs' outputFileName _ [crlf_to_lf x] None); [done| |].
    + rewrite parseRecord_blank. by apply Hsingle.
    + right. eexists _, _. split; [done|]. by apply crlf_to_lf_nonempty.
Qed.

Lemma round_trip_single_column_witness :
  (cmd.checkFile false (one_file "pivot.csv" [DQUOTE; DQUOTE; LF]) "pivot.csv").2 =
    Returns true ∧
  (cmd.checkFile false
     (cmd.writeCSVtoFile (one_file "pivot.csv" [DQUOTE; DQUOTE; LF]) "out.csv" [[[]]]).1
     "out.csv").2 = Returns false.
Proof.
  split; [vm_compute; reflexivity|].
  apply (round_trip_single_column false false
           (one_file "pivot.csv" [DQUOTE; DQUOTE; LF]) "pivot.csv"
           [DQUOTE; DQUOTE; LF] [[]] [] "out.csv").
  - vm_compute; reflexivity.
  - vm_compute; reflexivity.
  - vm_compute; reflexivity.
  - reflexivity.
  - reflexivity.
Defined.

(** C9, as the specification states it, does not hold: the table whose
    header is its single empty cell is accepted, [writeCSVtoFile] writes
    this header as an empty line, the reader skips it, and [checkFile]
    refuses the written file. *)
Lemma single_column_counterexample :
  ¬ (∀ v fs fileName content hdr rows outputFileName fs',
       os.Open fs fileName = Some content →
       file_table content = Some (hdr :: rows) →
       (cmd.checkFile v fs fileName).2 = Returns true →
       cmd.writeCSVtoFile fs outputFileName (hdr :: rows) = (fs', Returns tt) →
       (cmd.checkFile v fs' outputFileName).2 = (cmd.checkFile v fs fileName).2).
Proof.
  intros H.
  specialize (H false (one_file "pivot.csv" [DQUOTE; DQUOTE; LF]) "pivot.csv"%string
                [DQUOTE; DQUOTE; LF] [[]] [] "out.csv"%string
                (cmd.writeCSVtoFile (one_file "pivot.csv" [DQUOTE; DQUOTE; LF])
                   "out.csv" [[[]]]).1).
  assert (Hfalse :
    (cmd.checkFile false
       (cmd.writeCSVtoFile (one_file "pivot.csv" [DQUOTE; DQUOTE; LF]) "out.csv" [[[]]]).1
       "out.csv").2 = Returns false) by (vm_compute; reflexivity).
  assert (Htrue :
    (cmd.checkFile false (one_file "pivot.csv" [DQUOTE; DQUOTE; LF]) "pivot.csv").2 =
      Returns true) by (vm_compute; reflexivity).
  rewrite H, Htrue in Hfalse; [discriminate Hfalse|vm_compute; reflexivity..].
Qed.

(** C9, amended. For a table that [checkFile] accepts and whose header has
    at least two cells, [checkFile] gives on the file that
    [writeCSVtoFile] writes for this table the verdict it gave on the
    original file. *)
Theorem round_trip_verdict v fs fileName content hdr rows outputFileName fs' :
  os.Open fs fileName = Some content →
  file_table content = Some (hdr :: rows) →
  (cmd.checkFile v fs fileName).2 = Returns true →
  2 ≤ length hdr →
  cmd.writeCSVtoFile fs outputFileName (hdr :: rows) = (fs', Returns tt) →
  (cmd.checkFile v fs' outputFileName).2 = (cmd.checkFile v fs fileName).2.
Proof.
  intros Hopen Htable Hcheck Hcols Hwrite. rewrite Hcheck.
  rewrite (checkFile_table _ _ _ _ _ _ Hopen Htable) in Hcheck.
  pose proof Hcheck as (_ & Hlen & _)%checkTable_true.
  assert (HT : Forall (λ record, record ≠ [] ∧ record ≠ [[]]) (hdr :: rows)).
  { constructor.
    - split; intros ->; simpl in Hcols; lia.
    - eapply Forall_impl; [done|]. intros row Hrow. cbn in Hrow.
      split; intros ->; simpl in Hrow; lia. }
  rewrite (checkFile_table v fs' outputFileName (written (hdr :: rows))
             (crlf_to_lf <$> hdr) ((λ record, crlf_to_lf <$> record) <$> rows)).
  - by eapply checkTable_crlf.
  - by eapply writeCSVtoFile_written.
  - by rewrite file_table_written.
Qed.

Lemma round_trip_verdict_witness :
  (cmd.checkFile true
     (cmd.writeCSVtoFile
        (one_file "pivot.csv" (text [",2023-01,2023-02"; "basil,12,0"; "daniel-beck,+7,-3"]))
        "out.csv"
        (map (map str) [[""; "2023-01"; "2023-02"]; ["basil"; "12"; "0"];
                        ["daniel-beck"; "+7"; "-3"]]%string)).1
     "out.csv").2 =
  (cmd.checkFile true
     (one_file "pivot.csv" (text [",2023-01,2023-02"; "basil,12,0"; "daniel-beck,+7,-3"]))
     "pivot.csv").2.
Proof.
  apply (round_trip_verdict true
           (one_file "pivot.csv" (text [",2023-01,2023-02"; "basil,12,0"; "daniel-beck,+7,-3"]))
           "pivot.csv" (text [",2023-01,2023-02"; "basil,12,0"; "daniel-beck,+7,-3"])
           (map str [""; "2023-01"; "2023-02"]%string)
           (map (map str) [["basil"; "12"; "0"]; ["daniel-beck"; "+7"; "-3"]]%string)
           "out.csv").
  - vm_compute; reflexivity.
  - vm_compute; reflexivity.
  - vm_compute; reflexivity.
  - simpl; lia.
  - reflexivity.
Defined.

End write_then_check.

(** ** checkFile on any file *)

Section check_any_file.

Implicit Types (hdr row : list (list ascii)) (rows : list (list (list ascii))).

Lemma file_table_eof input dst rest :
  csv.parseRecord input = (dst, Some csv.EOF, rest) → file_table input = Some [].
Proof.
  intros Hparse. unfold file_table.
  rewrite ReadAll_unfold, readRecord_unbounded by lia. by rewrite Hparse.
Qed.

Lemma file_table_error input dst e rest :
  csv.parseRecord input = (dst, Some e, rest) → e ≠ csv.EOF → file_table input = None.
Proof.
  intros Hparse He. unfold file_table.
  rewrite ReadAll_unfold, readRecord_unbounded by lia. rewrite Hparse.
  by destruct e.
Qed.

(** One step of [ReadAll] under a positive [FieldsPerRecord]. *)
Lemma ReadAll_counted_step k input dst e rest :
  (0 < k)%Z →
  csv.parseRecord input = (dst, e, rest) →
  csv.ReadAll (csv.mkReader input k) =
    match e with
    | Some csv.EOF => ([], None, csv.mkReader rest k)
    | Some e' => ([], Some e', csv.mkReader rest k)
    | None =>
      if (len dst =? k)%Z then
        let '(recs, err, r2) := csv.ReadAll (csv.mkReader rest k) in
        (match err with None => dst :: recs | Some _ => [] end, err, r2)
      else ([], Some csv.ErrFieldCount, csv.mkReader rest k)
    end.
Proof.
  intros Hk Hparse. rewrite ReadAll_unfold. unfold csv.readRecord.
  cbn [csv.r_input csv.FieldsPerRecord]. rewrite Hparse.
  destruct (Z.ltb_spec 0 k); [|lia].
  destruct e as [e|].
  - rewrite andb_false_r. by destruct e.
  - rewrite bool_decide_eq_false_2 by done. rewrite bool_decide_eq_true_2 by done.
    rewrite andb_true_r. by destruct (len dst =? k)%Z.
Qed.

(** When [ReadAll] returns without error under a positive
    [FieldsPerRecord], the file holds the table it returns. *)
Lemma ReadAll_counted_table k records : ∀ input r',
  (0 < k)%Z →
  csv.ReadAll (csv.mkReader input k) = (records, None, r') →
  file_table input = Some records.
Proof.
  induction records as [|record records IH]; intros input r' Hk Hall;
    destruct (csv.parseRecord input) as [[dst e] rest] eqn:Hparse;
    rewrite (ReadAll_counted_step k input dst e rest Hk Hparse) in Hall.
  - destruct e as [[]|]; try done; [by eapply file_table_eof|].
    destruct (len dst =? k)%Z; [|done].
    by destruct (csv.ReadAll (csv.mkReader rest k)) as [[recs [e|]] r2].
  - destruct e as [[]|]; try done.
    destruct (len dst =? k)%Z; [|done].
    destruct (csv.ReadAll (csv.mkReader rest k)) as [[recs [e|]] r2] eqn:Hrest; [done|].
    simplify_eq. rewrite (file_table_step _ _ _ Hparse).
    by erewrite IH.
Qed.

(** What [checkFile] needs to return [true]: a table in the file. *)
Lemma checkFile_true_table v fs fileName :
  (cmd.checkFile v fs fileName).2 = Returns true →
  ∃ content hdr rows,
    os.Open fs fileName = Some content ∧ file_table content = Some (hdr :: rows).
Proof.
  unfold cmd.checkFile. destruct (os.Open fs fileName) as [content|] eqn:Hopen; [|done].
  unfold csv.Read, csv.NewReader, csv.readRecord.
  cbn [csv.r_input csv.FieldsPerRecord].
  destruct (csv.parseRecord content) as [[hdr e] rest] eqn:Hparse.
  case_bool_decide; [done|]. cbn [Z.ltb Z.eqb Z.compare].
  destruct e as [e|]; [done|].
  pose proof (parseRecord_spec _ _ _ _ Hparse) as (_ & _ & Hne).
  destruct hdr as [|column0 periods]; [done|].
  destruct (negb _); [done|]. destruct (cmd.check_headings _ _); [done|].
  destruct (csv.ReadAll _) as [[records [e|]] r2] eqn:Hall; [done|].
  intros _. exists content, (column0 :: periods), records. split; [done|].
  rewrite (file_table_step _ _ _ Hparse).
  erewrite ReadAll_counted_table; [done| |done]. unfold len. simpl. lia.
Qed.

(** X4. [checkFile] returns [true] exactly when the file can be opened and
    holds well-formed CSV whose first record has an empty first cell and,
    in every other cell, a match of [20[0-9]{2}-[0-9]{2}], whose other
    records all have as many fields as the first, and whose records from
    the third on have a valid submitter and counts that [strconv.Atoi]
    parses, base-10 integers within 64 bits; the second record
    (the first data row) is not looked at. The verdict does not depend on
    the verbose flag. *)
Theorem checkFile_true_iff v fs fileName :
  (cmd.checkFile v fs fileName).2 = Returns true ↔
  ∃ content hdr rows,
    os.Open fs fileName = Some content ∧
    file_table content = Some (hdr :: rows) ∧
    header_passes hdr ∧
    Forall (λ row, length row = length hdr) rows ∧
    forallb data_line_ok (tail rows) = true.
Proof.
  split.
  - intros Htrue.
    destruct (checkFile_true_table v fs fileName Htrue)
      as (content & hdr & rows & Hopen & Htable).
    exists content, hdr, rows. split_and!; [done|done|..];
      rewrite (checkFile_table _ _ _ _ _ _ Hopen Htable) in Htrue;
      by apply checkTable_true in Htrue as (? & ? & ?).
  - intros (content & hdr & rows & Hopen & Htable & Hhdr & Hlen & Hrows).
    rewrite (checkFile_table _ _ _ _ _ _ Hopen Htable). by apply checkTable_true.
Qed.

(** X5. [checkFile] never panics: the index [firstLine[0]] is always in
    range, because the reader returns no record without a field. It
    returns [true] or [false], and without the verbose flag it prints one
    message, which is the success message exactly when it returns
    [true]. *)
Theorem checkFile_one_message fs fileName :
  ∃ message b,
    cmd.checkFile false fs fileName = ([message], Returns b) ∧
    (b = true ↔ message = cmd.SuccessfullyChecked fileName).
Proof.
  unfold cmd.checkFile. destruct (os.Open fs fileName) as [content|]; [|by eexists _, false].
  unfold csv.Read, csv.NewReader, csv.readRecord.
  cbn [csv.r_input csv.FieldsPerRecord].
  destruct (csv.parseRecord content) as [[hdr e] rest] eqn:Hparse.
  case_bool_decide; [by eexists _, false|]. cbn [Z.ltb Z.eqb Z.compare].
  destruct e as [e|]; [by eexists _, false|].
  pose proof (parseRecord_spec _ _ _ _ Hparse) as (_ & _ & Hne).
  destruct hdr as [|column0 periods]; [by destruct Hne|].
  destruct (negb _); [by eexists _, false|].
  destruct (cmd.check_headings _ _); [by eexists _, false|].
  destruct (csv.ReadAll _) as [[records [e|]] r2]; [by eexists _, false|].
  destruct (cmd.check_records 0 records) as [m|] eqn:Hm.
  - eexists _, false. split; [done|]. split; [done|]. intros ->. exfalso.
    clear -Hm. revert Hm. generalize 0. induction records as [|row records IH]; [done|].
    intros i. cbn [cmd.check_records]. destruct (i =? 0); [apply IH|].
    destruct (cmd.check_dataLine i 0 row) as [m'|] eqn:Hrow; [|apply IH].
    intros [= ->]. revert Hrow. generalize 0.
    induction row as [|cell row IHrow]; [done|].
    intros ii. cbn [cmd.check_dataLine]. by repeat case_match; try apply IHrow.
  - by eexists _, true.
Qed.

End check_any_file.


(** ** [isValidMonth] and [isWithMDfileExtension] *)

Section month_and_extension.

Local Open Scope Z_scope.

Lemma byte_inj c d : byte c = byte d → c = d.
Proof.
  unfold byte. intros H%N2Z.inj.
  by rewrite <- (ascii_N_embedding c), <- (ascii_N_embedding d), H.
Qed.

Lemma upper_byte_inv c u :
  Strings.upper_byte c = u → c = u ∨ (Strings.is_upper u = true ∧ c = Strings.lower_byte u).
Proof.
  intros <-.
  destruct c as [[] [] [] [] [] [] [] []]; vm_compute; (by left) || (right; by split).
Qed.

Lemma lower_byte_inv c l :
  Strings.lower_byte c = l → c = l ∨ (Strings.is_lower l = true ∧ c = Strings.upper_byte l).
Proof.
  intros <-.
  destruct c as [[] [] [] [] [] [] [] []]; vm_compute; (by left) || (right; by split).
Qed.

Lemma upper_byte_id s : existsb Strings.is_lower s = false → Strings.upper_byte <$> s = s.
Proof.
  induction s as [|c s IH]; [done|]. cbn [existsb].
  intros [Hc Hs]%orb_false_iff. cbn [fmap list_fmap]. unfold Strings.upper_byte at 1.
  rewrite Hc. f_equal. by apply IH.
Qed.

Lemma lower_byte_id s : existsb Strings.is_upper s = false → Strings.lower_byte <$> s = s.
Proof.
  induction s as [|c s IH]; [done|]. cbn [existsb].
  intros [Hc Hs]%orb_false_iff. cbn [fmap list_fmap]. unfold Strings.lower_byte at 1.
  rewrite Hc. f_equal. by apply IH.
Qed.

Lemma ToUpper_ascii slow s :
  Strings.isASCII s = true → Strings.ToUpper slow s = Strings.upper_byte <$> s.
Proof.
  intros H. unfold Strings.ToUpper. rewrite H.
  destruct (existsb Strings.is_lower s) eqn:Hlow; [done|].
  cbn [negb]. by rewrite upper_byte_id.
Qed.

Lemma ToLower_ascii slow s :
  Strings.isASCII s = true → Strings.ToLower slow s = Strings.lower_byte <$> s.
Proof.
  intros H. unfold Strings.ToLower. rewrite H.
  destruct (existsb Strings.is_upper s) eqn:Hup; [done|].
  cbn [negb]. by rewrite lower_byte_id.
Qed.

Lemma either_case_spec upper lower c :
  either_case upper lower c = true ↔ c = upper ∨ c = lower.
Proof. unfold either_case. by rewrite orb_true_iff, !Ascii.eqb_eq. Qed.

Lemma latest_any_case_spec month :
  latest_any_case month = true ↔ Strings.upper_byte <$> month = str "LATEST".
Proof.
  split.
  - destruct month as [|c1 [|c2 [|c3 [|c4 [|c5 [|c6 [|]]]]]]]; try done.
    unfold latest_any_case. rewrite !andb_true_iff, !either_case_spec.
    intros [[[[[[-> | ->] [-> | ->]] [-> | ->]] [-> | ->]] [-> | ->]] [-> | ->]];
      reflexivity.
  - destruct month as [|c1 [|c2 [|c3 [|c4 [|c5 [|c6 [|]]]]]]]; try done.
    cbn [fmap list_fmap]. intros H. injection H as H1 H2 H3 H4 H5 H6.
    unfold latest_any_case. rewrite !andb_true_iff, !either_case_spec.
    apply upper_byte_inv in H1 as [->| [_ ->]], H2 as [->| [_ ->]],
      H3 as [->| [_ ->]], H4 as [->| [_ ->]], H5 as [->| [_ ->]], H6 as [->| [_ ->]];
      vm_compute; tauto.
Qed.

Lemma latest_any_case_ascii month :
  latest_any_case month = true → Strings.isASCII month = true.
Proof.
  destruct month as [|c1 [|c2 [|c3 [|c4 [|c5 [|c6 [|]]]]]]]; try done.
  unfold latest_any_case. rewrite !andb_true_iff, !either_case_spec.
  intros [[[[[[-> | ->] [-> | ->]] [-> | ->]] [-> | ->]] [-> | ->]] [-> | ->]];
    reflexivity.
Qed.

(** The pattern of [isValidMonth] at the start of [s]: the first seven
    bytes are a year and month from 2010-01 to 2029-12. *)
Lemma valid_month_here_spec s :
  regexp.valid_month_here s = year_month (take 7 s).
Proof.
  destruct s as [|c1 [|c2 [|y1 [|y2 [|c3 [|m1 [|m2 rest]]]]]]]; try done.
  cbn [firstn]. rewrite take_0. unfold regexp.valid_month_here, year_month.
  destruct (Ascii.eqb c1 "2"); [|done]. destruct (Ascii.eqb c2 "0"); [|done].
  cbn [andb].
  destruct (Ascii.eqb c3 "-"); [|by rewrite !andb_false_r].
  rewrite !andb_true_r.
  apply eq_true_iff_eq.
  rewrite !andb_true_iff, !orb_true_iff, !andb_true_iff, !Ascii.eqb_eq, !is_digit_spec.
  rewrite !Z.leb_le.
  pose proof (byte_range y1). pose proof (byte_range y2).
  pose proof (byte_range m1). pose proof (byte_range m2).
  split.
  - intros [[Hy1 Hy2] Hm].
    assert (byte y1 = 49 ∨ byte y1 = 50) by (destruct Hy1 as [->| ->]; [by left|by right]).
    assert ((byte m1 = 48 ∧ 49 ≤ byte m2 ≤ 57) ∨ (byte m1 = 49 ∧ 48 ≤ byte m2 ≤ 50))
      by (destruct Hm as [[[-> ?] ?]|[[-> ?] ?]]; [left|right]; by split).
    lia.
  - intros [[[[[Hy1 Hy2] Hm1] Hm2] Hyy] Hmm]. split; [split; [|done]|].
    + assert (byte y1 = 49 ∨ byte y1 = 50) as [Hb|Hb] by lia;
        [left|right]; by apply byte_inj.
    + assert ((byte m1 = 48 ∧ 49 ≤ byte m2 ≤ 57) ∨ (byte m1 = 49 ∧ 48 ≤ byte m2 ≤ 50))
        as [[Hb ?]|[Hb ?]] by lia; [left|right];
        (split; [split; [by apply byte_inj|lia]|lia]).
Qed.

Lemma year_month_length ym : year_month ym = true → length ym = 7%nat.
Proof. by destruct ym as [|c1 [|c2 [|y1 [|y2 [|c3 [|m1 [|m2 [|]]]]]]]]. Qed.

Lemma regexpMonth_spec s : regexp.regexpMonth s = true ↔ names_month s.
Proof.
  split.
  - induction s as [|c s IH]; [done|].
    cbn [regexp.regexpMonth]. intros [H|H]%orb_true_iff.
    + rewrite valid_month_here_spec in H.
      exists [], (take 7 (c :: s)), (drop 7 (c :: s)).
      split; [|done]. by rewrite app_nil_l, take_drop.
    + destruct (IH H) as (pre & ym & post & -> & Hym).
      by exists (c :: pre), ym, post.
  - intros (pre & ym & post & -> & Hym).
    induction pre as [|c pre IH].
    + assert (Hhere : regexp.valid_month_here (ym ++ post) = true).
      { rewrite valid_month_here_spec.
        rewrite take_app_length' by (symmetry; by apply year_month_length). done. }
      destruct (ym ++ post); cbn [app regexp.regexpMonth]; by rewrite Hhere.
    + cbn [app regexp.regexpMonth]. apply orb_true_iff. by right.
Qed.

Lemma names_month_nonempty month : names_month month → month ≠ [].
Proof.
  intros (pre & ym & post & -> & Hym) Hnil.
  apply year_month_length in Hym.
  apply (f_equal length) in Hnil. rewrite !length_app in Hnil. simpl in Hnil. lia.
Qed.

(** X6. [isValidMonth] accepts, and prints nothing, for [latest] in any
    letter case and for every text that holds somewhere a year and month
    from 2010-01 to 2029-12: the pattern is not anchored, so the text may
    go on before and after the month. *)
Theorem isValidMonth_accepts slow month isVerbose :
  latest_any_case month = true ∨ names_month month →
  cmd.isValidMonth slow month isVerbose = ([], true).
Proof.
  intros Hok. unfold cmd.isValidMonth.
  assert (Hne : month ≠ []).
  { destruct Hok as [Hl|Hm]; [by destruct month|by apply names_month_nonempty]. }
  rewrite bool_decide_eq_false_2 by done.
  destruct Hok as [Hl|Hm].
  - rewrite ToUpper_ascii by by apply latest_any_case_ascii.
    apply latest_any_case_spec in Hl. by rewrite bool_decide_eq_true_2.
  - apply regexpMonth_spec in Hm. rewrite Hm. cbn [negb].
    by case_bool_decide.
Qed.

Lemma isValidMonth_accepts_witness :
  cmd.isValidMonth (λ s, s) (str "pivot_2023-08.csv") true = ([], true).
Proof.
  apply (isValidMonth_accepts (λ s, s) (str "pivot_2023-08.csv") true).
  right. exists (str "pivot_"), (str "2023-08"), (str ".csv"). by split.
Defined.

(** X7. A month of ASCII bytes that [isValidMonth] accepts is [latest] in
    some letter case, or holds a year and month from 2010-01 to 2029-12.
    (For other texts the answer depends on the case tables of [unicode].) *)
Theorem isValidMonth_ascii slow month isVerbose :
  Strings.isASCII month = true →
  (cmd.isValidMonth slow month isVerbose).2 = true →
  latest_any_case month = true ∨ names_month month.
Proof.
  intros Hascii. unfold cmd.isValidMonth.
  case_bool_decide as Hnil; [by destruct isVerbose|].
  rewrite ToUpper_ascii by done.
  case_bool_decide as Hlatest.
  - intros _. left. by apply latest_any_case_spec.
  - destruct (regexp.regexpMonth month) eqn:Hre; cbn [negb].
    + intros _. right. by apply regexpMonth_spec.
    + by destruct isVerbose.
Qed.

Lemma isValidMonth_ascii_witness :
  latest_any_case (str "LaTeSt") = true ∨ names_month (str "LaTeSt").
Proof.
  apply (isValidMonth_ascii (λ s, s) (str "LaTeSt") false); reflexivity.
Defined.

(** X8. A month that [isValidMonth] accepts for its year and month is a
    column heading that [checkFile] accepts: the pattern of [isValidMonth]
    is the narrower one. *)
Theorem valid_month_is_heading slow month isVerbose :
  (cmd.isValidMonth slow month isVerbose).2 = true →
  Strings.ToUpper slow month ≠ str "LATEST" →
  header_passes [[]; month].
Proof.
  unfold cmd.isValidMonth.
  case_bool_decide as Hnil; [by destruct isVerbose|].
  case_bool_decide as Hlatest; [done|].
  destruct (regexp.regexpMonth month) eqn:Hre; cbn [negb]; [|by destruct isVerbose].
  intros _ _. exists [month]. split; [done|]. apply Forall_singleton.
  apply regexpMonth_spec in Hre as (pre & ym & post & -> & Hym).
  apply year_month_regexp in Hym.
  apply month_regexp_spec in Hym as (pre' & d1 & d2 & d3 & d4 & post' & -> & Hd).
  apply month_regexp_spec.
  exists (pre ++ pre'), d1, d2, d3, d4, (post' ++ post).
  split; [|done]. by rewrite <- !app_assoc.
Qed.

Lemma valid_month_is_heading_witness : header_passes [[]; str "2023-08"].
Proof.
  apply (valid_month_is_heading (λ s, s) (str "2023-08") false).
  - reflexivity.
  - discriminate.
Defined.

Lemma scan_Found path ext :
  filepath.scan path = filepath.Found ext →
  ∃ stem rest, path = stem ++ "."%char :: rest ∧ ext = "."%char :: rest ∧
    ("."%char ∉ rest) ∧ ("/"%char ∉ rest) ∧ filepath.scan rest = filepath.Start.
Proof.
  induction path as [|c path IH]; [done|]. cbn [filepath.scan].
  destruct (filepath.scan path) as [ext'| |] eqn:Hscan.
  - intros [= <-]. destruct (IH eq_refl) as (stem & rest & -> & -> & ?).
    by exists (c :: stem), rest.
  - done.
  - destruct (Ascii.eqb c "/") eqn:Hsep; [done|].
    destruct (Ascii.eqb c ".") eqn:Hdot; [|done].
    apply Ascii.eqb_eq in Hdot as ->. intros [= <-].
    exists [], path. split_and!; [done|done|..|done].
    + clear IH. induction path as [|d path IH]; [apply not_elem_of_nil|].
      cbn [filepath.scan] in Hscan.
      destruct (filepath.scan path); [done|done|].
      destruct (Ascii.eqb d "/"); [done|].
      destruct (Ascii.eqb d ".") eqn:Hd; [done|]. apply Ascii.eqb_neq in Hd.
      apply not_elem_of_cons. split; [done|]. by apply IH.
    + clear IH. induction path as [|d path IH]; [apply not_elem_of_nil|].
      cbn [filepath.scan] in Hscan.
      destruct (filepath.scan path); [done|done|].
      destruct (Ascii.eqb d "/") eqn:Hd; [done|]. apply Ascii.eqb_neq in Hd.
      destruct (Ascii.eqb d "."); [done|].
      apply not_elem_of_cons. split; [done|]. by apply IH.
Qed.

Lemma scan_app stem rest :
  filepath.scan rest = filepath.Start →
  filepath.scan (stem ++ "."%char :: rest) = filepath.Found ("."%char :: rest).
Proof.
  intros Hrest. induction stem as [|c stem IH].
  - cbn [app filepath.scan]. by rewrite Hrest.
  - cbn [app filepath.scan]. by rewrite IH.
Qed.

Lemma isASCII_app s t :
  Strings.isASCII (s ++ t) = Strings.isASCII s && Strings.isASCII t.
Proof. unfold Strings.isASCII. apply forallb_app. Qed.

(** X9. For a file name of ASCII bytes, [isWithMDfileExtension] answers
    [true] exactly when the name ends in a dot, [m] or [M], and [d] or
    [D]. A name that is only the extension counts. *)
Theorem md_extension slow filename :
  Strings.isASCII filename = true →
  cmd.isWithMDfileExtension slow filename = true ↔ md_name filename.
Proof.
  intros Hascii. unfold cmd.isWithMDfileExtension, filepath.Ext. cbv zeta. split.
  - case_bool_decide as Hext; [intros _|done].
    destruct (filepath.scan filename) as [ext| |] eqn:Hscan;
      [|by rewrite ToLower_ascii in Hext..].
    apply scan_Found in Hscan as (stem & rest & -> & -> & _).
    rewrite isASCII_app in Hascii. apply andb_prop in Hascii as [_ Hascii].
    rewrite ToLower_ascii in Hext by done.
    destruct rest as [|m [|d [|]]]; try done.
    cbn [fmap list_fmap] in Hext. injection Hext as Hm Hd.
    exists stem, m, d. split; [done|]. rewrite !either_case_spec.
    apply lower_byte_inv in Hm as [->|[_ ->]], Hd as [->|[_ ->]]; vm_compute; tauto.
  - intros (stem & m & d & -> & Hm & Hd).
    apply either_case_spec in Hm, Hd.
    rewrite (scan_app stem [m; d]).
    + rewrite ToLower_ascii.
      * destruct Hm as [-> | ->], Hd as [-> | ->]; reflexivity.
      * destruct Hm as [-> | ->], Hd as [-> | ->]; reflexivity.
    + destruct Hm as [-> | ->], Hd as [-> | ->]; reflexivity.
Qed.

Lemma md_extension_witness :
  cmd.isWithMDfileExtension (λ s, s) (str "myfile.mD") = true ↔ md_name (str "myfile.mD").
Proof. apply (md_extension (λ s, s) (str "myfile.mD")). reflexivity. Defined.

End month_and_extension.

(** ** The shape of the Markdown file *)

Section markdown_shape.

Implicit Types (ws : list Z) (row : list (list ascii)) (data : list ascii).

Local Open Scope Z_scope.

Lemma first_lead b sz lo hi :
  utf8.first b = utf8.lead sz lo hi → (sz = 2 ∨ sz = 3 ∨ sz = 4)%nat ∧ 128 ≤ lo.
Proof.
  unfold utf8.first. repeat case_match; intros [= <- <- <-] || done; (split; [auto|lia]).
Qed.

(** An ASCII byte after [s] does not change the width of the first rune
    of [s]: it completes no sequence. *)
Lemma decode_width_app s c t :
  s ≠ [] → byte c < 128 →
  (utf8.DecodeRuneInString (s ++ c :: t)).2 = (utf8.DecodeRuneInString s).2.
Proof.
  intros Hne Hc. destruct s as [|c0 s1]; [done|]. cbn [app].
  unfold utf8.DecodeRuneInString.
  destruct (utf8.first (byte c0)) as [| |sz lo hi] eqn:Hf; [done|done|].
  apply first_lead in Hf as [Hsz Hlo].
  assert (Hc1 : (byte c <? lo) = true) by (apply Z.ltb_lt; lia).
  assert (Hc2 : utf8.continuation (byte c) = false).
  { unfold utf8.continuation. apply andb_false_iff. left. apply Z.leb_gt. lia. }
  destruct s1 as [|c1 [|c2 [|c3 s4]]]; cbn [app length];
    destruct Hsz as [->|[->| ->]]; cbn [Nat.ltb Nat.leb];
    rewrite ?Hc1, ?Hc2; cbn [orb negb];
    repeat case_match; done.
Qed.

Lemma decode_width_le s : ((utf8.DecodeRuneInString s).2 ≤ length s)%nat.
Proof.
  destruct s as [|c0 s1]; [done|].
  unfold utf8.DecodeRuneInString.
  destruct (utf8.first (byte c0)) as [| |sz lo hi] eqn:Hf; [simpl; lia..|].
  apply first_lead in Hf as [Hsz _].
  destruct s1 as [|c1 [|c2 [|c3 s4]]]; cbn [length];
    destruct Hsz as [->|[->| ->]]; cbn [Nat.ltb Nat.leb];
    repeat case_match; simpl; lia.
Qed.

Lemma count_from_app s : ∀ k c t,
  (k ≤ length s)%nat → byte c < 128 →
  utf8.count_from k (s ++ c :: t) = utf8.count_from k s + utf8.count_from 0 (c :: t).
Proof.
  induction s as [|a s IH]; intros k c t Hk Hc.
  - simpl in Hk. by replace k with 0%nat by lia.
  - cbn [app]. destruct k as [|k].
    + pose proof (decode_width_le (a :: s)) as Hle. cbn [length] in Hle.
      pose proof (IH (Nat.pred (utf8.DecodeRuneInString (a :: s)).2) c t) as IH'.
      remember (utf8.count_from 0 (c :: t)) as tail.
      cbn [utf8.count_from].
      change (a :: s ++ c :: t) with ((a :: s) ++ c :: t).
      rewrite decode_width_app by done.
      rewrite IH' by (done || lia). lia.
    + cbn [length] in Hk. cbn [utf8.count_from]. apply IH; [lia|done].
Qed.

Lemma count_from_le s : ∀ k, utf8.count_from k s ≤ len s.
Proof.
  induction s as [|a s IH]; intros k; [done|].
  cbn [utf8.count_from]. unfold len in *. cbn [length].
  destruct k as [|k].
  - specialize (IH (Nat.pred (utf8.DecodeRuneInString (a :: s)).2)). lia.
  - specialize (IH k). lia.
Qed.

Lemma RuneCount_cons c s :
  byte c < 128 → utf8.RuneCountInString (c :: s) = 1 + utf8.RuneCountInString s.
Proof.
  intros Hc. unfold utf8.RuneCountInString.
  cbn [utf8.count_from utf8.DecodeRuneInString]. unfold utf8.first.
  by destruct (Z.ltb_spec (byte c) 128); [|lia].
Qed.

Lemma RuneCount_app s c t :
  byte c < 128 →
  utf8.RuneCountInString (s ++ c :: t) =
    utf8.RuneCountInString s + utf8.RuneCountInString (c :: t).
Proof. intros Hc. apply count_from_app; [lia|done]. Qed.

Lemma RuneCount_replicate n c :
  byte c < 128 → utf8.RuneCountInString (replicate n c) = Z.of_nat n.
Proof.
  intros Hc. unfold utf8.RuneCountInString. rewrite count_from_ascii.
  - unfold len. by rewrite length_replicate.
  - apply Forall_forall. by intros x [-> _]%elem_of_replicate.
Qed.

(** A cell that fits its column takes, once aligned, as many runes as the
    column is wide. *)
Lemma is_integer_bytes data :
  is_integer data = true → Forall (λ c, byte c < 128) data.
Proof.
  rewrite is_integer_Atoi. intros H%bool_decide_eq_true%Atoi_ok_iff.
  destruct H as (v & Hv & _). unfold base10_integer in Hv.
  destruct data as [|c s]; [done|].
  destruct (Ascii.eqb_spec c "+") as [->|_].
  { destruct s; [done|]. constructor; [by vm_compute|by eapply digits_value_ascii]. }
  destruct (Ascii.eqb_spec c "-") as [->|_].
  { destruct s; [done|]. constructor; [by vm_compute|].
    destruct (digits_value _ 0) eqn:Hd; [|done]. by eapply digits_value_ascii. }
  by eapply digits_value_ascii.
Qed.

(** A cell that fits its column takes, once aligned, as many runes as the
    column is wide. *)
Lemma RuneCount_aligned w data :
  fits w data → utf8.RuneCountInString (aligned w data) = w.
Proof.
  intros [Hle _]. unfold aligned.
  destruct (is_integer data) eqn:Hint.
  - apply is_integer_bytes in Hint.
    unfold right_aligned, utf8.RuneCountInString. rewrite count_from_ascii.
    + unfold len in *. rewrite length_app, length_replicate. lia.
    + apply Forall_app. split; [|done].
      apply Forall_forall. by intros x [-> _]%elem_of_replicate.
  - unfold left_aligned.
    pose proof (count_from_le data 0) as Hrunes.
    pose proof (count_from_nonneg data 0).
    fold (utf8.RuneCountInString data) in *.
    destruct (Z.to_nat (w - utf8.RuneCountInString data)) as [|n] eqn:Hn.
    + cbn [replicate]. rewrite app_nil_r. lia.
    + cbn [replicate]. rewrite RuneCount_app by done.
      change (SPACE :: replicate n SPACE) with (replicate (S n) SPACE).
      rewrite RuneCount_replicate by done. lia.
Qed.

Lemma RuneCount_separator w data :
  fits w data → utf8.RuneCountInString (separator w data) = w.
Proof.
  intros [Hle _]. rewrite <- (len_separator w data Hle) at 2.
  apply count_from_ascii. unfold separator.
  destruct (is_integer data).
  - apply Forall_app. split; [|by repeat constructor].
    apply Forall_forall. by intros x [-> _]%elem_of_replicate.
  - apply Forall_forall. by intros x [-> _]%elem_of_replicate.
Qed.

Lemma RuneCount_cells (f : Z → list ascii → list ascii) ws row c t :
  (∀ w data, fits w data → utf8.RuneCountInString (f w data) = w) →
  Forall2 fits ws row →
  byte c < 128 →
  utf8.RuneCountInString
      (concat ((λ cell, str " " ++ cell ++ str " |") <$> zip_with f ws row) ++ c :: t) =
    foldr (λ w n, w + 3 + n) 0 ws + utf8.RuneCountInString (c :: t).
Proof.
  intros Hf Hfits Hc. induction Hfits as [|w data ws row Hfit Hfits IH]; [done|].
  cbn [zip_with fmap list_fmap concat foldr].
  change (str " ") with [SPACE] in *. change (str " |") with [SPACE; "|"%char] in *.
  rewrite <- !app_assoc. cbn [app] in *.
  rewrite (RuneCount_cons SPACE) by done. rewrite RuneCount_app by done.
  rewrite (RuneCount_cons SPACE), (RuneCount_cons "|"%char) by done.
  rewrite IH, Hf by done. lia.
Qed.

Lemma table_line_text cells : table_line cells = line_text cells ++ [LF].
Proof. unfold table_line, line_text. by rewrite <- app_assoc. Qed.

Lemma RuneCount_line_text (f : Z → list ascii → list ascii) ws row :
  (∀ w data, fits w data → utf8.RuneCountInString (f w data) = w) →
  Forall2 fits ws row →
  utf8.RuneCountInString (line_text (zip_with f ws row)) = line_runes ws.
Proof.
  intros Hf Hfits.
  pose proof (RuneCount_cells f ws row LF [] Hf Hfits ltac:(done)) as Hcells.
  pose proof (RuneCount_app (line_text (zip_with f ws row)) LF [] ltac:(done)) as Hline.
  unfold line_text in Hline at 1. change (str "|") with ["|"%char] in Hline.
  rewrite <- app_assoc in Hline. cbn [app] in Hline.
  rewrite RuneCount_cons, Hcells in Hline by done.
  unfold line_runes. lia.
Qed.

Lemma line_text_LF (f : Z → list ascii → list ascii) ws row :
  (∀ w data, LF ∉ data → LF ∉ f w data) →
  Forall (λ cell, LF ∉ cell) row →
  LF ∉ line_text (zip_with f ws row).
Proof.
  intros Hf Hrow. unfold line_text.
  intros [Hin|Hin]%elem_of_app.
  { apply list_elem_of_singleton in Hin. discriminate Hin. }
  revert ws Hin. induction Hrow as [|data row Hdata Hrow IH]; intros ws Hin.
  - destruct ws; by apply elem_of_nil in Hin.
  - destruct ws as [|w ws]; [by apply elem_of_nil in Hin|].
    cbn [zip_with fmap list_fmap concat] in Hin.
    apply elem_of_app in Hin as [Hin|Hin]; [|by apply (IH ws)].
    apply elem_of_app in Hin as [Hin|Hin].
    { apply list_elem_of_singleton in Hin. discriminate Hin. }
    apply elem_of_app in Hin as [Hin|Hin]; [by apply (Hf w data Hdata)|].
    apply elem_of_cons in Hin as [Hin|Hin]; [discriminate Hin|].
    apply list_elem_of_singleton in Hin. discriminate Hin.
Qed.

Lemma aligned_LF w data : LF ∉ data → LF ∉ aligned w data.
Proof.
  intros Hdata. unfold aligned, right_aligned, left_aligned.
  destruct (is_integer data); intros [Hin|Hin]%elem_of_app; try done;
    by apply elem_of_replicate in Hin as [Hin _].
Qed.

Lemma separator_LF w data : LF ∉ data → LF ∉ separator w data.
Proof.
  intros _. unfold separator. destruct (is_integer data).
  - intros [Hin|Hin]%elem_of_app.
    + by apply elem_of_replicate in Hin as [Hin _].
    + apply list_elem_of_singleton in Hin. discriminate Hin.
  - intros Hin. by apply elem_of_replicate in Hin as [Hin _].
Qed.

(** X10. The table in the Markdown file is a rectangle: for a table of at
    least two rows, all with the same cell count, no cell longer than
    1000000 bytes and no line feed in any cell, the file holds the
    introduction and then the lines of the table, one for each row and one
    for the separator, each ended by its line feed and without another.
    Each of these lines has the same number of runes: one, and for each
    column its width and three more. The widths are byte counts, so a cell
    that is not ASCII is padded with more bytes than its column is wide;
    the count in runes is what makes the columns line up. *)
Theorem markdown_rectangle fs fs1 outputFileName (T : list (list (list ascii)))
    row0 row1 rest introductionText :
  T = row0 :: row1 :: rest →
  Forall (λ row, length row = length row0) T →
  Forall (Forall (λ cell, len cell ≤ 1000000)) T →
  Forall (Forall (λ cell, LF ∉ cell)) T →
  os.Create fs outputFileName = Some fs1 →
  ∃ ws lines,
    cmd.get_columnsWidth T = Returns (ws, None) ∧
    cmd.writeDataAsMarkdown fs outputFileName T introductionText =
      (os.write fs1 outputFileName
         ((if 0 <? len introductionText then introductionText ++ [LF] else []) ++
          concat ((λ line, line ++ [LF]) <$> lines)),
       Returns tt) ∧
    length lines = S (length T) ∧
    Forall (λ line, (LF ∉ line) ∧ utf8.RuneCountInString line = line_runes ws) lines.
Proof.
  intros HT Hlen Hmax Hnl Hcreate.
  destruct (writeDataAsMarkdown_spec fs fs1 outputFileName T row0 row1 rest
              introductionText HT Hlen Hmax Hcreate) as (ws & Hws & Hfits & Hout).
  exists ws, (line_text (zip_with aligned ws row0) ::
              line_text (zip_with separator ws row1) ::
              line_text (zip_with aligned ws row1) ::
              ((λ row, line_text (zip_with aligned ws row)) <$> rest)).
  split_and!; [done| |..].
  - rewrite Hout. do 3 f_equal. cbn [fmap list_fmap concat].
    unfold table_row, separator_row. rewrite !table_line_text.
    do 3 f_equal. rewrite <- list_fmap_compose. by f_equal.
  - subst T. cbn [length]. by rewrite length_fmap.
  - subst T. apply Forall_cons in Hfits as [Hrow0 Hfits].
    apply Forall_cons in Hfits as [Hrow1 Hfits].
    apply Forall_cons in Hnl as [Hnl0 Hnl]. apply Forall_cons in Hnl as [Hnl1 Hnl].
    repeat apply Forall_cons_2.
    + split; [by apply line_text_LF; [apply aligned_LF|]|].
      by apply RuneCount_line_text; [apply RuneCount_aligned|].
    + split; [by apply line_text_LF; [apply separator_LF|]|].
      by apply RuneCount_line_text; [apply RuneCount_separator|].
    + split; [by apply line_text_LF; [apply aligned_LF|]|].
      by apply RuneCount_line_text; [apply RuneCount_aligned|].
    + apply Forall_fmap, Forall_forall. intros row Hin.
      rewrite Forall_forall in Hfits, Hnl. cbn. split.
      * apply line_text_LF; [apply aligned_LF|by apply Hnl].
      * apply RuneCount_line_text; [apply RuneCount_aligned|by apply Hfits].
Qed.

Lemma markdown_rectangle_witness :
  ∃ ws lines,
    cmd.get_columnsWidth (map (map str) [[""; "2023-08"]; ["zoé"; "12"]]%string) =
      Returns (ws, None) ∧
    cmd.writeDataAsMarkdown (one_file "pivot.csv" []) "report.md"
        (map (map str) [[""; "2023-08"]; ["zoé"; "12"]]%string) (str "# Extract") =
      (os.write (os.write (one_file "pivot.csv" []) "report.md" []) "report.md"
         ((if 0 <? len (str "# Extract") then str "# Extract" ++ [LF] else []) ++
          concat ((λ line, line ++ [LF]) <$> lines)),
       Returns tt) ∧
    length lines = 3%nat ∧
    Forall (λ line, (LF ∉ line) ∧ utf8.RuneCountInString line = line_runes ws) lines.
Proof.
  apply (markdown_rectangle (one_file "pivot.csv" [])
           (os.write (one_file "pivot.csv" []) "report.md" []) "report.md"
           (map (map str) [[""; "2023-08"]; ["zoé"; "12"]]%string)
           (map str [""; "2023-08"]%string) (map str ["zoé"; "12"]%string) []
           (str "# Extract")).
  - reflexivity.
  - repeat constructor.
  - apply Forall_forall. intros row Hrow. apply Forall_forall. intros cell Hcell.
    assert (Hsmall : Forall (Forall (λ cell, length cell ≤ 10)%nat)
              (map (map str) [[""; "2023-08"]; ["zoé"; "12"]]%string)).
    { repeat constructor; simpl; lia. }
    rewrite Forall_forall in Hsmall. specialize (Hsmall row Hrow).
    rewrite Forall_forall in Hsmall. specialize (Hsmall cell Hcell).
    unfold len. lia.
  - repeat (apply Forall_cons_2 || apply Forall_nil_2);
      apply (bool_decide_unpack _); vm_compute; exact I.
  - reflexivity.
Defined.

(** X11. A table of one row gets no separator: the file holds the
    introduction and the row, each cell in a column as wide as the cell has
    bytes. *)
Theorem markdown_single_row fs fs1 outputFileName row0 introductionText :
  Forall (λ cell, len cell ≤ 1000000) row0 →
  os.Create fs outputFileName = Some fs1 →
  cmd.writeDataAsMarkdown fs outputFileName [row0] introductionText =
    (os.write fs1 outputFileName
       ((if 0 <? len introductionText then introductionText ++ [LF] else []) ++
        table_row (len <$> row0) row0),
     Returns tt).
Proof.
  intros Hmax Hcreate.
  destruct (columnsWidth_uniform [row0] row0 [] eq_refl) as (ws & Hws & Hlen & Hw).
  { by repeat constructor. }
  assert (Heq : ws = len <$> row0).
  { apply (list_eq_same_length _ _ (length row0)); [by rewrite length_fmap|done|].
    intros j w w' Hj Hjw Hjw'.
    destruct (Hw j w Hjw) as [_ (row & cell & Hrow & Hcell & <-)].
    apply list_elem_of_singleton in Hrow as ->.
    rewrite list_lookup_fmap, Hcell in Hjw'. by injection Hjw' as <-. }
  subst ws.
  assert (Hfits : Forall2 fits (len <$> row0) row0).
  { apply Forall2_fmap_l, Forall_Forall2_diag.
    eapply Forall_impl; [exact Hmax|]. intros cell Hcell. split; [lia|exact Hcell]. }
  unfold cmd.writeDataAsMarkdown. rewrite Hcreate, Hws.
  cbn [cmd.write_lines Nat.eqb].
  pose proof (format_columns_spec row0 (len <$> row0) [] false (str "|") (str "|") Hfits)
    as Hfmt.
  cbn [length app] in Hfmt. rewrite Hfmt. cbn [mbind Outcome_bind].
  unfold table_row, table_line. by rewrite <- !app_assoc.
Qed.

Lemma markdown_single_row_witness :
  cmd.writeDataAsMarkdown (one_file "pivot.csv" []) "report.md"
      [map str ["Submitter"; "Total_PRs"]%string] [] =
    (os.write (os.write (one_file "pivot.csv" []) "report.md" []) "report.md"
       ((if 0 <? len (@nil ascii) then [] ++ [LF] else []) ++
        table_row (len <$> map str ["Submitter"; "Total_PRs"]%string)
          (map str ["Submitter"; "Total_PRs"]%string)),
     Returns tt).
Proof.
  apply (markdown_single_row (one_file "pivot.csv" [])
           (os.write (one_file "pivot.csv" []) "report.md" []) "report.md"
           (map str ["Submitter"; "Total_PRs"]%string) []).
  - repeat constructor; unfold len; simpl; lia.
  - reflexivity.
Defined.

(** X12. The output file is created before the table is looked at: when
    the table has no row (the call panics) or a row whose cell count
    differs from the first row's (the call ends in [log.Fatal]), the file
    is left empty, and what it held before is lost. *)
Theorem markdown_refused_table fs fs1 outputFileName
    (T : list (list (list ascii))) introductionText :
  os.Create fs outputFileName = Some fs1 →
  (∀ row0, head T = Some row0 → Exists (λ row, length row ≠ length row0) T) →
  cmd.writeDataAsMarkdown fs outputFileName T introductionText =
    (fs1, match T with [] => Panics | _ => Fatal end) ∧
  os.Open fs1 outputFileName = Some [].
Proof.
  intros Hcreate Hbad. split.
  - unfold cmd.writeDataAsMarkdown. rewrite Hcreate.
    destruct T as [|row0 rest]; [done|].
    specialize (Hbad row0 eq_refl). apply Exists_exists in Hbad as (row & Hin & Hrow).
    destruct (columnsWidth_mismatch _ row0 rest eq_refl) as (i & r & _ & _ & _ & ->).
    { by exists row. }
    done.
  - unfold os.Create in Hcreate. destruct (os.creatable fs outputFileName); [|done].
    injection Hcreate as <-. apply Open_write.
Qed.

Lemma markdown_refused_table_witness :
  cmd.writeDataAsMarkdown (one_file "report.md" (str "old")) "report.md"
      (map (map str) [["a"; "1"]; ["b"]]%string) [] =
    (os.write (one_file "report.md" (str "old")) "report.md" [], Fatal) ∧
  os.Open (os.write (one_file "report.md" (str "old")) "report.md" []) "report.md" = Some [].
Proof.
  apply (markdown_refused_table (one_file "report.md" (str "old"))
           (os.write (one_file "report.md" (str "old")) "report.md" []) "report.md"
           (map (map str) [["a"; "1"]; ["b"]]%string) []).
  - reflexivity.
  - intros row0 [= <-]. apply Exists_cons_tl, Exists_cons_hd. simpl. lia.
Defined.

End markdown_shape.

(** ** What [checkFile] prints *)

Section check_messages.

Implicit Types (hdr row : list (list ascii)) (rows : list (list (list ascii))).

Lemma check_counts_first counts : ∀ i ii m,
  cmd.check_dataLine i (S ii) counts = Some m →
  ∃ k cell,
    counts !! k = Some cell ∧ ¬ is_int64_text cell ∧
    Forall is_int64_text (take k counts) ∧
    m = cmd.ValueNotInteger cell (Z.of_nat i) (Z.of_nat (S ii + k)).
Proof.
  induction counts as [|c counts IH]; intros i ii m; [done|].
  cbn [cmd.check_dataLine Nat.eqb].
  destruct ((strconv.Atoi c).2) as [e|] eqn:Hc.
  - intros [= <-]. exists 0, c. split_and!; [done| |by constructor|].
    + rewrite <- Atoi_int64. by rewrite Hc.
    + by rewrite Nat.add_0_r.
  - intros (k & cell & Hk & Hcell & Hbefore & ->)%IH.
    exists (S k), cell. split_and!; [done|done| |].
    + cbn [take]. constructor; [by apply Atoi_int64|done].
    + do 2 f_equal. lia.
Qed.

Lemma check_records_first rows : ∀ i m,
  cmd.check_records (S i) rows = Some m →
  ∃ k row,
    rows !! k = Some row ∧ cmd.check_dataLine (S i + k) 0 row = Some m ∧
    Forall (λ r, data_line_ok r = true) (take k rows).
Proof.
  induction rows as [|row rows IH]; intros i m; [done|].
  cbn [cmd.check_records Nat.eqb].
  destruct (cmd.check_dataLine (S i) 0 row) as [m'|] eqn:Hrow.
  - intros [= <-]. exists 0, row. split_and!; [done| |by constructor].
    by rewrite Nat.add_0_r.
  - intros (k & r & Hk & Hr & Hbefore)%IH.
    exists (S k), r. split_and!; [done| |].
    + by replace (S i + S k) with (S (S i) + k) by lia.
    + cbn [take]. constructor; [by apply check_dataLine_spec in Hrow|done].
Qed.

(** X13. With the verbose flag, a file that [checkFile] accepts gets the
    output of seven print calls, in this order: the opening line, the
    number of columns of the header, the two header checks that passed,
    the column check that passed, the number of data records, and the
    success message. The number of data records is given as one less than
    the records that follow the header (and as -1 for a file that has its
    header only). *)
Theorem checkFile_verbose_messages fs fileName content hdr rows :
  os.Open fs fileName = Some content →
  file_table content = Some (hdr :: rows) →
  (cmd.checkFile true fs fileName).2 = Returns true →
  (cmd.checkFile true fs fileName).1 =
    [cmd.CheckingFileFormat;
     cmd.NumberOfColumns (len hdr);
     cmd.HeaderStartsWithEmptyColumnName;
     cmd.HeaderDataColumnFormat;
     cmd.ColumnsMatchHeader;
     cmd.RecordsValid (len rows - 1);
     cmd.SuccessfullyChecked fileName].
Proof.
  intros Hopen Htable. rewrite (checkFile_table _ _ _ _ _ _ Hopen Htable).
  unfold checkTable. destruct hdr as [|column0 periods]; [done|].
  case_bool_decide; cbn [negb]; [|done].
  destruct (cmd.check_headings _ _); [done|].
  destruct (forallb _ rows); [|done].
  by destruct (cmd.check_records 0 rows).
Qed.

Lemma checkFile_verbose_messages_witness :
  (cmd.checkFile true (one_file "pivot.csv" (text [",2023-08"])) "pivot.csv").1 =
    [cmd.CheckingFileFormat;
     cmd.NumberOfColumns (len [[]; str "2023-08"]);
     cmd.HeaderStartsWithEmptyColumnName;
     cmd.HeaderDataColumnFormat;
     cmd.ColumnsMatchHeader;
     cmd.RecordsValid (len (@nil (list (list ascii))) - 1);
     cmd.SuccessfullyChecked "pivot.csv"].
Proof.
  apply (checkFile_verbose_messages (one_file "pivot.csv" (text [",2023-08"]))
           "pivot.csv" (text [",2023-08"]) [[]; str "2023-08"] []).
  - reflexivity.
  - vm_compute. reflexivity.
  - vm_compute. reflexivity.
Defined.

(** X14. When the header passes and every record has as many fields as
    the header, a refusal names the first cell that fails, in reading
    order, among the records after the first data record. The line that
    the message gives is the position of the record among the data
    records, counted from 0, and the column is the position of the cell in
    its record, counted from 0. *)
Theorem checkFile_first_failure v fs fileName content hdr rows :
  os.Open fs fileName = Some content →
  file_table content = Some (hdr :: rows) →
  header_passes hdr →
  Forall (λ row, length row = length hdr) rows →
  (cmd.checkFile v fs fileName).2 = Returns false →
  ∃ i row m,
    last (cmd.checkFile v fs fileName).1 = Some m ∧
    (1 ≤ i)%nat ∧ rows !! i = Some row ∧
    (∀ i' row', (1 ≤ i' < i)%nat → rows !! i' = Some row' → data_line_ok row' = true) ∧
    ((∃ id counts,
        row = id :: counts ∧ identifier id = false ∧
        m = cmd.SubmitterNotGitHubRules id (Z.of_nat i)) ∨
     (∃ id counts ii cell,
        row = id :: counts ∧ identifier id = true ∧
        counts !! ii = Some cell ∧ ¬ is_int64_text cell ∧
        Forall is_int64_text (take ii counts) ∧
        m = cmd.ValueNotInteger cell (Z.of_nat i) (Z.of_nat (S ii)))).
Proof.
  intros Hopen Htable Hhdr Hlen. rewrite (checkFile_table _ _ _ _ _ _ Hopen Htable).
  unfold checkTable.
  apply header_passes_spec in Hhdr as (periods & -> & Hhead).
  rewrite bool_decide_eq_true_2 by done. cbn [negb]. rewrite Hhead.
  assert (Hcount : forallb (λ row, (len row =? len ([] :: periods))%Z) rows = true).
  { apply forallb_forall. intros row Hin%list_elem_of_In.
    rewrite Forall_forall in Hlen. apply Z.eqb_eq. unfold len. by rewrite (Hlen row Hin). }
  rewrite Hcount.
  destruct (cmd.check_records 0 rows) as [m|] eqn:Hm; [intros _|done].
  destruct rows as [|first rest]; [done|].
  cbn [cmd.check_records Nat.eqb] in Hm.
  apply check_records_first in Hm as (k & row & Hk & Hrow & Hbefore).
  exists (S k), row, m. split_and!.
  - cbn [fst]. by rewrite !last_snoc.
  - lia.
  - done.
  - intros [|i'] row' Hi' Hrow'; [lia|]. cbn in Hrow'.
    rewrite Forall_forall in Hbefore. apply Hbefore.
    apply list_elem_of_lookup. exists i'. rewrite lookup_take_lt by lia. done.
  - destruct row as [|id counts]; [done|].
    cbn [cmd.check_dataLine Nat.eqb] in Hrow. rewrite <- identifier_spec in Hrow.
    destruct (identifier id) eqn:Hid; cbn [negb] in Hrow.
    + right. apply check_counts_first in Hrow as (ii & cell & Hii & Hcell & Hbefore' & ->).
      exists id, counts, ii, cell. split_and!; try done.
    + left. injection Hrow as <-. by exists id, counts.
Qed.

Lemma checkFile_first_failure_witness :
  ∃ i row m,
    last (cmd.checkFile false
            (one_file "pivot.csv" (text [",2023-08"; "a b,x"; "basil,12"; "zbynek,1O"]))
            "pivot.csv").1 = Some m ∧
    (1 ≤ i)%nat ∧
    map (map str) [["a b"; "x"]; ["basil"; "12"]; ["zbynek"; "1O"]]%string !! i = Some row ∧
    (∀ i' row', (1 ≤ i' < i)%nat →
       map (map str) [["a b"; "x"]; ["basil"; "12"]; ["zbynek"; "1O"]]%string !! i' =
         Some row' →
       data_line_ok row' = true) ∧
    ((∃ id counts,
        row = id :: counts ∧ identifier id = false ∧
        m = cmd.SubmitterNotGitHubRules id (Z.of_nat i)) ∨
     (∃ id counts ii cell,
        row = id :: counts ∧ identifier id = true ∧
        counts !! ii = Some cell ∧ ¬ is_int64_text cell ∧
        Forall is_int64_text (take ii counts) ∧
        m = cmd.ValueNotInteger cell (Z.of_nat i) (Z.of_nat (S ii)))).
Proof.
  apply (checkFile_first_failure false
           (one_file "pivot.csv" (text [",2023-08"; "a b,x"; "basil,12"; "zbynek,1O"]))
           "pivot.csv" (text [",2023-08"; "a b,x"; "basil,12"; "zbynek,1O"])
           [[]; str "2023-08"]).
  - reflexivity.
  - vm_compute. reflexivity.
  - exists [str "2023-08"]. split; [reflexivity|]. by repeat constructor.
  - repeat constructor.
  - vm_compute. reflexivity.
Defined.

(** X15. The verbose flag changes neither the verdict nor the message
    that ends the run: it adds progress messages before that message, and
    nothing else. *)
Theorem checkFile_verbose_prefix fs fileName :
  ∃ progress,
    cmd.checkFile true fs fileName =
      (progress ++ (cmd.checkFile false fs fileName).1,
       (cmd.checkFile false fs fileName).2).
Proof.
  unfold cmd.checkFile. destruct (os.Open fs fileName) as [content|]; [|by exists []].
  destruct (csv.Read (csv.NewReader content)) as [[firstLine [e1|]] r]; [by exists []|].
  destruct firstLine as [|column0 periods]; [by eexists [_; _]|].
  destruct (negb _); [by eexists [_; _]|].
  destruct (cmd.check_headings _ _); [by eexists [_; _; _]|].
  destruct (csv.ReadAll r) as [[records [e|]] r2]; [by eexists [_; _; _; _]|].
  destruct (cmd.check_records 0 records); [by eexists [_; _; _; _]|].
  by eexists [_; _; _; _; _; _].
Qed.

End check_messages.
